(** * Verification of the pairing / directory-login core of [happy]

    The development embeds, function by function,
    - [packages/happy-app/sources/encryption/hmac_sha512.web.ts]
      (pure-JS SHA-512 and HMAC over 32-bit half words),
    - the LDAP module ([cleanUsername], [authenticate]),
    - the authentication routes ([/v1/auth/ad], [/v1/auth/request], ...),
    and states the properties of the specification over these embeddings. *)

From Stdlib Require Import ZArith List Lia Bool Ascii String DecimalString.
From Stdlib.Strings Require Import Byte.
From stdpp Require Import base option list gmap strings.

Local Open Scope Z_scope.
Import ListNotations.

(** ** JavaScript 32-bit integer operators

    A JS number holding an integer of magnitude below 2^53 is a [Z].  The
    bitwise operators first convert their operands with ToInt32 / ToUint32
    and mask the shift count with 31. *)
Module JS.

Definition two32 : Z := 4294967296.

(** ToUint32 *)
Definition to_uint32 (x : Z) : Z := x mod two32.

(** ToInt32 *)
Definition to_int32 (x : Z) : Z :=
  let u := x mod two32 in
  if u <? 2147483648 then u else u - two32.

(** [a >>> n] *)
Definition ushr (a n : Z) : Z := Z.shiftr (to_uint32 a) (Z.land n 31).

(** [a << n] *)
Definition shl (a n : Z) : Z := to_int32 (Z.shiftl (to_int32 a) (Z.land n 31)).

(** [a | b] *)
Definition bor (a b : Z) : Z := Z.lor (to_int32 a) (to_int32 b).

(** [a ^ b] *)
Definition bxor (a b : Z) : Z := Z.lxor (to_int32 a) (to_int32 b).

(** [a & b] *)
Definition band (a b : Z) : Z := Z.land (to_int32 a) (to_int32 b).

(** [~a] *)
Definition bnot (a : Z) : Z := Z.lnot (to_int32 a).

End JS.

(** ** Bytes and typed arrays *)

Definition byte_to_Z (b : byte) : Z := Z.of_N (Byte.to_N b).

Definition byte_of_Z (z : Z) : byte :=
  match Byte.of_N (Z.to_N (z mod 256)) with
  | Some b => b
  | None => x00
  end.

(** [arr[i]] on a typed array of numbers, for an index in range. *)
Definition get (arr : list Z) (i : Z) : Z := nth (Z.to_nat i) arr 0.

(** [arr[i] = v] on an [Int32Array]: the number is stored as ToInt32. *)
Definition set_i32 (arr : list Z) (i : Z) (v : Z) : list Z :=
  <[Z.to_nat i := JS.to_int32 v]> arr.

(** [view.getInt32(pos, false)]: four bytes, big endian, read as signed. *)
Definition getInt32 (buf : list byte) (pos : Z) : Z :=
  let b k := byte_to_Z (nth (Z.to_nat (pos + k)) buf x00) in
  JS.to_int32 (b 0 * 16777216 + b 1 * 65536 + b 2 * 256 + b 3).

(** The four big-endian bytes written by [view.setUint32(pos, v, false)]. *)
Definition be32 (v : Z) : list byte :=
  let u := JS.to_uint32 v in
  [byte_of_Z (u / 16777216); byte_of_Z (u / 65536); byte_of_Z (u / 256); byte_of_Z u].

(** [view.setUint32(pos, v, false)] for [pos + 4 <= length buf]. *)
Definition setUint32 (buf : list byte) (pos : Z) (v : Z) : list byte :=
  let p := Z.to_nat pos in
  firstn p buf ++ be32 v ++ skipn (p + 4) buf.

(** [for (let i = lo; i < lo + n; i++) st = body i st] *)
Definition for_range {S : Type} (lo : Z) (n : nat) (body : Z -> S -> S) (st : S) : S :=
  fold_left (fun s k => body (lo + Z.of_nat k) s) (seq 0 n) st.

(** ** hmac_sha512.web.ts *)
Module Sha512Web.

Import JS.

Definition K : list Z := [
  0x428a2f98; 0xd728ae22; 0x71374491; 0x23ef65cd; 0xb5c0fbcf; 0xec4d3b2f; 0xe9b5dba5; 0x8189dbbc;
  0x3956c25b; 0xf348b538; 0x59f111f1; 0xb605d019; 0x923f82a4; 0xaf194f9b; 0xab1c5ed5; 0xda6d8118;
  0xd807aa98; 0xa3030242; 0x12835b01; 0x45706fbe; 0x243185be; 0x4ee4b28c; 0x550c7dc3; 0xd5ffb4e2;
  0x72be5d74; 0xf27b896f; 0x80deb1fe; 0x3b1696b1; 0x9bdc06a7; 0x25c71235; 0xc19bf174; 0xcf692694;
  0xe49b69c1; 0x9ef14ad2; 0xefbe4786; 0x384f25e3; 0x0fc19dc6; 0x8b8cd5b5; 0x240ca1cc; 0x77ac9c65;
  0x2de92c6f; 0x592b0275; 0x4a7484aa; 0x6ea6e483; 0x5cb0a9dc; 0xbd41fbd4; 0x76f988da; 0x831153b5;
  0x983e5152; 0xee66dfab; 0xa831c66d; 0x2db43210; 0xb00327c8; 0x98fb213f; 0xbf597fc7; 0xbeef0ee4;
  0xc6e00bf3; 0x3da88fc2; 0xd5a79147; 0x930aa725; 0x06ca6351; 0xe003826f; 0x14292967; 0x0a0e6e70;
  0x27b70a85; 0x46d22ffc; 0x2e1b2138; 0x5c26c926; 0x4d2c6dfc; 0x5ac42aed; 0x53380d13; 0x9d95b3df;
  0x650a7354; 0x8baf63de; 0x766a0abb; 0x3c77b2a8; 0x81c2c92e; 0x47edaee6; 0x92722c85; 0x1482353b;
  0xa2bfe8a1; 0x4cf10364; 0xa81a664b; 0xbc423001; 0xc24b8b70; 0xd0f89791; 0xc76c51a3; 0x0654be30;
  0xd192e819; 0xd6ef5218; 0xd6990624; 0x5565a910; 0xf40e3585; 0x5771202a; 0x106aa070; 0x32bbd1b8;
  0x19a4c116; 0xb8d2d0c8; 0x1e376c08; 0x5141ab53; 0x2748774c; 0xdf8eeb99; 0x34b0bcb5; 0xe19b48a8;
  0x391c0cb3; 0xc5c95a63; 0x4ed8aa4a; 0xe3418acb; 0x5b9cca4f; 0x7763e373; 0x682e6ff3; 0xd6b2b8a3;
  0x748f82ee; 0x5defb2fc; 0x78a5636f; 0x43172f60; 0x84c87814; 0xa1f0ab72; 0x8cc70208; 0x1a6439ec;
  0x90befffa; 0x23631e28; 0xa4506ceb; 0xde82bde9; 0xbef9a3f7; 0xb2c67915; 0xc67178f2; 0xe372532b;
  0xca273ece; 0xea26619c; 0xd186b8c7; 0x21c0c207; 0xeada7dd6; 0xcde0eb1e; 0xf57d4f7f; 0xee6ed178;
  0x06f067aa; 0x72176fba; 0x0a637dc5; 0xa2c898a6; 0x113f9804; 0xbef90dae; 0x1b710b35; 0x131c471b;
  0x28db77f5; 0x23047d84; 0x32caab7b; 0x40c72493; 0x3c9ebe0a; 0x15c9bebc; 0x431d67c4; 0x9c100d4c;
  0x4cc5d4be; 0xcb3e42b6; 0x597f299c; 0xfc657e2a; 0x5fcb6fab; 0x3ad6faec; 0x6c44198c; 0x4a475817
].

Definition add64 (ah al bh bl : Z) : Z * Z :=
  let lo := ushr (al + bl) 0 in
  let hi := ushr (ah + bh + (if lo <? al then 1 else 0)) 0 in
  (hi, lo).

Definition rotr64 (h l n : Z) : Z * Z :=
  if n <? 32 then
    (ushr (bor (ushr h n) (shl l (32 - n))) 0,
     ushr (bor (ushr l n) (shl h (32 - n))) 0)
  else
    let n := n - 32 in
    (ushr (bor (ushr l n) (shl h (32 - n))) 0,
     ushr (bor (ushr h n) (shl l (32 - n))) 0).

Definition shr64 (h l n : Z) : Z * Z :=
  if n <? 32 then
    (ushr (ushr h n) 0, ushr (bor (ushr l n) (shl h (32 - n))) 0)
  else
    (0, ushr (ushr h (n - 32)) 0).

(** The padded message built at the top of [sha512]. *)
Definition pad (data : list byte) : list byte :=
  let len := Z.of_nat (length data) in
  let bitLen := len * 8 in
  let padLen := ((128 - ((len + 17) mod 128)) mod 128) + 17 in
  let padded := data ++ [x80] ++ repeat x00 (Z.to_nat (padLen - 1)) in
  let plen := Z.of_nat (length padded) in
  let padded := setUint32 padded (plen - 4) (ushr bitLen 0) in
  setUint32 padded (plen - 8) (ushr (bitLen / 4294967296) 0).

(** The sixteen 64-bit chaining halves [h0h, h0l, ..., h7h, h7l]. *)
Record hstate := HState {
  h0h : Z; h0l : Z; h1h : Z; h1l : Z; h2h : Z; h2l : Z; h3h : Z; h3l : Z;
  h4h : Z; h4l : Z; h5h : Z; h5l : Z; h6h : Z; h6l : Z; h7h : Z; h7l : Z
}.

Definition h_init : hstate :=
  HState 0x6a09e667 0xf3bcc908 0xbb67ae85 0x84caa73b
         0x3c6ef372 0xfe94f82b 0xa54ff53a 0x5f1d36f1
         0x510e527f 0xade682d1 0x9b05688c 0x2b3e6c1f
         0x1f83d9ab 0xfb41bd6b 0x5be0cd19 0x137e2179.

(** First inner loop: [wh[i]], [wl[i]] for [i < 16] from the block. *)
Definition load_block (padded : list byte) (offset : Z) (w : list Z * list Z)
  : list Z * list Z :=
  for_range 0 16 (fun i '(wh, wl) =>
    (set_i32 wh i (getInt32 padded (offset + i * 8)),
     set_i32 wl i (getInt32 padded (offset + i * 8 + 4)))) w.

(** Second inner loop: the message schedule for [16 <= i < 80]. *)
Definition schedule_step (i : Z) (w : list Z * list Z) : list Z * list Z :=
  let '(wh, wl) := w in
  let '(a1h, a1l) := rotr64 (get wh (i - 15)) (get wl (i - 15)) 1 in
  let '(a2h, a2l) := rotr64 (get wh (i - 15)) (get wl (i - 15)) 8 in
  let '(a3h, a3l) := shr64 (get wh (i - 15)) (get wl (i - 15)) 7 in
  let s0h := ushr (bxor (bxor a1h a2h) a3h) 0 in
  let s0l := ushr (bxor (bxor a1l a2l) a3l) 0 in
  let '(b1h, b1l) := rotr64 (get wh (i - 2)) (get wl (i - 2)) 19 in
  let '(b2h, b2l) := rotr64 (get wh (i - 2)) (get wl (i - 2)) 61 in
  let '(b3h, b3l) := shr64 (get wh (i - 2)) (get wl (i - 2)) 6 in
  let s1h := ushr (bxor (bxor b1h b2h) b3h) 0 in
  let s1l := ushr (bxor (bxor b1l b2l) b3l) 0 in
  let '(rh, rl) := add64 (get wh (i - 16)) (get wl (i - 16)) s0h s0l in
  let '(rh, rl) := add64 rh rl (get wh (i - 7)) (get wl (i - 7)) in
  let '(rh, rl) := add64 rh rl s1h s1l in
  (set_i32 wh i rh, set_i32 wl i rl).

Definition schedule (w : list Z * list Z) : list Z * list Z :=
  for_range 16 64 schedule_step w.

(** The working variables [ah, al, ..., hh, hl]. *)
Record vars := Vars {
  va_h : Z; va_l : Z; vb_h : Z; vb_l : Z; vc_h : Z; vc_l : Z; vd_h : Z; vd_l : Z;
  ve_h : Z; ve_l : Z; vf_h : Z; vf_l : Z; vg_h : Z; vg_l : Z; vh_h : Z; vh_l : Z
}.

(** One iteration of the 80-round loop. *)
Definition round (wh wl : list Z) (i : Z) (v : vars) : vars :=
  let '(Vars ah al bh bl ch cl dh dl eh el fh fl gh gl hh hl) := v in
  let '(e14h, e14l) := rotr64 eh el 14 in
  let '(e18h, e18l) := rotr64 eh el 18 in
  let '(e41h, e41l) := rotr64 eh el 41 in
  let S1h := ushr (bxor (bxor e14h e18h) e41h) 0 in
  let S1l := ushr (bxor (bxor e14l e18l) e41l) 0 in
  let chh := ushr (bxor (band eh fh) (band (bnot eh) gh)) 0 in
  let chl := ushr (bxor (band el fl) (band (bnot el) gl)) 0 in
  let '(t1h, t1l) := add64 hh hl S1h S1l in
  let '(t1h, t1l) := add64 t1h t1l chh chl in
  let '(t1h, t1l) := add64 t1h t1l (get K (i * 2)) (get K (i * 2 + 1)) in
  let '(t1h, t1l) := add64 t1h t1l (get wh i) (get wl i) in
  let '(a28h, a28l) := rotr64 ah al 28 in
  let '(a34h, a34l) := rotr64 ah al 34 in
  let '(a39h, a39l) := rotr64 ah al 39 in
  let S0h := ushr (bxor (bxor a28h a34h) a39h) 0 in
  let S0l := ushr (bxor (bxor a28l a34l) a39l) 0 in
  let majh := ushr (bxor (bxor (band ah bh) (band ah ch)) (band bh ch)) 0 in
  let majl := ushr (bxor (bxor (band al bl) (band al cl)) (band bl cl)) 0 in
  let '(t2h, t2l) := add64 S0h S0l majh majl in
  let '(eh', el') := add64 dh dl t1h t1l in
  let '(ah', al') := add64 t1h t1l t2h t2l in
  Vars ah' al' ah al bh bl ch cl eh' el' eh el fh fl gh gl.

(** The body of the loop over 128-byte blocks. *)
Definition block (padded : list byte) (offset : Z) (st : hstate * (list Z * list Z))
  : hstate * (list Z * list Z) :=
  let '(h, w) := st in
  let '(wh, wl) := schedule (load_block padded offset w) in
  let v0 := Vars (h0h h) (h0l h) (h1h h) (h1l h) (h2h h) (h2l h) (h3h h) (h3l h)
                 (h4h h) (h4l h) (h5h h) (h5l h) (h6h h) (h6l h) (h7h h) (h7l h) in
  let '(Vars ah al bh bl ch cl dh dl eh el fh fl gh gl hh hl) :=
    for_range 0 80 (round wh wl) v0 in
  let '(n0h, n0l) := add64 (h0h h) (h0l h) ah al in
  let '(n1h, n1l) := add64 (h1h h) (h1l h) bh bl in
  let '(n2h, n2l) := add64 (h2h h) (h2l h) ch cl in
  let '(n3h, n3l) := add64 (h3h h) (h3l h) dh dl in
  let '(n4h, n4l) := add64 (h4h h) (h4l h) eh el in
  let '(n5h, n5l) := add64 (h5h h) (h5l h) fh fl in
  let '(n6h, n6l) := add64 (h6h h) (h6l h) gh gl in
  let '(n7h, n7l) := add64 (h7h h) (h7l h) hh hl in
  (HState n0h n0l n1h n1l n2h n2l n3h n3l n4h n4l n5h n5l n6h n6l n7h n7l, (wh, wl)).

Definition output (h : hstate) : list byte :=
  be32 (h0h h) ++ be32 (h0l h) ++ be32 (h1h h) ++ be32 (h1l h) ++
  be32 (h2h h) ++ be32 (h2l h) ++ be32 (h3h h) ++ be32 (h3l h) ++
  be32 (h4h h) ++ be32 (h4l h) ++ be32 (h5h h) ++ be32 (h5l h) ++
  be32 (h6h h) ++ be32 (h6l h) ++ be32 (h7h h) ++ be32 (h7l h).

Definition sha512 (data : list byte) : list byte :=
  let padded := pad data in
  let w0 := (repeat 0 80, repeat 0 80) in
  let '(h, _) :=
    fold_left (fun st k => block padded (Z.of_nat k * 128) st)
              (seq 0 (Nat.div (length padded + 127) 128)) (h_init, w0) in
  output h.

Definition hmac_sha512 (key data : list byte) : list byte :=
  let blockSize := 128%nat in
  let actualKey := if (blockSize <? length key)%nat then sha512 key else key in
  let paddedKey := actualKey ++ repeat x00 (blockSize - length actualKey) in
  let innerKey := map (fun b => byte_of_Z (bxor (byte_to_Z b) 0x36)) paddedKey in
  let outerKey := map (fun b => byte_of_Z (bxor (byte_to_Z b) 0x5c)) paddedKey in
  let innerData := innerKey ++ data in
  let innerHash := sha512 innerData in
  let outerData := outerKey ++ innerHash in
  sha512 outerData.

End Sha512Web.

(** ** The SHA-2 standard (FIPS 180-4) on native words

    Reference definitions following the standard's text: words of [w] bits
    ([w = 64] for SHA-512, [w = 32] for SHA-256), blocks of sixteen words,
    a length field of two words.  They serve as the specification the
    half-word code is compared with, and as the model of the platform's
    [createHash('sha256')]. *)
Module Sha2Spec.

Record params := Params {
  p_w : Z;                    (* word size in bits *)
  p_K : list Z;               (* round constants, one per round *)
  p_H0 : list Z;              (* initial hash value, eight words *)
  p_Sigma0 : Z * Z * Z;       (* rotations of the large sigma functions *)
  p_Sigma1 : Z * Z * Z;
  p_sigma0 : Z * Z * Z;       (* two rotations and one shift *)
  p_sigma1 : Z * Z * Z
}.

Section Generic.
Variable P : params.

Definition wmod (x : Z) : Z := x mod 2 ^ p_w P.
Definition wadd (a b : Z) : Z := wmod (a + b).
Definition rotr (x n : Z) : Z :=
  wmod (Z.lor (Z.shiftr x n) (Z.shiftl x (p_w P - n))).
Definition shr (x n : Z) : Z := Z.shiftr x n.
Definition wnot (x : Z) : Z := 2 ^ p_w P - 1 - x.

Definition Ch (x y z : Z) : Z := Z.lxor (Z.land x y) (Z.land (wnot x) z).
Definition Maj (x y z : Z) : Z :=
  Z.lxor (Z.lxor (Z.land x y) (Z.land x z)) (Z.land y z).
Definition rrr (a : Z * Z * Z) (x : Z) : Z :=
  let '(n1, n2, n3) := a in Z.lxor (Z.lxor (rotr x n1) (rotr x n2)) (rotr x n3).
Definition rrs (a : Z * Z * Z) (x : Z) : Z :=
  let '(n1, n2, n3) := a in Z.lxor (Z.lxor (rotr x n1) (rotr x n2)) (shr x n3).
Definition Sigma0 := rrr (p_Sigma0 P).
Definition Sigma1 := rrr (p_Sigma1 P).
Definition sigma0 := rrs (p_sigma0 P).
Definition sigma1 := rrs (p_sigma1 P).

Definition wbytes : nat := Z.to_nat (p_w P / 8).
Definition block_bytes : nat := (16 * wbytes)%nat.
Definition nrounds : nat := length (p_K P).

(** Big-endian conversions. *)
Definition be_to_Z (bs : list byte) : Z :=
  fold_left (fun acc b => acc * 256 + byte_to_Z b) bs 0.
Definition Z_to_be (n : nat) (z : Z) : list byte :=
  map (fun k => byte_of_Z (z / 256 ^ Z.of_nat (n - 1 - k))) (seq 0 n).

(** Padding: a one bit, zero bits up to the length field, then the
    message length in bits over two words. *)
Definition padding (msg : list byte) : list byte :=
  let l := length msg in
  let bb := block_bytes in
  let zeros := ((bb - (l + 1 + 2 * wbytes) mod bb) mod bb)%nat in
  msg ++ [x80] ++ repeat x00 zeros ++ Z_to_be (2 * wbytes) (Z.of_nat l * 8).

Definition words_of_block (blk : list byte) : list Z :=
  map (fun k => be_to_Z (firstn wbytes (skipn (k * wbytes) blk))) (seq 0 16).

Definition blocks (m : list byte) : list (list byte) :=
  map (fun k => firstn block_bytes (skipn (k * block_bytes) m))
      (seq 0 (length m / block_bytes)).

Definition wnth (l : list Z) (i : nat) : Z := nth i l 0.

(** Message schedule W_0 .. W_{rounds-1}. *)
Definition schedule (M : list Z) : list Z :=
  fold_left (fun W t =>
    W ++ [wadd (wadd (wadd (sigma1 (wnth W (t - 2))) (wnth W (t - 7)))
                     (sigma0 (wnth W (t - 15)))) (wnth W (t - 16))])
    (seq 16 (nrounds - 16)) M.

Definition step (W : list Z) (v : list Z) (t : nat) : list Z :=
  match v with
  | [a; b; c; d; e; f; g; h] =>
      let T1 := wadd (wadd (wadd (wadd h (Sigma1 e)) (Ch e f g)) (wnth (p_K P) t))
                     (wnth W t) in
      let T2 := wadd (Sigma0 a) (Maj a b c) in
      [wadd T1 T2; a; b; c; wadd d T1; e; f; g]
  | _ => v
  end.

Definition compress (H : list Z) (blk : list byte) : list Z :=
  let W := schedule (words_of_block blk) in
  let v := fold_left (step W) (seq 0 nrounds) H in
  map (fun '(x, y) => wadd x y) (combine H v).

Definition digest (msg : list byte) : list byte :=
  let H := fold_left compress (blocks (padding msg)) (p_H0 P) in
  flat_map (Z_to_be wbytes) H.
End Generic.

Definition K512 : list Z := [
  0x428a2f98d728ae22; 0x7137449123ef65cd; 0xb5c0fbcfec4d3b2f; 0xe9b5dba58189dbbc;
  0x3956c25bf348b538; 0x59f111f1b605d019; 0x923f82a4af194f9b; 0xab1c5ed5da6d8118;
  0xd807aa98a3030242; 0x12835b0145706fbe; 0x243185be4ee4b28c; 0x550c7dc3d5ffb4e2;
  0x72be5d74f27b896f; 0x80deb1fe3b1696b1; 0x9bdc06a725c71235; 0xc19bf174cf692694;
  0xe49b69c19ef14ad2; 0xefbe4786384f25e3; 0x0fc19dc68b8cd5b5; 0x240ca1cc77ac9c65;
  0x2de92c6f592b0275; 0x4a7484aa6ea6e483; 0x5cb0a9dcbd41fbd4; 0x76f988da831153b5;
  0x983e5152ee66dfab; 0xa831c66d2db43210; 0xb00327c898fb213f; 0xbf597fc7beef0ee4;
  0xc6e00bf33da88fc2; 0xd5a79147930aa725; 0x06ca6351e003826f; 0x142929670a0e6e70;
  0x27b70a8546d22ffc; 0x2e1b21385c26c926; 0x4d2c6dfc5ac42aed; 0x53380d139d95b3df;
  0x650a73548baf63de; 0x766a0abb3c77b2a8; 0x81c2c92e47edaee6; 0x92722c851482353b;
  0xa2bfe8a14cf10364; 0xa81a664bbc423001; 0xc24b8b70d0f89791; 0xc76c51a30654be30;
  0xd192e819d6ef5218; 0xd69906245565a910; 0xf40e35855771202a; 0x106aa07032bbd1b8;
  0x19a4c116b8d2d0c8; 0x1e376c085141ab53; 0x2748774cdf8eeb99; 0x34b0bcb5e19b48a8;
  0x391c0cb3c5c95a63; 0x4ed8aa4ae3418acb; 0x5b9cca4f7763e373; 0x682e6ff3d6b2b8a3;
  0x748f82ee5defb2fc; 0x78a5636f43172f60; 0x84c87814a1f0ab72; 0x8cc702081a6439ec;
  0x90befffa23631e28; 0xa4506cebde82bde9; 0xbef9a3f7b2c67915; 0xc67178f2e372532b;
  0xca273eceea26619c; 0xd186b8c721c0c207; 0xeada7dd6cde0eb1e; 0xf57d4f7fee6ed178;
  0x06f067aa72176fba; 0x0a637dc5a2c898a6; 0x113f9804bef90dae; 0x1b710b35131c471b;
  0x28db77f523047d84; 0x32caab7b40c72493; 0x3c9ebe0a15c9bebc; 0x431d67c49c100d4c;
  0x4cc5d4becb3e42b6; 0x597f299cfc657e2a; 0x5fcb6fab3ad6faec; 0x6c44198c4a475817
].

Definition P512 : params :=
  Params 64 K512
    [0x6a09e667f3bcc908; 0xbb67ae8584caa73b; 0x3c6ef372fe94f82b; 0xa54ff53a5f1d36f1;
     0x510e527fade682d1; 0x9b05688c2b3e6c1f; 0x1f83d9abfb41bd6b; 0x5be0cd19137e2179]
    (28, 34, 39) (14, 18, 41) (1, 8, 7) (19, 61, 6).

(** The constants of SHA-256 are the leading 32 bits of the same
    fractional parts: the high halves of the first 64 constants, and of the
    initial hash value, of SHA-512. *)
Definition high_half (x : Z) : Z := Z.shiftr x 32.

Definition K256 : list Z := map high_half (firstn 64 K512).

Definition P256 : params :=
  Params 32 K256 (map high_half (p_H0 P512))
    (2, 13, 22) (6, 11, 25) (7, 18, 3) (17, 19, 10).

Definition sha512_spec : list byte -> list byte := digest P512.
Definition sha256_spec : list byte -> list byte := digest P256.

(** HMAC (RFC 2104) over a hash with block size [bs]. *)
Definition xor_byte (c : Z) (b : byte) : byte := byte_of_Z (Z.lxor (byte_to_Z b) c).

Definition hmac_spec (H : list byte -> list byte) (bs : nat) (key data : list byte)
  : list byte :=
  let k0 := if (bs <? length key)%nat then H key else key in
  let k := k0 ++ repeat x00 (bs - length k0) in
  H (map (xor_byte 0x5c) k ++ H (map (xor_byte 0x36) k ++ data)).

Definition hmac_sha512_spec : list byte -> list byte -> list byte :=
  hmac_spec sha512_spec 128.

End Sha2Spec.

(** ** JavaScript strings

    A JS string is its sequence of UTF-16 code units.  Literals of the source
    are ASCII and written [js "..."]. *)
Module JSString.

Definition js (s : string) : list Z :=
  map (fun a => Z.of_N (N_of_ascii a)) (list_ascii_of_string s).

Definition eqb (a b : list Z) : bool := bool_decide (a = b).

Fixpoint starts_with (pat s : list Z) : bool :=
  match pat, s with
  | [], _ => true
  | p :: pat', c :: s' => (p =? c) && starts_with pat' s'
  | _ :: _, [] => false
  end.

(** [s.includes(pat)] *)
Fixpoint includes (s pat : list Z) : bool :=
  starts_with pat s ||
  match s with
  | [] => false
  | _ :: s' => includes s' pat
  end.

(** [s.split(sep)] for a separator of one code unit. *)
Fixpoint split (sep : Z) (s : list Z) : list (list Z) :=
  match s with
  | [] => [[]]
  | c :: s' =>
      if c =? sep then [] :: split sep s'
      else match split sep s' with
           | seg :: segs => (c :: seg) :: segs
           | [] => [[c]]
           end
  end.

(** [arr.pop()!] on a non-empty array of strings. *)
Definition pop (segs : list (list Z)) : list Z := List.last segs [].

(** White space and line terminators removed by [String.prototype.trim]. *)
Definition is_space (c : Z) : bool :=
  existsb (Z.eqb c)
    [0x09; 0x0A; 0x0B; 0x0C; 0x0D; 0x20; 0xA0; 0x1680; 0x2000; 0x2001; 0x2002;
     0x2003; 0x2004; 0x2005; 0x2006; 0x2007; 0x2008; 0x2009; 0x200A; 0x2028;
     0x2029; 0x202F; 0x205F; 0x3000; 0xFEFF].

Fixpoint trim_start (s : list Z) : list Z :=
  match s with
  | c :: s' => if is_space c then trim_start s' else s
  | [] => []
  end.

Definition trim (s : list Z) : list Z := rev (trim_start (rev (trim_start s))).

(** JS truthiness of a nullable string: neither [null] nor empty. *)
Definition truthy (o : option (list Z)) : bool :=
  match o with
  | Some (_ :: _) => true
  | _ => false
  end.

(** [s.substring(0, n)] *)
Definition substring0 (s : list Z) (n : nat) : list Z := firstn n s.

End JSString.

Abbreviation js := JSString.js.
Arguments JSString.js : simpl never.
Abbreviation backslash := 92 (only parsing).

(** ** The LDAP module *)
Module Ldap.

Import JSString.

Record LdapConfig := {
  servers : list (list Z);
  netbios : list Z;
  domain : list Z;
  baseDn : list Z
}.

(** Environment variables read by [getConfig]; [None] is [undefined]. *)
Record LdapEnv := {
  LDAP_SERVERS : option (list Z);
  LDAP_NETBIOS : option (list Z);
  LDAP_DOMAIN : option (list Z);
  LDAP_BASE_DN : option (list Z)
}.

(** [v || dflt] on a possibly undefined string. *)
Definition or_default (v : option (list Z)) (dflt : list Z) : list Z :=
  if truthy v then default [] v else dflt.

Definition getConfig (env : LdapEnv) : LdapConfig :=
  {| servers := map trim (split 44 (or_default (LDAP_SERVERS env)
                                               (js "192.168.1.230,192.168.1.231")));
     netbios := or_default (LDAP_NETBIOS env) (js "GS-AD");
     domain := or_default (LDAP_DOMAIN env) (js "greenshepherd.com.tw");
     baseDn := or_default (LDAP_BASE_DN env) (js "DC=greenshepherd,DC=com,DC=tw") |}.

Definition cleanUsername (username : list Z) : list Z :=
  if includes username [backslash] then pop (split backslash username) else username.

(** An exception value: [err.name] and [err.message]. *)
Record JsError := { err_name : list Z; err_message : list Z }.

(** [err.message || String(err)] *)
Definition error_text (err : JsError) : list Z :=
  match err_message err with
  | [] => err_name err
  | m => m
  end.

(** What the directory does when one [Client] is used: the outcome of
    [client.bind(dn, password)] and of [client.unbind()] after a bind that
    succeeded ([None]: resolves, [Some err]: throws [err]).  The [unbind] of
    the [catch] block has its error ignored and needs no outcome. *)
Record Endpoint := {
  ep_bind : list Z -> list Z -> option JsError;
  ep_unbind : option JsError
}.

(** The directory: the endpoint reached by the [k]-th client of a call,
    connecting to a URL. *)
Definition Directory := nat -> list Z -> Endpoint.

Inductive LogLevel := Log | Warn.
Record LogLine := { level : LogLevel; module_ : list Z; text : list Z }.

(** Observable actions of [authenticate], in program order. *)
Inductive Action :=
| Connect (url : list Z)
| Bind (url dn password : list Z)
| Unbind (url : list Z)
| Emit (l : LogLine).

Record AuthResult := { success : bool; error : option (list Z) }.

(** The [catch] block of the loop body. *)
Definition on_error (name server url : list Z) (err : JsError) : list Action :=
  let msg := error_text err in
  [ Emit (if includes msg (js "connect") || includes msg (js "timeout")
             || includes msg (js "ECONNREFUSED")
          then {| level := Warn; module_ := js "ldap";
                  text := js "Server " ++ server ++ js " unavailable: " ++ msg |}
          else {| level := Log; module_ := js "ldap";
                  text := js "Auth failed for " ++ name ++ js " on " ++ server
                          ++ js ": " ++ msg |});
    Unbind url ].

(** The [for (const server of config.servers)] loop; [k] counts clients. *)
Fixpoint try_servers (dir : Directory) (name bindDn password : list Z)
         (k : nat) (svs : list (list Z)) : AuthResult * list Action :=
  match svs with
  | [] => ({| success := false; error := Some (js "Invalid credentials") |}, [])
  | server :: rest =>
      let url := js "ldap://" ++ server in
      let ep := dir k url in
      match ep_bind ep bindDn password with
      | None =>
          match ep_unbind ep with
          | None =>
              ({| success := true; error := None |},
               [ Connect url; Bind url bindDn password; Unbind url;
                 Emit {| level := Log; module_ := js "ldap";
                         text := js "Auth success: " ++ name ++ js " via " ++ server |} ])
          | Some err =>
              let '(r, tr) := try_servers dir name bindDn password (S k) rest in
              (r, [Connect url; Bind url bindDn password; Unbind url]
                  ++ on_error name server url err ++ tr)
          end
      | Some err =>
          let '(r, tr) := try_servers dir name bindDn password (S k) rest in
          (r, [Connect url; Bind url bindDn password]
              ++ on_error name server url err ++ tr)
      end
  end.

Definition authenticate (env : LdapEnv) (dir : Directory) (username password : list Z)
  : AuthResult * list Action :=
  let config := getConfig env in
  let name := cleanUsername username in
  let bindDn := netbios config ++ [backslash] ++ name in
  try_servers dir name bindDn password 0 (servers config).

End Ldap.

(** ** Text encodings of the platform ([Buffer], [crypto]) *)
Module Encoding.

Definition is_high_surrogate (u : Z) : bool := (0xD800 <=? u) && (u <=? 0xDBFF).
Definition is_low_surrogate (u : Z) : bool := (0xDC00 <=? u) && (u <=? 0xDFFF).

(** UTF-8 bytes of one code point. *)
Definition utf8_of_code_point (c : Z) : list byte :=
  if c <? 0x80 then [byte_of_Z c]
  else if c <? 0x800 then
    [byte_of_Z (0xC0 + c / 64); byte_of_Z (0x80 + c mod 64)]
  else if c <? 0x10000 then
    [byte_of_Z (0xE0 + c / 4096); byte_of_Z (0x80 + (c / 64) mod 64);
     byte_of_Z (0x80 + c mod 64)]
  else
    [byte_of_Z (0xF0 + c / 262144); byte_of_Z (0x80 + (c / 4096) mod 64);
     byte_of_Z (0x80 + (c / 64) mod 64); byte_of_Z (0x80 + c mod 64)].

(** Writing a string as ['utf8']: a surrogate pair is one code point, an
    unpaired surrogate is written as U+FFFD. *)
Fixpoint utf8_encode (s : list Z) : list byte :=
  match s with
  | [] => []
  | u :: rest =>
      if is_high_surrogate u then
        match rest with
        | v :: rest' =>
            if is_low_surrogate v then
              utf8_of_code_point (0x10000 + (u - 0xD800) * 1024 + (v - 0xDC00))
                ++ utf8_encode rest'
            else utf8_of_code_point 0xFFFD ++ utf8_encode rest
        | [] => utf8_of_code_point 0xFFFD
        end
      else if is_low_surrogate u then utf8_of_code_point 0xFFFD ++ utf8_encode rest
      else utf8_of_code_point u ++ utf8_encode rest
  end.

(** UTF-16 code units of one code point. *)
Definition utf16_of_code_point (c : Z) : list Z :=
  if c <? 0x10000 then [c]
  else [0xD800 + (c - 0x10000) / 1024; 0xDC00 + (c - 0x10000) mod 1024].

(** State of the UTF-8 decoder: code point so far, bytes needed, bytes
    seen, and the bounds of the next continuation byte. *)
Record dstate := DState {
  d_cp : Z; d_needed : Z; d_seen : Z; d_lower : Z; d_upper : Z
}.

Definition d_init : dstate := DState 0 0 0 0x80 0xBF.

(** A byte read with no sequence pending. *)
Definition decode_lead (b : Z) : list Z * dstate :=
  if b <=? 0x7F then ([b], d_init)
  else if (0xC2 <=? b) && (b <=? 0xDF) then ([], DState (Z.land b 0x1F) 1 0 0x80 0xBF)
  else if (0xE0 <=? b) && (b <=? 0xEF) then
    ([], DState (Z.land b 0xF) 2 0 (if b =? 0xE0 then 0xA0 else 0x80)
                (if b =? 0xED then 0x9F else 0xBF))
  else if (0xF0 <=? b) && (b <=? 0xF4) then
    ([], DState (Z.land b 0x7) 3 0 (if b =? 0xF0 then 0x90 else 0x80)
                (if b =? 0xF4 then 0x8F else 0xBF))
  else ([0xFFFD], d_init).

Definition decode_byte (st : dstate) (b : Z) : list Z * dstate :=
  if d_needed st =? 0 then decode_lead b
  else if (b <? d_lower st) || (d_upper st <? b) then
    let '(out, st') := decode_lead b in (0xFFFD :: out, st')
  else
    let cp := Z.lor (Z.shiftl (d_cp st) 6) (Z.land b 0x3F) in
    if d_seen st + 1 =? d_needed st then (utf16_of_code_point cp, d_init)
    else ([], DState cp (d_needed st) (d_seen st + 1) 0x80 0xBF).

Fixpoint decode_from (st : dstate) (bs : list byte) : list Z :=
  match bs with
  | [] => if d_needed st =? 0 then [] else [0xFFFD]
  | b :: rest =>
      let '(out, st') := decode_byte st (byte_to_Z b) in
      out ++ decode_from st' rest
  end.

(** [buf.toString('utf8')]: ill-formed input decodes to U+FFFD. *)
Definition utf8_decode (bs : list byte) : list Z := decode_from d_init bs.

(** No unpaired surrogate, every unit on 16 bits. *)
Fixpoint well_formed (s : list Z) : bool :=
  match s with
  | [] => true
  | u :: rest =>
      (0 <=? u) && (u <? 0x10000) &&
      if is_high_surrogate u then
        match rest with
        | v :: rest' => is_low_surrogate v && well_formed rest'
        | [] => false
        end
      else negb (is_low_surrogate u) && well_formed rest
  end.

Definition hex_digit (n : Z) : Z := if n <? 10 then 48 + n else 87 + n.

(** ['hex'] output: two lower-case digits per byte. *)
Definition hex (bs : list byte) : list Z :=
  flat_map (fun b => [hex_digit (byte_to_Z b / 16); hex_digit (byte_to_Z b mod 16)]) bs.

Definition b64url_char (n : Z) : Z :=
  if n <? 26 then 65 + n
  else if n <? 52 then 97 + (n - 26)
  else if n <? 62 then 48 + (n - 52)
  else if n =? 62 then 45 else 95.

(** ['base64url'] output: URL-safe alphabet, no padding. *)
Fixpoint base64url (bs : list byte) : list Z :=
  match bs with
  | [] => []
  | [a] =>
      let a := byte_to_Z a in
      [b64url_char (a / 4); b64url_char ((a mod 4) * 16)]
  | [a; b] =>
      let a := byte_to_Z a in let b := byte_to_Z b in
      [b64url_char (a / 4); b64url_char ((a mod 4) * 16 + b / 16);
       b64url_char ((b mod 16) * 4)]
  | a :: b :: c :: rest =>
      let a := byte_to_Z a in let b := byte_to_Z b in let c := byte_to_Z c in
      [b64url_char (a / 4); b64url_char ((a mod 4) * 16 + b / 16);
       b64url_char ((b mod 16) * 4 + c / 64); b64url_char (c mod 64)]
        ++ base64url rest
  end.

(** [createHash('sha256').update(s).digest()] *)
Definition sha256 (s : list Z) : list byte := Sha2Spec.sha256_spec (utf8_encode s).

End Encoding.

(** ** The authentication routes *)
Module AuthRoutes.

Import JSString Encoding.
Export Ldap.

(** The outcome of a call: a value, or an exception. *)
Inductive Result (A : Type) :=
| Ok (a : A)
| Throw (e : JsError).
Arguments Ok {A} a.
Arguments Throw {A} e.

(** *** Collaborators outside the repository

    [privacy-kit], [tweetnacl], the token issuer, the id generator of the
    ORM and the AES-256-GCM cipher of the platform are taken through this
    interface. *)
Class Platform := {
  decodeBase64 : list Z -> Result (list byte);
  encodeHex : list byte -> list Z;
  createToken : list Z -> option (list Z) -> list Z;
  sign_detached_verify : list byte -> list byte -> list byte -> bool;
  cuid : nat -> list Z;
  JSON_stringify : list (list Z * list Z * bool) -> list Z;
  (* key, iv, plaintext: ciphertext and tag of [cipher.update/final/getAuthTag] *)
  gcm_encrypt : list byte -> list byte -> list byte -> Result (list byte * list byte);
  (* key, iv, tag, ciphertext: plaintext of [decipher.update/final] *)
  gcm_decrypt : list byte -> list byte -> list byte -> list byte -> Result (list byte)
}.

(** [tweetnacl.box.publicKeyLength] *)
Definition box_publicKeyLength : nat := 32.

(** *** The persistent store *)

(** Modelled from the spec: the ORM schema is not among the sources; the
    rows carry the fields of the spec's data model that the handlers read
    and write ([Account]: identifier, public key, update time). *)
Record Account := {
  acc_id : list Z;
  acc_publicKey : list Z;
  acc_updatedAt : Z
}.

(** Modelled from the spec: a pairing request is keyed by the requester's
    public key and carries a capability flag, an optional response and the
    optional account of the approver; both pairing tables have this shape. *)
Record AuthRequest := {
  req_id : list Z;
  req_publicKey : list Z;
  req_supportsV2 : bool;
  req_response : option (list Z);
  req_responseAccountId : option (list Z);
  req_createdAt : Z
}.

(** The two pairing tables: [db.terminalAuthRequest], [db.accountAuthRequest]. *)
Inductive Namespace := Terminal | AccountLevel.

#[export] Instance Namespace_eq_dec : EqDecision Namespace.
Proof. solve_decision. Defined.

Record Db := {
  account : gmap (list Z) Account;                 (* unique key: publicKey *)
  terminalAuthRequest : gmap (list Z) AuthRequest; (* unique key: publicKey *)
  accountAuthRequest : gmap (list Z) AuthRequest;  (* unique key: publicKey *)
  userKVStore : gmap (list Z * list Z) (list byte);(* unique key: accountId, key *)
  created : nat                                    (* rows created so far *)
}.

Definition requests (ns : Namespace) (d : Db) : gmap (list Z) AuthRequest :=
  match ns with
  | Terminal => terminalAuthRequest d
  | AccountLevel => accountAuthRequest d
  end.

Definition set_requests (ns : Namespace) (t : gmap (list Z) AuthRequest) (d : Db) : Db :=
  match ns with
  | Terminal =>
      {| account := account d; terminalAuthRequest := t;
         accountAuthRequest := accountAuthRequest d;
         userKVStore := userKVStore d; created := created d |}
  | AccountLevel =>
      {| account := account d; terminalAuthRequest := terminalAuthRequest d;
         accountAuthRequest := t;
         userKVStore := userKVStore d; created := created d |}
  end.

Definition bump (d : Db) : Db :=
  {| account := account d; terminalAuthRequest := terminalAuthRequest d;
     accountAuthRequest := accountAuthRequest d;
     userKVStore := userKVStore d; created := S (created d) |}.

(** *** Effects of a handler *)

Inductive DbOp :=
| AccountUpsert (publicKey : list Z)
| RequestUpsert (ns : Namespace) (publicKey : list Z)
| RequestFindUnique (ns : Namespace) (publicKey : list Z)
| RequestFindMany (ns : Namespace)
| RequestUpdate (ns : Namespace) (id : list Z)
| KVUpsert (accountId key : list Z)
| KVFindUnique (accountId key : list Z).

Inductive Event :=
| DbCall (op : DbOp)
| Logged (module_ text : list Z)
| LdapAction (a : Ldap.Action).

(** The store and the events of the call so far, oldest first. *)
Record World := { db : Db; events : list Event }.

Definition M (A : Type) : Type := World -> Result A * World.

Definition ret {A} (a : A) : M A := fun w => (Ok a, w).

Definition bind {A B} (m : M A) (k : A -> M B) : M B :=
  fun w => match m w with
           | (Ok a, w') => k a w'
           | (Throw e, w') => (Throw e, w')
           end.

Definition throw {A} (e : JsError) : M A := fun w => (Throw e, w).

(** [try { body } catch (e) { handler }] *)
Definition try_catch {A} (body : M A) (handler : JsError -> M A) : M A :=
  fun w => match body w with
           | (Ok a, w') => (Ok a, w')
           | (Throw e, w') => handler e w'
           end.

Definition emit (e : Event) : M unit :=
  fun w => (Ok tt, {| db := db w; events := events w ++ [e] |}).

Definition emit_all (es : list Event) : M unit :=
  fun w => (Ok tt, {| db := db w; events := events w ++ es |}).

Definition get_db : M Db := fun w => (Ok (db w), w).

Definition put_db (d : Db) : M unit :=
  fun w => (Ok tt, {| db := d; events := events w |}).

(** [log({ module }, text)] *)
Definition log (module_ text : list Z) : M unit := emit (Logged module_ text).

(** A call that returns or throws, without other effects. *)
Definition lift {A} (r : Result A) : M A := fun w => (r, w).

Notation "x <- m ;; k" := (bind m (fun x => k))
  (at level 100, m at next level, right associativity).
Notation "m ;;; k" := (bind m (fun _ => k))
  (at level 100, right associativity).

(** *** Store operations *)

Definition set_account (t : gmap (list Z) Account) (d : Db) : Db :=
  {| account := t; terminalAuthRequest := terminalAuthRequest d;
     accountAuthRequest := accountAuthRequest d;
     userKVStore := userKVStore d; created := created d |}.

Definition set_userKVStore (t : gmap (list Z * list Z) (list byte)) (d : Db) : Db :=
  {| account := account d; terminalAuthRequest := terminalAuthRequest d;
     accountAuthRequest := accountAuthRequest d;
     userKVStore := t; created := created d |}.

Section WithPlatform.
Context {platform : Platform}.

(** [db.account.upsert({ where: { publicKey }, update: { updatedAt },
    create: { publicKey } })] *)
Definition account_upsert (publicKey : list Z) (now : Z) : M Account :=
  emit (DbCall (AccountUpsert publicKey)) ;;;
  d <- get_db ;;
  match account d !! publicKey with
  | Some a =>
      let a' := {| acc_id := acc_id a; acc_publicKey := acc_publicKey a;
                   acc_updatedAt := now |} in
      put_db (set_account (<[publicKey := a']> (account d)) d) ;;;
      ret a'
  | None =>
      let a' := {| acc_id := cuid (created d); acc_publicKey := publicKey;
                   acc_updatedAt := now |} in
      put_db (bump (set_account (<[publicKey := a']> (account d)) d)) ;;;
      ret a'
  end.

(** [db.<table>.upsert({ where: { publicKey }, update: {},
    create: { publicKey, supportsV2 } })] *)
Definition request_upsert (ns : Namespace) (publicKey : list Z) (supportsV2 : bool)
           (now : Z) : M AuthRequest :=
  emit (DbCall (RequestUpsert ns publicKey)) ;;;
  d <- get_db ;;
  match requests ns d !! publicKey with
  | Some r => ret r
  | None =>
      let r := {| req_id := cuid (created d); req_publicKey := publicKey;
                  req_supportsV2 := supportsV2; req_response := None;
                  req_responseAccountId := None; req_createdAt := now |} in
      put_db (bump (set_requests ns (<[publicKey := r]> (requests ns d)) d)) ;;;
      ret r
  end.

(** [db.<table>.findUnique({ where: { publicKey } })] *)
Definition request_findUnique (ns : Namespace) (publicKey : list Z)
  : M (option AuthRequest) :=
  emit (DbCall (RequestFindUnique ns publicKey)) ;;;
  d <- get_db ;;
  ret (requests ns d !! publicKey).

Fixpoint insert_desc (r : AuthRequest) (l : list AuthRequest) : list AuthRequest :=
  match l with
  | [] => [r]
  | x :: l' =>
      if req_createdAt x <=? req_createdAt r then r :: l else x :: insert_desc r l'
  end.

(** [db.<table>.findMany({ take: 5, orderBy: { createdAt: 'desc' } })] *)
Definition request_findMany (ns : Namespace) : M (list AuthRequest) :=
  emit (DbCall (RequestFindMany ns)) ;;;
  d <- get_db ;;
  ret (firstn 5 (foldr insert_desc [] (map snd (map_to_list (requests ns d))))).

Definition answer (response accountId : list Z) (id : list Z) (r : AuthRequest)
  : AuthRequest :=
  if bool_decide (req_id r = id) then
    {| req_id := req_id r; req_publicKey := req_publicKey r;
       req_supportsV2 := req_supportsV2 r; req_response := Some response;
       req_responseAccountId := Some accountId; req_createdAt := req_createdAt r |}
  else r.

(** [db.<table>.update({ where: { id }, data: { response,
    responseAccountId } })]; the ORM throws when no row has the id. *)
Definition request_update (ns : Namespace) (id response accountId : list Z) : M unit :=
  emit (DbCall (RequestUpdate ns id)) ;;;
  d <- get_db ;;
  if bool_decide (map_Exists (fun _ r => req_id r = id) (requests ns d)) then
    put_db (set_requests ns (answer response accountId id <$> requests ns d) d)
  else
    throw {| err_name := js "PrismaClientKnownRequestError";
             err_message := js "Record to update not found." |}.

(** [db.userKVStore.upsert(...)]; [fault] is the error of a store that
    cannot be written. *)
Definition kv_upsert (fault : option JsError) (accountId key : list Z)
           (value : list byte) : M unit :=
  emit (DbCall (KVUpsert accountId key)) ;;;
  match fault with
  | Some e => throw e
  | None =>
      d <- get_db ;;
      put_db (set_userKVStore (<[(accountId, key) := value]> (userKVStore d)) d)
  end.

(** [db.userKVStore.findUnique(...)] *)
Definition kv_findUnique (accountId key : list Z) : M (option (list byte)) :=
  emit (DbCall (KVFindUnique accountId key)) ;;;
  d <- get_db ;;
  ret (userKVStore d !! (accountId, key)).

(** *** NAS credential encryption helpers *)

Definition deriveNasCredKey (masterSecret username : list Z) : list byte :=
  sha256 (js "nas-cred-key:" ++ masterSecret ++ js ":" ++ username).

(** [randomBytes(n)], drawn from the entropy of the call. *)
Definition randomBytes (entropy : nat -> byte) (n : nat) : list byte :=
  map entropy (seq 0 n).

Definition encryptNasPassword (entropy : nat -> byte) (password : list Z)
           (key : list byte) : Result (list byte) :=
  let iv := randomBytes entropy 12 in
  match gcm_encrypt key iv (utf8_encode password) with
  | Ok (encrypted, tag) => Ok (iv ++ tag ++ encrypted)
  | Throw e => Throw e
  end.

Definition decryptNasPassword (data key : list byte) : Result (list Z) :=
  let iv := firstn 12 data in
  let tag := firstn 16 (skipn 12 data) in
  let encrypted := skipn 28 data in
  match gcm_decrypt key iv tag encrypted with
  | Ok plain => Ok (utf8_decode plain)
  | Throw e => Throw e
  end.


(** *** Requests and replies *)

(** What a call finds around it: the process environment, the
    directory, the clock, the entropy source and the health of the
    key-value table. *)
Record Env := {
  ldap_env : LdapEnv;
  directory : Directory;
  HANDY_MASTER_SECRET : option (list Z);
  now : Z;
  entropy : nat -> byte;
  kv_fault : option JsError
}.

(** [`${process.env.HANDY_MASTER_SECRET!}`] *)
Definition master_secret (env : Env) : list Z :=
  default (js "undefined") (HANDY_MASTER_SECRET env).

Inductive Status := not_found | pending | authorized.

Inductive Body :=
| BError (error : list Z)                        (* { error } *)
| BAdLogin (token secret : list Z)               (* { success: true, token, secret } *)
| BNasCredentials (username password : list Z)   (* { username, password } *)
| BToken (token : list Z)                        (* { success: true, token } *)
| BRequested                                     (* { state: 'requested' } *)
| BAuthorized (token response : list Z)          (* { state: 'authorized', token, response } *)
| BStatus (status : Status) (supportsV2 : bool)  (* { status, supportsV2 } *)
| BSuccess.                                      (* { success: true } *)

Record Reply := { code : Z; body : Body }.

(** [reply.send(body)] *)
Definition send (b : Body) : M Reply := ret {| code := 200; body := b |}.

(** [reply.code(c).send(body)] *)
Definition send_code (c : Z) (b : Body) : M Reply := ret {| code := c; body := b |}.

(** [String(n)] for a length. *)
Definition show_nat (n : nat) : list Z := js (NilZero.string_of_uint (Nat.to_uint n)).

(** [await ldapAuthenticate(username, password)] *)
Definition ldapAuthenticate (env : Env) (username password : list Z) : M AuthResult :=
  let '(r, actions) := Ldap.authenticate (ldap_env env) (directory env) username password in
  emit_all (map LdapAction actions) ;;;
  ret r.

(** *** POST /v1/auth/ad *)
Definition post_auth_ad (env : Env) (username password : list Z) : M Reply :=
  let normalizedUsername := cleanUsername username in
  log (js "auth-ad") (js "AD login attempt: " ++ normalizedUsername) ;;;
  result <- ldapAuthenticate env username password ;;
  if negb (success result) then
    send_code 401 (BError (js "Invalid credentials"))
  else
    let masterSecret := master_secret env in
    let publicKeyHash :=
      hex (sha256 (js "ad:" ++ masterSecret ++ js ":" ++ normalizedUsername)) in
    user <- account_upsert publicKeyHash (now env) ;;
    let secretHash :=
      sha256 (js "ad-secret:" ++ masterSecret ++ js ":" ++ normalizedUsername) in
    let secret := base64url secretHash in
    try_catch
      (let nasCredKey := deriveNasCredKey masterSecret normalizedUsername in
       encryptedPassword <- lift (encryptNasPassword (entropy env) password nasCredKey) ;;
       kv_upsert (kv_fault env) (acc_id user) (js "nas-credentials") encryptedPassword ;;;
       log (js "auth-ad") (js "NAS credentials stored for " ++ normalizedUsername))
      (fun e =>
         log (js "auth-ad") (js "Failed to store NAS credentials: " ++ err_message e)) ;;;
    let token := createToken (acc_id user) None in
    log (js "auth-ad")
        (js "AD login success: " ++ normalizedUsername ++ js " " ++ [0x2192]
         ++ js " account " ++ acc_id user) ;;;
    send (BAdLogin token secret).

(** *** GET /v1/auth/ad/nas-credentials (authenticated as [userId]) *)
Definition get_nas_credentials (env : Env) (userId username : list Z) : M Reply :=
  let normalizedUsername := cleanUsername username in
  let masterSecret := master_secret env in
  kv <- kv_findUnique userId (js "nas-credentials") ;;
  match kv with
  | None =>
      send_code 404 (BError (js "No NAS credentials found. Please log in again."))
  | Some value =>
      try_catch
        (let nasCredKey := deriveNasCredKey masterSecret normalizedUsername in
         decryptedPassword <- lift (decryptNasPassword value nasCredKey) ;;
         send (BNasCredentials normalizedUsername decryptedPassword))
        (fun e =>
           log (js "auth-ad")
               (js "Failed to decrypt NAS credentials for " ++ normalizedUsername
                ++ js ": " ++ err_message e) ;;;
           send_code 500 (BError (js "Failed to decrypt credentials")))
  end.

(** *** POST /v1/auth *)
Definition post_auth (env : Env) (publicKey challenge signature : list Z) : M Reply :=
  publicKey <- lift (decodeBase64 publicKey) ;;
  challenge <- lift (decodeBase64 challenge) ;;
  signature <- lift (decodeBase64 signature) ;;
  let isValid := sign_detached_verify challenge signature publicKey in
  if negb isValid then
    send_code 401 (BError (js "Invalid signature"))
  else
    let publicKeyHex := encodeHex publicKey in
    user <- account_upsert publicKeyHex (now env) ;;
    send (BToken (createToken (acc_id user) None)).

(** [answer.response && answer.responseAccountId] *)
Definition answered (r : AuthRequest) : bool :=
  truthy (req_response r) && truthy (req_responseAccountId r).

(** *** POST /v1/auth/request *)
Definition post_auth_request (env : Env) (publicKey : list Z) (supportsV2 : option bool)
  : M Reply :=
  publicKey <- lift (decodeBase64 publicKey) ;;
  let isValid := Nat.eqb box_publicKeyLength (length publicKey) in
  if negb isValid then
    send_code 401 (BError (js "Invalid public key"))
  else
    let publicKeyHex := encodeHex publicKey in
    log (js "auth-request") (js "Terminal auth request - publicKey hex: " ++ publicKeyHex) ;;;
    answer <- request_upsert Terminal publicKeyHex (default false supportsV2) (now env) ;;
    if answered answer then
      let token := createToken (default [] (req_responseAccountId answer))
                               (Some (req_id answer)) in
      send (BAuthorized token (default [] (req_response answer)))
    else
      send BRequested.

(** *** GET /v1/auth/request/status *)
Definition get_auth_request_status (publicKey : list Z) : M Reply :=
  publicKey <- lift (decodeBase64 publicKey) ;;
  let isValid := Nat.eqb box_publicKeyLength (length publicKey) in
  if negb isValid then
    send (BStatus not_found false)
  else
    let publicKeyHex := encodeHex publicKey in
    authRequest <- request_findUnique Terminal publicKeyHex ;;
    match authRequest with
    | None => send (BStatus not_found false)
    | Some authRequest =>
        if answered authRequest then send (BStatus authorized false)
        else send (BStatus pending (req_supportsV2 authRequest))
    end.

(** *** POST /v1/auth/response (authenticated as [userId]) *)
Definition post_auth_response (userId response publicKey : list Z) : M Reply :=
  log (js "auth-response")
      (js "Auth response endpoint hit - user: " ++ userId ++ js ", publicKey: "
       ++ substring0 publicKey 20 ++ js "...") ;;;
  publicKey <- lift (decodeBase64 publicKey) ;;
  let isValid := Nat.eqb box_publicKeyLength (length publicKey) in
  if negb isValid then
    log (js "auth-response")
        (js "Invalid public key length: " ++ show_nat (length publicKey)) ;;;
    send_code 401 (BError (js "Invalid public key"))
  else
    let publicKeyHex := encodeHex publicKey in
    log (js "auth-response")
        (js "Looking for auth request with publicKey hex: " ++ publicKeyHex) ;;;
    authRequest <- request_findUnique Terminal publicKeyHex ;;
    match authRequest with
    | None =>
        log (js "auth-response")
            (js "Auth request not found for publicKey: " ++ publicKeyHex) ;;;
        allRequests <- request_findMany Terminal ;;
        log (js "auth-response")
            (js "Recent auth requests in DB: "
             ++ JSON_stringify
                  (map (fun r => (req_id r,
                                  substring0 (req_publicKey r) 20 ++ js "...",
                                  truthy (req_response r))) allRequests)) ;;;
        send_code 404 (BError (js "Request not found"))
    | Some authRequest =>
        (if negb (truthy (req_response authRequest)) then
           request_update Terminal (req_id authRequest) response userId
         else ret tt) ;;;
        send BSuccess
    end.

(** *** POST /v1/auth/account/request *)
Definition post_auth_account_request (env : Env) (publicKey : list Z) : M Reply :=
  publicKey <- lift (decodeBase64 publicKey) ;;
  let isValid := Nat.eqb box_publicKeyLength (length publicKey) in
  if negb isValid then
    send_code 401 (BError (js "Invalid public key"))
  else
    answer <- request_upsert AccountLevel (encodeHex publicKey) false (now env) ;;
    if answered answer then
      let token := createToken (default [] (req_responseAccountId answer)) None in
      send (BAuthorized token (default [] (req_response answer)))
    else
      send BRequested.

(** *** POST /v1/auth/account/response (authenticated as [userId]) *)
Definition post_auth_account_response (userId response publicKey : list Z) : M Reply :=
  publicKey <- lift (decodeBase64 publicKey) ;;
  let isValid := Nat.eqb box_publicKeyLength (length publicKey) in
  if negb isValid then
    send_code 401 (BError (js "Invalid public key"))
  else
    authRequest <- request_findUnique AccountLevel (encodeHex publicKey) ;;
    match authRequest with
    | None => send_code 404 (BError (js "Request not found"))
    | Some authRequest =>
        (if negb (truthy (req_response authRequest)) then
           request_update AccountLevel (req_id authRequest) response userId
         else ret tt) ;;;
        send BSuccess
    end.

(** *** The registered routes *)

Inductive Call :=
| PostAuthAd (username password : list Z)
| GetNasCredentials (userId username : list Z)
| PostAuth (publicKey challenge signature : list Z)
| PostAuthRequest (publicKey : list Z) (supportsV2 : option bool)
| GetAuthRequestStatus (publicKey : list Z)
| PostAuthResponse (userId response publicKey : list Z)
| PostAuthAccountRequest (publicKey : list Z)
| PostAuthAccountResponse (userId response publicKey : list Z).

Definition authRoutes (env : Env) (c : Call) : M Reply :=
  match c with
  | PostAuthAd username password => post_auth_ad env username password
  | GetNasCredentials userId username => get_nas_credentials env userId username
  | PostAuth publicKey challenge signature => post_auth env publicKey challenge signature
  | PostAuthRequest publicKey supportsV2 => post_auth_request env publicKey supportsV2
  | GetAuthRequestStatus publicKey => get_auth_request_status publicKey
  | PostAuthResponse userId response publicKey =>
      post_auth_response userId response publicKey
  | PostAuthAccountRequest publicKey => post_auth_account_request env publicKey
  | PostAuthAccountResponse userId response publicKey =>
      post_auth_account_response userId response publicKey
  end.

(** The public key a pairing endpoint receives. *)
Definition pairing_key (c : Call) : option (list Z) :=
  match c with
  | PostAuthRequest publicKey _ | GetAuthRequestStatus publicKey
  | PostAuthResponse _ _ publicKey | PostAuthAccountRequest publicKey
  | PostAuthAccountResponse _ _ publicKey => Some publicKey
  | _ => None
  end.

(** The approval endpoint of a namespace. *)
Definition approve (ns : Namespace) (userId response publicKey : list Z) : Call :=
  match ns with
  | Terminal => PostAuthResponse userId response publicKey
  | AccountLevel => PostAuthAccountResponse userId response publicKey
  end.

(** The store operations among the events of a call. *)
Definition db_calls (evs : list Event) : list DbOp :=
  flat_map (fun e => match e with DbCall op => [op] | _ => [] end) evs.

(** The store after a call served on store [d]. *)
Definition served (env : Env) (c : Call) (d : Db) : Db :=
  db (snd (authRoutes env c {| db := d; events := [] |})).

(** The store after a sequence of calls, each in its own surroundings. *)
Definition served_all (calls : list (Env * Call)) (d : Db) : Db :=
  fold_left (fun d '(env, c) => served env c d) calls d.

End WithPlatform.

End AuthRoutes.

(** ** Observations on a call of [authenticate] *)
Module LdapTrace.

Import JSString Ldap.

(** The binds of a trace, in program order: URL, bind identity, password. *)
Fixpoint bind_attempts (tr : list Action) : list (list Z * list Z * list Z) :=
  match tr with
  | [] => []
  | Bind url dn password :: tr' => (url, dn, password) :: bind_attempts tr'
  | _ :: tr' => bind_attempts tr'
  end.

(** The [k]-th client, connected to [server], binds and is released
    without an exception. *)
Definition accepts (dir : Directory) (dn password : list Z) (k : nat) (server : list Z)
  : bool :=
  let ep := dir k (js "ldap://" ++ server) in
  match ep_bind ep dn password, ep_unbind ep with
  | None, None => true
  | _, _ => false
  end.

(** The [k]-th client, connected to [server], binds. *)
Definition binds (dir : Directory) (dn password : list Z) (k : nat) (server : list Z)
  : bool :=
  match ep_bind (dir k (js "ldap://" ++ server)) dn password with
  | None => true
  | Some _ => false
  end.

(** No variable of the LDAP configuration is set. *)
Definition no_env : LdapEnv :=
  {| LDAP_SERVERS := None; LDAP_NETBIOS := None; LDAP_DOMAIN := None;
     LDAP_BASE_DN := None |}.

(** A directory where every bind is accepted and the release that follows
    fails on a closed socket. *)
Definition release_fails : Directory :=
  fun _ _ =>
    {| ep_bind := fun _ _ => None;
       ep_unbind := Some {| err_name := js "Error"; err_message := js "socket closed" |} |}.

End LdapTrace.

(** ** A concrete platform

    One instance of [Platform], on which the handlers are run on concrete
    requests: RFC 4648 base64, lower-case hex, tokens that spell out their
    account and session, and a one-byte stream cipher whose 16-byte tag
    carries checksums of nonce, ciphertext and key. *)
Module TestPlatform.

Import JSString Encoding AuthRoutes.

Definition b64_value (c : Z) : option Z :=
  if (65 <=? c) && (c <=? 90) then Some (c - 65)
  else if (97 <=? c) && (c <=? 122) then Some (c - 71)
  else if (48 <=? c) && (c <=? 57) then Some (c + 4)
  else if c =? 43 then Some 62
  else if c =? 47 then Some 63
  else None.

Definition bad_base64 : JsError :=
  {| err_name := js "Error"; err_message := js "Invalid base64 string" |}.

Fixpoint b64_decode (s : list Z) : Result (list byte) :=
  match s with
  | [] => Ok []
  | a :: b :: c :: d :: rest =>
      match b64_value a, b64_value b with
      | Some a, Some b =>
          let b0 := byte_of_Z (a * 4 + b / 16) in
          if (c =? 61) && (d =? 61) then
            match rest with [] => Ok [b0] | _ => Throw bad_base64 end
          else
            match b64_value c with
            | Some c =>
                let b1 := byte_of_Z ((b mod 16) * 16 + c / 4) in
                if d =? 61 then
                  match rest with [] => Ok [b0; b1] | _ => Throw bad_base64 end
                else
                  match b64_value d, b64_decode rest with
                  | Some d, Ok bs => Ok (b0 :: b1 :: byte_of_Z ((c mod 4) * 64 + d) :: bs)
                  | _, _ => Throw bad_base64
                  end
            | None => Throw bad_base64
            end
      | _, _ => Throw bad_base64
      end
  | _ => Throw bad_base64
  end.

Definition xor_bytes (a b : byte) : byte := byte_of_Z (Z.lxor (byte_to_Z a) (byte_to_Z b)).

(** Exclusive or of all bytes of a sequence. *)
Definition checksum (bs : list byte) : byte := fold_right xor_bytes x00 bs.

Definition tag_of (key iv ct : list byte) : list byte :=
  checksum (iv ++ ct) :: checksum key :: repeat x00 14.

Definition bad_key : JsError :=
  {| err_name := js "RangeError"; err_message := js "Invalid key length" |}.

Definition bad_tag : JsError :=
  {| err_name := js "Error";
     err_message := js "Unsupported state or unable to authenticate data" |}.

Definition byte_list_eqb (a b : list byte) : bool :=
  (length a =? length b)%nat && forallb (fun '(x, y) => Byte.eqb x y) (combine a b).

Definition seal (key iv pt : list byte) : Result (list byte * list byte) :=
  if (length key =? 32)%nat then
    let ct := map (xor_bytes (checksum key)) pt in
    Ok (ct, tag_of key iv ct)
  else Throw bad_key.

Definition open (key iv tag ct : list byte) : Result (list byte) :=
  if (length key =? 32)%nat then
    if byte_list_eqb tag (tag_of key iv ct) then Ok (map (xor_bytes (checksum key)) ct)
    else Throw bad_tag
  else Throw bad_key.

#[export] Instance platform : Platform := {|
  decodeBase64 := b64_decode;
  encodeHex := hex;
  createToken := fun accountId session =>
    js "token:" ++ accountId ++ js "/" ++ default [] session;
  sign_detached_verify := fun msg sig pk => byte_list_eqb sig (pk ++ msg);
  cuid := fun n => repeat 99 (S n);
  JSON_stringify := fun rows => flat_map (fun '(id, pk, has) => id ++ js ";") rows;
  gcm_encrypt := seal;
  gcm_decrypt := open
|}.

(** A directory in which every endpoint accepts every bind. *)
Definition open_directory : Directory :=
  fun _ _ => {| ep_bind := fun _ _ => None; ep_unbind := None |}.


Definition env (dir : Directory) (fault : option JsError) : Env :=
  {| ldap_env := LdapTrace.no_env; directory := dir;
     HANDY_MASTER_SECRET := Some (js "master"); now := 1700000000000;
     entropy := fun _ => x07; kv_fault := fault |}.

Definition empty_db : Db :=
  {| account := ∅; terminalAuthRequest := ∅; accountAuthRequest := ∅;
     userKVStore := ∅; created := 0 |}.

Definition start (d : Db) : World := {| db := d; events := [] |}.

(** Base64 of 31 and of 32 zero bytes. *)
Definition key31 : list Z := js "AAAAAAAAAAAAAAAAAAAAAAAAAAAAAAAAAAAAAAAAAA==".
Definition key32 : list Z := js "AAAAAAAAAAAAAAAAAAAAAAAAAAAAAAAAAAAAAAAAAAA=".

(** Hex of 32 zero bytes: the key of the pairing record of [key32]. *)
Definition hex32 : list Z := hex (repeat x00 32).

(** A store holding one pending terminal request that announced version 2. *)
Definition pending_db : Db :=
  served (env open_directory None) (PostAuthRequest key32 (Some true)) empty_db.

(** The same store once account "acct1" has answered "RESP". *)
Definition authorized_db : Db :=
  served (env open_directory None)
         (PostAuthResponse (js "acct1") (js "RESP") key32) pending_db.

End TestPlatform.

(** ** Well-formed stores

    Row identifiers come from the id generator, one per created row: in a
    store built by the handlers every pairing row carries the identifier of
    an earlier creation, and no two rows of a table share one (the
    identifier is the primary key of the table). *)
Module StoreInvariant.

Import AuthRoutes.

Section WithPlatform.
Context {platform : Platform}.

Definition ids_issued (ns : Namespace) (d : Db) : Prop :=
  forall key r, requests ns d !! key = Some r ->
    exists n, (n < created d)%nat /\ req_id r = cuid n.

Definition ids_unique (ns : Namespace) (d : Db) : Prop :=
  forall k1 k2 r1 r2,
    requests ns d !! k1 = Some r1 -> requests ns d !! k2 = Some r2 ->
    req_id r1 = req_id r2 -> k1 = k2.

Definition db_wf (d : Db) : Prop :=
  forall ns, ids_issued ns d /\ ids_unique ns d.

(** Every request of [d] that carries a response is the same in [d']. *)
Definition keeps_answers (d d' : Db) : Prop :=
  forall ns key r,
    requests ns d !! key = Some r -> JSString.truthy (req_response r) = true ->
    requests ns d' !! key = Some r.

(** [d'] is a well-formed successor of [d]. *)
Definition extends (d d' : Db) : Prop :=
  db_wf d' /\ keeps_answers d d'.

End WithPlatform.

End StoreInvariant.

(** ** The request endpoint of a namespace *)
Module PairingCalls.

Import AuthRoutes.

Definition request_call (ns : Namespace) (publicKey : list Z) (supportsV2 : option bool)
  : Call :=
  match ns with
  | Terminal => PostAuthRequest publicKey supportsV2
  | AccountLevel => PostAuthAccountRequest publicKey
  end.

(** The session a token of the namespace is scoped to: the terminal flow
    passes the identifier of the request, the account flow passes none. *)
Definition token_session (ns : Namespace) (r : AuthRequest) : option (list Z) :=
  match ns with
  | Terminal => Some (req_id r)
  | AccountLevel => None
  end.

(** The reply of the request endpoint for a record. *)
Definition request_reply {platform : Platform} (ns : Namespace) (r : AuthRequest) : Reply :=
  if answered r then
    {| code := 200;
       body := BAuthorized (createToken (default [] (req_responseAccountId r))
                                        (token_session ns r))
                           (default [] (req_response r)) |}
  else {| code := 200; body := BRequested |}.

End PairingCalls.

(** ** Records and requests of the concrete runs *)
Module TestData.

Import AuthRoutes TestPlatform.

(** The record of [key32] while pending, and once "acct1" has answered. *)
Definition pending_row : AuthRequest :=
  {| req_id := [99]; req_publicKey := hex32; req_supportsV2 := true;
     req_response := None; req_responseAccountId := None;
     req_createdAt := 1700000000000 |}.

Definition answered_row : AuthRequest :=
  {| req_id := [99]; req_publicKey := hex32; req_supportsV2 := true;
     req_response := Some (js "RESP"); req_responseAccountId := Some (js "acct1");
     req_createdAt := 1700000000000 |}.

Definition test_env : Env := env open_directory None.

(** Base64 of 32 bytes of value 1: a well-formed key without record. *)
Definition other_key32 : list Z := js "AQEBAQEBAQEBAQEBAQEBAQEBAQEBAQEBAQEBAQEBAQE=".

End TestData.

(** ** What a directory login derives and stores *)
Module AdLogin.

Import JSString Encoding AuthRoutes.

Section WithPlatform.
Context {platform : Platform}.





End WithPlatform.

End AdLogin.

(** ** The contract of the authenticated cipher

    [createCipheriv('aes-256-gcm', ...)] belongs to the platform.  The
    handlers are verified against its contract: with a 32-byte key and a
    12-byte nonce encryption succeeds and yields a 16-byte tag; decryption
    under the same key, nonce and tag returns the plaintext; and a nonce, tag
    or ciphertext with one bit changed is rejected. *)
Module Aead.

Import AuthRoutes.

(** Bit [k] of a byte inverted. *)
Definition flip_bit_in_byte (k : nat) (b : byte) : byte :=
  byte_of_Z (Z.lxor (byte_to_Z b) (2 ^ Z.of_nat k)).

(** Bit [i] of a byte sequence inverted (bit [i mod 8] of byte [i / 8]);
    nothing changes when [i] is out of range. *)
Definition flip_bit (i : nat) (bs : list byte) : list byte :=
  alter (flip_bit_in_byte (i mod 8)) (i / 8)%nat bs.

(** [x'] is [x] with one bit inverted. *)
Definition one_bit_apart (x x' : list byte) : Prop :=
  exists i, (i < 8 * length x)%nat /\ x' = flip_bit i x.

Class Laws (platform : Platform) : Prop := {
  encrypt_ok : forall key iv pt,
    length key = 32%nat -> length iv = 12%nat ->
    exists ct tag, gcm_encrypt key iv pt = Ok (ct, tag);
  tag_length : forall key iv pt ct tag,
    gcm_encrypt key iv pt = Ok (ct, tag) -> length tag = 16%nat;
  decrypt_encrypt : forall key iv pt ct tag,
    gcm_encrypt key iv pt = Ok (ct, tag) -> gcm_decrypt key iv tag ct = Ok pt
}.

Class Detects (platform : Platform) : Prop := {
  detects : forall key iv pt ct tag iv' tag' ct',
    gcm_encrypt key iv pt = Ok (ct, tag) ->
    (one_bit_apart iv iv' /\ tag' = tag /\ ct' = ct) \/
    (iv' = iv /\ one_bit_apart tag tag' /\ ct' = ct) \/
    (iv' = iv /\ tag' = tag /\ one_bit_apart ct ct') ->
    exists e, gcm_decrypt key iv' tag' ct' = Throw e
}.

End Aead.

(** ** A sealed password of the concrete runs *)
Module TestVault.

Import AuthRoutes TestPlatform.

Definition test_key : list byte := deriveNasCredKey (js "master") (js "alice").

(** The blob sealed for alice's password "pw" with the entropy of [env]. *)
Definition test_blob : list byte :=
  match encryptNasPassword (fun _ => x07) (js "pw") test_key with
  | Ok blob => blob
  | Throw _ => []
  end.

(** A store where account "c" holds [test_blob] with bit 100 inverted. *)
Definition tampered_db : Db :=
  set_userKVStore {[ ([99], js "nas-credentials") := Aead.flip_bit 100 test_blob ]} empty_db.

End TestVault.

(** ** More observations on a call of [authenticate] *)
Module LdapClients.

Import JSString Ldap.



(** The lines logged at a level, in program order. *)
Definition logged (lv : LogLevel) (tr : list Action) : list (list Z) :=
  flat_map (fun a => match a with
                     | Emit l => match level l, lv with
                                 | Log, Log | Warn, Warn => [text l]
                                 | _, _ => []
                                 end
                     | _ => []
                     end) tr.

(** The bind identity of a call. *)
Definition bind_identity (env : LdapEnv) (username : list Z) : list Z :=
  netbios (getConfig env) ++ [backslash] ++ cleanUsername username.

(** The message of an error names a connection problem. *)
Definition is_connection_error (err : JsError) : bool :=
  includes (error_text err) (js "connect") || includes (error_text err) (js "timeout")
  || includes (error_text err) (js "ECONNREFUSED").

(** A directory whose first endpoint refuses the connection and whose other
    endpoints accept. *)
Definition first_down : Directory :=
  fun k _ =>
    match k with
    | O => {| ep_bind := fun _ _ =>
                Some {| err_name := js "Error";
                        err_message := js "connect ECONNREFUSED 192.168.1.230:389" |};
              ep_unbind := None |}
    | S _ => {| ep_bind := fun _ _ => None; ep_unbind := None |}
    end.

(** The first and the last code unit of a string. *)
Definition first_unit (s : list Z) : option Z := head s.
Definition last_unit (s : list Z) : option Z := head (rev s).

End LdapClients.

(** ** 64-bit words as pairs of halves *)
Module Word64.

(** The 64-bit number held by a high and a low half, each read as an
    unsigned 32-bit number. *)
Definition value (h l : Z) : Z := JS.to_uint32 h * 2 ^ 32 + JS.to_uint32 l.

(** The rotation and the shift of the standard on 64-bit words. *)
Definition rotr (x n : Z) : Z := Sha2Spec.rotr Sha2Spec.P512 x n.
Definition shr (x n : Z) : Z := Sha2Spec.shr x n.

(** The word held by a returned pair, and the pairs of unsigned halves. *)
Definition of_pair (p : Z * Z) : Z := value (fst p) (snd p).
Definition halves (p : Z * Z) : Prop :=
  (0 <= fst p < 2 ^ 32) /\ (0 <= snd p < 2 ^ 32).

End Word64.

(** ** A signed challenge for the concrete platform *)
Module TestSignature.

Import JSString AuthRoutes TestPlatform.

(** Base64 of 64 zero bytes: under the concrete verifier, the signature of
    the challenge [key32] by the key [key32]. *)
Definition sig64 : list Z :=
  js "AAAAAAAAAAAAAAAAAAAAAAAAAAAAAAAAAAAAAAAAAAAAAAAAAAAAAAAAAAAAAAAAAAAAAAAAAAAAAAAAAAAAAA==".

(** Base64 of 64 bytes of value 1: not a signature of that challenge. *)
Definition bad_sig64 : list Z :=
  js "AQEBAQEBAQEBAQEBAQEBAQEBAQEBAQEBAQEBAQEBAQEBAQEBAQEBAQEBAQEBAQEBAQEBAQEBAQEBAQEBAQEBAQ==".

End TestSignature.

(** * Properties *)

(** ** The pure-JS SHA-512 against the standard *)

Section Sha512.

Import Sha512Web.

(** The digest of the code always has 64 bytes. *)
Lemma sha512_length (data : list byte) : length (sha512 data) = 64%nat.
Proof.
  unfold sha512.
  destruct (fold_left _ _ _) as [h w].
  reflexivity.
Qed.

(** [add64] is the 64-bit sum when the low half of its first operand is an
    unsigned 32-bit number. *)
Lemma add64_unsigned (ah al bh bl : Z) :
  0 <= al < 2 ^ 32 ->
  let '(hi, lo) := add64 ah al bh bl in
  hi * 2 ^ 32 + lo
  = ((ah mod 2 ^ 32) * 2 ^ 32 + al + (bh mod 2 ^ 32) * 2 ^ 32 + bl mod 2 ^ 32) mod 2 ^ 64.
Proof.
  intros Hal. unfold add64, JS.ushr, JS.to_uint32, JS.two32.
  change (Z.land 0 31) with 0. rewrite !Z.shiftr_0_r.
  change (2 ^ 32) with 4294967296 in *. change (2 ^ 64) with (4294967296 * 4294967296).
  pose proof (Z.mod_pos_bound bl 4294967296 eq_refl) as Hbl.
  pose proof (Z.mod_pos_bound ah 4294967296 eq_refl) as Hah.
  pose proof (Z.mod_pos_bound bh 4294967296 eq_refl) as Hbh.
  set (b := bl mod 4294967296) in *.
  assert (Hlo : (al + bl) mod 4294967296 = (al + b) mod 4294967296).
  { unfold b. rewrite Z.add_mod_idemp_r by lia. reflexivity. }
  rewrite Hlo.
  assert (Hhi : forall c, (ah + bh + c) mod 4294967296
                          = (ah mod 4294967296 + bh mod 4294967296 + c) mod 4294967296).
  { intros c.
    pose proof (Z.div_mod ah 4294967296 ltac:(lia)) as Ea.
    pose proof (Z.div_mod bh 4294967296 ltac:(lia)) as Eb.
    replace (ah + bh + c)
      with (ah mod 4294967296 + bh mod 4294967296 + c
            + (ah / 4294967296 + bh / 4294967296) * 4294967296) by lia.
    apply Z.mod_add. lia. }
  rewrite Hhi.
  set (a := ah mod 4294967296) in *. set (c := bh mod 4294967296) in *.
  destruct (Z_lt_dec (al + b) 4294967296) as [Hs | Hs].
  - rewrite (Z.mod_small (al + b)) by lia.
    destruct (Z.ltb_spec (al + b) al); [lia |].
    destruct (Z_lt_dec (a + c) 4294967296) as [Hs' | Hs'].
    + rewrite (Z.mod_small (a + c + 0)) by lia. rewrite Z.mod_small by nia. lia.
    + replace ((a + c + 0) mod 4294967296) with (a + c - 4294967296).
      2:{ apply Z.mod_unique with 1; lia. }
      apply Z.mod_unique with 1; nia.
  - replace ((al + b) mod 4294967296) with (al + b - 4294967296).
    2:{ apply Z.mod_unique with 1; lia. }
    destruct (Z.ltb_spec (al + b - 4294967296) al); [| lia].
    destruct (Z_lt_dec (a + c + 1) 4294967296) as [Hs' | Hs'].
    + rewrite (Z.mod_small (a + c + 1)) by lia. rewrite Z.mod_small by nia. lia.
    + replace ((a + c + 1) mod 4294967296) with (a + c + 1 - 4294967296).
      2:{ apply Z.mod_unique with 1; lia. }
      apply Z.mod_unique with 1; nia.
Qed.

(** A low half read back from the [Int32Array] is signed; when it is
    negative the comparison [lo < al] never sees the carry:
    0x00000000ffffffff + 1 comes out as 0 instead of 0x0000000100000000. *)
Lemma add64_signed_low_half_drops_carry :
  get (set_i32 [0] 0 0xffffffff) 0 = -1 /\
  add64 0 (-1) 0 1 = (0, 0) /\
  add64 0 0xffffffff 0 1 = (1, 0).
Proof. repeat apply conj; vm_compute; reflexivity. Qed.

(** C1 (evaluation of the code at the empty input, at "abc" and at the
    first HMAC-SHA512 vector of RFC 4231).  SHA-512 of the empty message is
    cf83e135...; the code, whose message schedule lives in an [Int32Array],
    returns 3dd31224...  The same holds for "abc" and for
    HMAC-SHA512(0x0b * 20, "Hi There"): on each input the reference
    definition yields the published digest and the code another one. *)
Theorem sha512_web_differs_from_standard :
  (Encoding.hex (Sha2Spec.sha512_spec []) =
     js "cf83e1357eefb8bdf1542850d66d8007d620e4050b5715dc83f4a921d36ce9ce47d0d13c5d85f2b0ff8318d2877eec2f63b931bd47417a81a538327af927da3e"
   /\ Encoding.hex (sha512 []) =
     js "3dd31224f48c1fca08c13f4cf1d12022a03484f86929366c3895be89cd40c33ddea564cc5df7eb6365d7d19e98ab03c46e2b6095c7aa8af1043ef9703803483f"
   /\ sha512 [] <> Sha2Spec.sha512_spec [])
  /\
  (Encoding.hex (Sha2Spec.sha512_spec [x61; x62; x63]) =
     js "ddaf35a193617abacc417349ae20413112e6fa4e89a97ea20a9eeee64b55d39a2192992a274fc1a836ba3c23a3feebbd454d4423643ce80e2a9ac94fa54ca49f"
   /\ Encoding.hex (sha512 [x61; x62; x63]) =
     js "0b91d03be819d37f256aed8dafbfc6f06888318c9abb7413d040e956ccab3f36ad73d3652da54414161953e5ff86a5d9455fb34e2ad0c6b17bb723d64a8cb71a")
  /\
  (Encoding.hex (Sha2Spec.hmac_sha512_spec (repeat x0b 20)
                   [x48; x69; x20; x54; x68; x65; x72; x65]) =
     js "87aa7cdea5ef619d4ff0b4241a1d6cb02379f4e2ce4ec2787ad0b30545e17cdedaa833b7d6b8a702038b274eaea3f4e4be9d914eeb61f1702e696c203a126854"
   /\ Encoding.hex (hmac_sha512 (repeat x0b 20)
                      [x48; x69; x20; x54; x68; x65; x72; x65]) =
     js "eac281a18ae4e82ff07f31820de759f23c611d9c616bc7930edcd782db8c3bf1abb4e6e97a8e8eb02e0a9b5be4ccc013b15ca6d2ca4a4cdf7683190e2d1f9028").
Proof.
  repeat apply conj; try (vm_compute; reflexivity).
  intros H. apply (f_equal Encoding.hex) in H. vm_compute in H. discriminate H.
Qed.

End Sha512.

(** ** User names *)

Section Usernames.

Import JSString Ldap.

Lemma includes_unit (s : list Z) (c : Z) :
  includes s [c] = existsb (Z.eqb c) s.
Proof.
  induction s as [| x s IH]; simpl; [reflexivity |].
  rewrite IH, andb_true_r. reflexivity.
Qed.

Lemma split_not_nil (sep : Z) (s : list Z) : split sep s <> [].
Proof.
  destruct s as [| c s]; simpl; [discriminate |].
  destruct (c =? sep); [discriminate |].
  destruct (split sep s); discriminate.
Qed.

Lemma split_without_sep (sep : Z) (s : list Z) :
  existsb (Z.eqb sep) s = false -> split sep s = [s].
Proof.
  induction s as [| c s IH]; simpl; intros H; [reflexivity |].
  apply orb_false_elim in H as [Hc Hs].
  rewrite Z.eqb_sym, Hc, (IH Hs). reflexivity.
Qed.

(** Splitting at a separator: the segments after the separator are the
    segments of what follows it. *)
Lemma split_app_sep (sep : Z) (p n : list Z) :
  exists segs, segs <> [] /\ split sep (p ++ sep :: n) = segs ++ split sep n.
Proof.
  induction p as [| c p (segs & Hne & IH)]; simpl.
  - exists [[]]. rewrite Z.eqb_refl. split; [discriminate | reflexivity].
  - rewrite IH. destruct (c =? sep).
    + exists ([] :: segs). split; [discriminate | reflexivity].
    + destruct segs as [| s0 segs]; [contradiction |].
      exists ((c :: s0) :: segs). split; [discriminate | reflexivity].
Qed.

Lemma last_app_not_nil {A} (l l' : list A) (d : A) :
  l' <> [] -> List.last (l ++ l') d = List.last l' d.
Proof.
  intros Hne. induction l as [| x l IH]; simpl; [reflexivity |].
  destruct (l ++ l') eqn:E; [| exact IH].
  apply app_eq_nil in E as [_ E]. contradiction.
Qed.

(** [cleanUsername] keeps what follows the last backslash. *)
Lemma cleanUsername_strips (prefix name : list Z) :
  includes name [backslash] = false ->
  cleanUsername (prefix ++ [backslash] ++ name) = name.
Proof.
  intros Hn. rewrite includes_unit in Hn. unfold cleanUsername.
  rewrite includes_unit, existsb_app. simpl. rewrite orb_true_r.
  destruct (split_app_sep backslash prefix name) as (segs & Hne & E).
  unfold pop. rewrite E, (split_without_sep _ _ Hn).
  apply last_app_not_nil. discriminate.
Qed.

Lemma cleanUsername_bare (name : list Z) :
  includes name [backslash] = false -> cleanUsername name = name.
Proof. unfold cleanUsername. intros ->. reflexivity. Qed.

(** The result never contains a backslash, so cleaning twice changes nothing. *)
Lemma split_segments_clean (sep : Z) (s seg : list Z) :
  In seg (split sep s) -> existsb (Z.eqb sep) seg = false.
Proof.
  revert seg. induction s as [| c s IH]; simpl; intros seg Hin.
  - destruct Hin as [<- | []]. reflexivity.
  - destruct (Z.eqb_spec c sep) as [-> | Hc].
    + destruct Hin as [<- | Hin]; [reflexivity | auto].
    + destruct (split sep s) as [| s0 segs] eqn:E.
      * destruct Hin as [<- | []]. simpl.
        destruct (Z.eqb_spec sep c); [congruence | reflexivity].
      * destruct Hin as [<- | Hin].
        -- simpl. destruct (Z.eqb_spec sep c); [congruence |].
           apply IH. left. reflexivity.
        -- apply IH. right. exact Hin.
Qed.

Lemma cleanUsername_no_backslash (username : list Z) :
  includes (cleanUsername username) [backslash] = false.
Proof.
  unfold cleanUsername. destruct (includes username [backslash]) eqn:E; [| exact E].
  rewrite includes_unit. apply split_segments_clean with (s := username).
  unfold pop. destruct (split backslash username) as [| s0 segs] eqn:Es.
  - exfalso. exact (split_not_nil _ _ Es).
  - rewrite <- Es. rewrite Es. clear. revert s0.
    induction segs as [| s1 segs IH]; intros s0; [left; reflexivity |].
    right. apply (IH s1).
Qed.

Lemma cleanUsername_idempotent (username : list Z) :
  cleanUsername (cleanUsername username) = cleanUsername username.
Proof. apply cleanUsername_bare, cleanUsername_no_backslash. Qed.

End Usernames.

(** ** The directory authenticator *)

Section Authenticate.

Import JSString Ldap LdapTrace.

Variables (dir : Directory) (name bindDn password : list Z).


Lemma bind_attempts_on_error (server url : list Z) (err : JsError) :
  bind_attempts (on_error name server url err) = [].
Proof. reflexivity. Qed.

(** Endpoints are tried in the order of the list, each with the same bind
    identity and password, and none after the first that accepts. *)
Lemma try_servers_order (k : nat) (svs : list (list Z)) :
  exists n,
    (n <= length svs)%nat /\
    bind_attempts (snd (try_servers dir name bindDn password k svs))
    = map (fun server => (js "ldap://" ++ server, bindDn, password)) (firstn n svs) /\
    (success (fst (try_servers dir name bindDn password k svs)) = false ->
     n = length svs).
Proof.
  revert k. induction svs as [| server rest IH]; intros k; simpl.
  - exists 0%nat. repeat split; reflexivity || lia.
  - destruct (IH (S k)) as (n & Hn & Hb & Hf).
    destruct (ep_bind _ bindDn password) as [err |].
    + destruct (try_servers dir name bindDn password (S k) rest) as [r tr].
      exists (S n). simpl in *. rewrite Hb. repeat split; auto; lia.
    + destruct (ep_unbind _) as [err |].
      * destruct (try_servers dir name bindDn password (S k) rest) as [r tr].
        exists (S n). simpl in *. rewrite Hb. repeat split; auto; lia.
      * exists 1%nat. simpl. repeat split; [lia | discriminate].
Qed.


(** The call succeeds exactly when some endpoint accepts the bind and its
    release. *)
Lemma try_servers_success (k : nat) (svs : list (list Z)) :
  success (fst (try_servers dir name bindDn password k svs)) = true <->
  exists i server,
    svs !! i = Some server /\ accepts dir bindDn password (k + i) server = true.
Proof.
  revert k. induction svs as [| server rest IH]; intros k.
  - simpl. split; [discriminate | intros (i & s & H & _); destruct i; discriminate].
  - assert (Hshift : (exists i s, rest !! i = Some s
                        /\ accepts dir bindDn password (S k + i) s = true)
                     -> exists i s, (server :: rest) !! i = Some s
                        /\ accepts dir bindDn password (k + i) s = true).
    { intros (i & s & Hi & Ha). exists (S i), s. split; [exact Hi |].
      replace (k + S i)%nat with (S k + i)%nat by lia. exact Ha. }
    assert (Hunshift : accepts dir bindDn password k server = false ->
              (exists i s, (server :: rest) !! i = Some s
                 /\ accepts dir bindDn password (k + i) s = true)
              -> exists i s, rest !! i = Some s
                 /\ accepts dir bindDn password (S k + i) s = true).
    { intros Hno (i & s & Hi & Ha). destruct i as [| i].
      - simpl in Hi. injection Hi as <-. rewrite Nat.add_0_r in Ha. congruence.
      - exists i, s. split; [exact Hi |].
        replace (S k + i)%nat with (k + S i)%nat by lia. exact Ha. }
    specialize (IH (S k)).
    cbn [try_servers].
    destruct (ep_bind (dir k (js "ldap://" ++ server)) bindDn password) as [err |] eqn:Eb.
    + assert (Hno : accepts dir bindDn password k server = false)
        by (unfold accepts; rewrite Eb; reflexivity).
      destruct (try_servers dir name bindDn password (S k) rest) as [r tr].
      cbn [fst] in *. rewrite IH. split; [exact Hshift | exact (Hunshift Hno)].
    + destruct (ep_unbind (dir k (js "ldap://" ++ server))) as [err |] eqn:Eu.
      * assert (Hno : accepts dir bindDn password k server = false)
          by (unfold accepts; rewrite Eb, Eu; reflexivity).
        destruct (try_servers dir name bindDn password (S k) rest) as [r tr].
        cbn [fst] in *. rewrite IH. split; [exact Hshift | exact (Hunshift Hno)].
      * cbn [fst success]. split; [intros _ | reflexivity].
        exists 0%nat, server. split; [reflexivity |].
        unfold accepts. rewrite Nat.add_0_r, Eb, Eu. reflexivity.
Qed.

End Authenticate.

(** The bind identity is the configured short name, a backslash and the
    stripped user name, whatever prefix the client sent. *)
Lemma authenticate_bind_identity (env : Ldap.LdapEnv) (dir : Ldap.Directory)
      (username password : list Z) :
  Forall (fun a => snd (fst a)
                   = Ldap.netbios (Ldap.getConfig env) ++ [backslash]
                     ++ Ldap.cleanUsername username)
         (LdapTrace.bind_attempts (snd (Ldap.authenticate env dir username password))).
Proof.
  unfold Ldap.authenticate.
  destruct (try_servers_order dir (Ldap.cleanUsername username)
              (Ldap.netbios (Ldap.getConfig env) ++ [backslash] ++ Ldap.cleanUsername username)
              password 0 (Ldap.servers (Ldap.getConfig env))) as (n & _ & -> & _).
  apply List.Forall_forall. intros a Ha. apply in_map_iff in Ha as (s & <- & _). reflexivity.
Qed.

(** C8 (evaluation of the code where the claim fails).  With the default
    configuration and a directory that accepts every bind but whose release
    after the bind throws, [authenticate] binds on both configured servers
    in order, as GS-AD\alice, both binds succeed, and the call still reports
    failure with "Invalid credentials": an exception of [client.unbind()] in
    the [try] block is handled as a failed bind. *)
Theorem authenticate_release_error_is_reported_as_bad_credentials :
  let out := Ldap.authenticate LdapTrace.no_env LdapTrace.release_fails
               (js "GS-AD\alice") (js "secret") in
  LdapTrace.bind_attempts (snd out)
  = [ (js "ldap://192.168.1.230", js "GS-AD\alice", js "secret");
      (js "ldap://192.168.1.231", js "GS-AD\alice", js "secret") ]
  /\ LdapTrace.binds LdapTrace.release_fails (js "GS-AD\alice") (js "secret") 0
       (js "192.168.1.230") = true
  /\ fst out = {| Ldap.success := false; Ldap.error := Some (js "Invalid credentials") |}.
Proof. repeat apply conj; vm_compute; reflexivity. Qed.

(** ** The pairing endpoints *)

Ltac run_handler :=
  unfold AuthRoutes.bind, AuthRoutes.ret, AuthRoutes.lift, AuthRoutes.emit,
    AuthRoutes.emit_all, AuthRoutes.log, AuthRoutes.get_db, AuthRoutes.put_db,
    AuthRoutes.send, AuthRoutes.send_code, AuthRoutes.throw, AuthRoutes.try_catch;
  cbn [fst snd AuthRoutes.db AuthRoutes.events].

Section Pairing.

Import JSString AuthRoutes.
Context {platform : Platform}.

(** C10: [GET /v1/auth/request/status] answers 200 with a status and a
    flag; the flag is the stored [supportsV2] only when the status is
    [pending], and [false] when the status is [authorized] or [not_found],
    whatever the record holds. *)
Theorem status_reports_supportsV2_only_while_pending
        (publicKey : list Z) (w w' : World) (reply : Reply) :
  get_auth_request_status publicKey w = (Ok reply, w') ->
  exists st flag,
    reply = {| code := 200; body := BStatus st flag |} /\
    (st <> pending -> flag = false) /\
    (st = authorized ->
     exists bytes r, decodeBase64 publicKey = Ok bytes /\
       terminalAuthRequest (db w) !! encodeHex bytes = Some r /\ answered r = true) /\
    (st = pending ->
     exists bytes r, decodeBase64 publicKey = Ok bytes /\
       terminalAuthRequest (db w) !! encodeHex bytes = Some r /\ answered r = false /\
       flag = req_supportsV2 r).
Proof.
  unfold get_auth_request_status, request_findUnique. run_handler.
  destruct (decodeBase64 publicKey) as [bytes | e]; [| discriminate].
  destruct (Nat.eqb box_publicKeyLength (length bytes)); cbn [negb].
  - cbn [requests].
    destruct (terminalAuthRequest (db w) !! encodeHex bytes) as [r |] eqn:Er.
    + destruct (answered r) eqn:Ea; intros [= <- <-].
      * exists authorized, false. repeat split; try discriminate. eauto.
      * exists pending, (req_supportsV2 r). repeat split; try discriminate.
        -- intros H. contradiction.
        -- eauto 8.
    + intros [= <- <-]. exists not_found, false. repeat split; discriminate.
  - intros [= <- <-]. exists not_found, false. repeat split; discriminate.
Qed.

(** A key of the wrong length stops the request endpoints before the store. *)
Lemma post_auth_request_bad_key (env : Env) (publicKey : list Z) (v2 : option bool)
      (bytes : list byte) (w : World) :
  decodeBase64 publicKey = Ok bytes -> length bytes <> box_publicKeyLength ->
  post_auth_request env publicKey v2 w
  = (Ok {| code := 401; body := BError (js "Invalid public key") |}, w).
Proof.
  intros Hd Hl. unfold post_auth_request. run_handler. rewrite Hd.
  destruct (Nat.eqb_spec box_publicKeyLength (length bytes)); [congruence | reflexivity].
Qed.

Lemma post_auth_account_request_bad_key (env : Env) (publicKey : list Z)
      (bytes : list byte) (w : World) :
  decodeBase64 publicKey = Ok bytes -> length bytes <> box_publicKeyLength ->
  post_auth_account_request env publicKey w
  = (Ok {| code := 401; body := BError (js "Invalid public key") |}, w).
Proof.
  intros Hd Hl. unfold post_auth_account_request. run_handler. rewrite Hd.
  destruct (Nat.eqb_spec box_publicKeyLength (length bytes)); [congruence | reflexivity].
Qed.

Lemma post_auth_account_response_bad_key (userId response publicKey : list Z)
      (bytes : list byte) (w : World) :
  decodeBase64 publicKey = Ok bytes -> length bytes <> box_publicKeyLength ->
  post_auth_account_response userId response publicKey w
  = (Ok {| code := 401; body := BError (js "Invalid public key") |}, w).
Proof.
  intros Hd Hl. unfold post_auth_account_response. run_handler. rewrite Hd.
  destruct (Nat.eqb_spec box_publicKeyLength (length bytes)); [congruence | reflexivity].
Qed.

(** The terminal approval endpoint logs twice on the way, and no more. *)
Lemma post_auth_response_bad_key (userId response publicKey : list Z)
      (bytes : list byte) (w : World) :
  decodeBase64 publicKey = Ok bytes -> length bytes <> box_publicKeyLength ->
  exists line1 line2,
    post_auth_response userId response publicKey w
    = (Ok {| code := 401; body := BError (js "Invalid public key") |},
       {| db := db w;
          events := (events w ++ [Logged (js "auth-response") line1])
                    ++ [Logged (js "auth-response") line2] |}).
Proof.
  intros Hd Hl. unfold post_auth_response. run_handler. rewrite Hd.
  destruct (Nat.eqb_spec box_publicKeyLength (length bytes)); [congruence |].
  cbn [negb]. eauto.
Qed.

(** The status endpoint answers 200 [not_found] instead. *)
Lemma get_auth_request_status_bad_key (publicKey : list Z) (bytes : list byte)
      (w : World) :
  decodeBase64 publicKey = Ok bytes -> length bytes <> box_publicKeyLength ->
  get_auth_request_status publicKey w
  = (Ok {| code := 200; body := BStatus not_found false |}, w).
Proof.
  intros Hd Hl. unfold get_auth_request_status. run_handler. rewrite Hd.
  destruct (Nat.eqb_spec box_publicKeyLength (length bytes)); [congruence | reflexivity].
Qed.

Lemma db_calls_app (e1 e2 : list Event) :
  db_calls (e1 ++ e2) = db_calls e1 ++ db_calls e2.
Proof. unfold db_calls. apply flat_map_app. Qed.

(** C4 (amended): on every pairing endpoint of both namespaces a public
    key whose decoded length is not the key-exchange key length is turned
    away before the store is read or written: the store is unchanged and
    the call performs no store operation.  The request and response
    endpoints answer 401 "Invalid public key"; the status endpoint answers
    200 with status [not_found] and [supportsV2 = false]. *)
Theorem malformed_key_rejected_before_store
        (env : Env) (c : Call) (publicKey : list Z) (bytes : list byte) (w : World) :
  pairing_key c = Some publicKey ->
  decodeBase64 publicKey = Ok bytes ->
  length bytes <> box_publicKeyLength ->
  exists reply w',
    authRoutes env c w = (Ok reply, w') /\
    db w' = db w /\
    db_calls (events w') = db_calls (events w) /\
    reply = match c with
            | GetAuthRequestStatus _ => {| code := 200; body := BStatus not_found false |}
            | _ => {| code := 401; body := BError (js "Invalid public key") |}
            end.
Proof.
  intros Hk Hd Hl.
  destruct c; try discriminate Hk; injection Hk as ->; cbn [authRoutes].
  - rewrite (post_auth_request_bad_key _ _ _ _ _ Hd Hl). eauto 6.
  - rewrite (get_auth_request_status_bad_key _ _ _ Hd Hl). eauto 6.
  - destruct (post_auth_response_bad_key userId response _ _ w Hd Hl) as (l1 & l2 & ->).
    do 2 eexists. split; [reflexivity |]. cbn [db events].
    rewrite !db_calls_app. cbn. rewrite !app_nil_r. auto.
  - rewrite (post_auth_account_request_bad_key _ _ _ _ Hd Hl). eauto 6.
  - rewrite (post_auth_account_response_bad_key _ _ _ _ _ Hd Hl). eauto 6.
Qed.

End Pairing.

(** C10, at a record that is authorized and stores [supportsV2 = true]. *)
Lemma status_reports_supportsV2_only_while_pending_witness :
  let w := TestPlatform.start TestPlatform.authorized_db in
  let reply := {| AuthRoutes.code := 200;
                  AuthRoutes.body := AuthRoutes.BStatus AuthRoutes.authorized false |} in
  (AuthRoutes.get_auth_request_status (platform := TestPlatform.platform)
     TestPlatform.key32 w
   = (AuthRoutes.Ok reply,
      snd (AuthRoutes.get_auth_request_status (platform := TestPlatform.platform)
             TestPlatform.key32 w)))
  /\ (option_map AuthRoutes.req_supportsV2
        (AuthRoutes.terminalAuthRequest TestPlatform.authorized_db !! TestPlatform.hex32)
      = Some true)
  /\ exists st flag,
      reply = {| AuthRoutes.code := 200; AuthRoutes.body := AuthRoutes.BStatus st flag |} /\
      (st <> AuthRoutes.pending -> flag = false).
Proof.
  intros w reply. split; [vm_compute; reflexivity |]. split; [vm_compute; reflexivity |].
  destruct (status_reports_supportsV2_only_while_pending
              (platform := TestPlatform.platform) TestPlatform.key32 w
              (snd (AuthRoutes.get_auth_request_status (platform := TestPlatform.platform)
                      TestPlatform.key32 w)) reply)
    as (st & flag & E & Hflag & _).
  - vm_compute. reflexivity.
  - exists st, flag. split; assumption.
Defined.

(** C4, as stated, fails on the status endpoint: a 31-byte key is answered
    200 [not_found], not 401. *)
Lemma status_endpoint_answers_200_to_malformed_key :
  AuthRoutes.decodeBase64 (Platform := TestPlatform.platform) TestPlatform.key31
  = AuthRoutes.Ok (repeat x00 31)
  /\ fst (AuthRoutes.authRoutes (platform := TestPlatform.platform)
            (TestPlatform.env TestPlatform.open_directory None)
            (AuthRoutes.GetAuthRequestStatus TestPlatform.key31)
            (TestPlatform.start TestPlatform.empty_db))
     = AuthRoutes.Ok {| AuthRoutes.code := 200;
                        AuthRoutes.body := AuthRoutes.BStatus AuthRoutes.not_found false |}.
Proof. split; vm_compute; reflexivity. Qed.

(** C4 (amended), at the 31-byte key sent to the terminal approval endpoint. *)
Lemma malformed_key_rejected_before_store_witness :
  let c := AuthRoutes.PostAuthResponse (js "acct1") (js "RESP") TestPlatform.key31 in
  let w := TestPlatform.start TestPlatform.pending_db in
  AuthRoutes.pairing_key c = Some TestPlatform.key31
  /\ AuthRoutes.decodeBase64 (Platform := TestPlatform.platform) TestPlatform.key31
     = AuthRoutes.Ok (repeat x00 31)
  /\ length (repeat x00 31) <> AuthRoutes.box_publicKeyLength
  /\ exists reply w',
      AuthRoutes.authRoutes (platform := TestPlatform.platform)
        (TestPlatform.env TestPlatform.open_directory None) c w = (AuthRoutes.Ok reply, w') /\
      AuthRoutes.db w' = AuthRoutes.db w /\
      AuthRoutes.db_calls (AuthRoutes.events w') = AuthRoutes.db_calls (AuthRoutes.events w) /\
      reply = {| AuthRoutes.code := 401;
                 AuthRoutes.body := AuthRoutes.BError (js "Invalid public key") |}.
Proof.
  intros c w.
  assert (Hk : AuthRoutes.pairing_key c = Some TestPlatform.key31) by reflexivity.
  assert (Hd : AuthRoutes.decodeBase64 (Platform := TestPlatform.platform) TestPlatform.key31
               = AuthRoutes.Ok (repeat x00 31)) by (vm_compute; reflexivity).
  assert (Hl : length (repeat x00 31) <> AuthRoutes.box_publicKeyLength)
    by (vm_compute; discriminate).
  repeat split; try assumption.
  exact (malformed_key_rejected_before_store
           (platform := TestPlatform.platform)
           (TestPlatform.env TestPlatform.open_directory None) c TestPlatform.key31
           (repeat x00 31) w Hk Hd Hl).
Defined.

(** ** The pairing state machine *)

Section PairingStates.

Import JSString AuthRoutes StoreInvariant.
Context {platform : Platform}.
Hypothesis cuid_inj : forall m n, cuid m = cuid n -> m = n.

Lemma requests_set_requests (ns ns' : Namespace) (t : gmap (list Z) AuthRequest) (d : Db) :
  requests ns' (set_requests ns t d) = if bool_decide (ns = ns') then t else requests ns' d.
Proof. destruct ns, ns'; reflexivity. Qed.

Lemma extends_refl (d : Db) : db_wf d -> extends d d.
Proof. intros H. split; [exact H | intros ns key r Hr _; exact Hr]. Qed.

Lemma extends_trans (d1 d2 d3 : Db) : extends d1 d2 -> extends d2 d3 -> extends d1 d3.
Proof.
  intros [_ H12] [Hwf H23]. split; [exact Hwf |].
  intros ns key r Hr Ht. apply H23; [apply H12 |]; assumption.
Qed.

(** Writing the other tables, or counting a creation, keeps the requests. *)
Lemma extends_same_requests (d d' : Db) :
  (forall ns, requests ns d' = requests ns d) -> (created d <= created d')%nat ->
  db_wf d -> extends d d'.
Proof.
  intros Hreq Hc Hwf. split.
  - intros ns. destruct (Hwf ns) as [Hi Hu]. split.
    + intros key r Hr. rewrite Hreq in Hr. destruct (Hi key r Hr) as (n & Hn & E).
      exists n. split; [lia | exact E].
    + intros k1 k2 r1 r2 H1 H2. rewrite Hreq in H1, H2. eauto.
  - intros ns key r Hr _. rewrite Hreq. exact Hr.
Qed.

(** Creating a row under a free key, with the next identifier. *)
Lemma extends_create (ns : Namespace) (key : list Z) (r : AuthRequest) (d : Db) :
  db_wf d -> requests ns d !! key = None -> req_id r = cuid (created d) ->
  extends d (bump (set_requests ns (<[key := r]> (requests ns d)) d)).
Proof.
  intros Hwf Hfree Hid.
  assert (Hreq : forall ns', requests ns' (bump (set_requests ns (<[key := r]> (requests ns d)) d))
                             = if bool_decide (ns = ns') then <[key := r]> (requests ns d)
                               else requests ns' d).
  { intros ns'. destruct ns, ns'; reflexivity. }
  assert (Hcr : created (bump (set_requests ns (<[key := r]> (requests ns d)) d))
                = S (created d)) by (destruct ns; reflexivity).
  split.
  - intros ns'. destruct (Hwf ns') as [Hi Hu]. split.
    + intros k r' Hr'. rewrite Hreq in Hr'. rewrite Hcr. case_bool_decide as Ens.
      * subst ns'. destruct (decide (key = k)) as [-> | Hne].
        -- rewrite lookup_insert_eq in Hr'. injection Hr' as <-.
           exists (created d). split; [lia | exact Hid].
        -- rewrite lookup_insert_ne in Hr' by exact Hne.
           destruct (Hi k r' Hr') as (n & Hn & E). exists n. split; [lia | exact E].
      * destruct (Hi k r' Hr') as (n & Hn & E). exists n. split; [lia | exact E].
    + intros k1 k2 r1 r2 H1 H2 E. rewrite Hreq in H1, H2. case_bool_decide as Ens.
      * subst ns'.
        destruct (decide (key = k1)) as [<- | Hne1], (decide (key = k2)) as [<- | Hne2];
          try reflexivity.
        -- rewrite lookup_insert_eq in H1. injection H1 as <-.
           rewrite lookup_insert_ne in H2 by exact Hne2.
           destruct (Hi k2 r2 H2) as (n & Hn & E2).
           rewrite Hid, E2 in E. apply cuid_inj in E. lia.
        -- rewrite lookup_insert_eq in H2. injection H2 as <-.
           rewrite lookup_insert_ne in H1 by exact Hne1.
           destruct (Hi k1 r1 H1) as (n & Hn & E1).
           rewrite Hid, E1 in E. apply cuid_inj in E. lia.
        -- rewrite lookup_insert_ne in H1 by exact Hne1.
           rewrite lookup_insert_ne in H2 by exact Hne2. eauto.
      * eauto.
  - intros ns' k r' Hr' _. rewrite Hreq. case_bool_decide as Ens; [| exact Hr'].
    subst ns'. rewrite lookup_insert_ne; [exact Hr' |]. intros ->. congruence.
Qed.

Lemma answer_id (response accountId id : list Z) (r : AuthRequest) :
  req_id (answer response accountId id r) = req_id r.
Proof. unfold answer. case_bool_decide; reflexivity. Qed.

(** Answering a request that has no response yet touches no answered one. *)
Lemma extends_answer (ns : Namespace) (key response accountId : list Z)
      (r0 : AuthRequest) (d : Db) :
  db_wf d -> requests ns d !! key = Some r0 -> truthy (req_response r0) = false ->
  extends d (set_requests ns (answer response accountId (req_id r0) <$> requests ns d) d).
Proof.
  intros Hwf Hr0 Hfalse.
  set (f := answer response accountId (req_id r0)).
  split.
  - intros ns'. destruct (Hwf ns') as [Hi Hu]. split.
    + intros k r Hr. rewrite requests_set_requests in Hr.
      replace (created (set_requests ns (f <$> requests ns d) d)) with (created d)
        by (destruct ns; reflexivity).
      case_bool_decide as Ens; [| eauto]. subst ns'.
      rewrite lookup_fmap in Hr. destruct (requests ns d !! k) as [r' |] eqn:Er'; [| discriminate].
      injection Hr as <-. unfold f. rewrite answer_id. eauto.
    + intros k1 k2 r1 r2 H1 H2 E. rewrite requests_set_requests in H1, H2.
      case_bool_decide as Ens; [| eauto]. subst ns'.
      rewrite lookup_fmap in H1, H2.
      destruct (requests ns d !! k1) as [r1' |] eqn:E1; [| discriminate].
      destruct (requests ns d !! k2) as [r2' |] eqn:E2; [| discriminate].
      injection H1 as <-. injection H2 as <-. unfold f in E. rewrite !answer_id in E. eauto.
  - intros ns' k r Hr Ht. rewrite requests_set_requests.
    case_bool_decide as Ens; [| exact Hr]. subst ns'.
    rewrite lookup_fmap, Hr. cbn. f_equal. unfold f, answer.
    case_bool_decide as Eid; [| reflexivity].
    destruct (Hwf ns) as [_ Hu]. assert (k = key) as -> by eauto.
    congruence.
Qed.

End PairingStates.

Section PairingRuns.

Import JSString AuthRoutes StoreInvariant.
Context {platform : Platform}.
Hypothesis cuid_inj : forall m n, cuid m = cuid n -> m = n.

Ltac same_requests :=
  apply extends_same_requests; [intros []; reflexivity | cbn; lia | assumption].

Lemma account_upsert_extends (publicKey : list Z) (t : Z) (w : World) :
  db_wf (db w) -> extends (db w) (db (snd (account_upsert publicKey t w))).
Proof.
  intros Hwf. unfold account_upsert. run_handler.
  destruct (account (db w) !! publicKey); cbn [snd db]; same_requests.
Qed.

Lemma account_upsert_ok (publicKey : list Z) (t : Z) (w : World) :
  exists user, fst (account_upsert publicKey t w) = Ok user.
Proof.
  unfold account_upsert. run_handler.
  destruct (account (db w) !! publicKey); cbn [fst]; eauto.
Qed.

Lemma request_upsert_extends (ns : Namespace) (key : list Z) (v2 : bool) (t : Z) (w : World) :
  db_wf (db w) -> extends (db w) (db (snd (request_upsert ns key v2 t w))).
Proof.
  intros Hwf. unfold request_upsert. run_handler.
  destruct (requests ns (db w) !! key) eqn:E; cbn [snd db].
  - apply extends_refl, Hwf.
  - apply (extends_create cuid_inj); [exact Hwf | exact E | reflexivity].
Qed.

Lemma request_update_extends (ns : Namespace) (key response accountId : list Z)
      (r0 : AuthRequest) (w : World) :
  db_wf (db w) -> requests ns (db w) !! key = Some r0 -> truthy (req_response r0) = false ->
  extends (db w) (db (snd (request_update ns (req_id r0) response accountId w))).
Proof.
  intros Hwf Hr0 Hf. unfold request_update. run_handler.
  case_bool_decide; cbn [snd db].
  - apply extends_answer with (key := key); assumption.
  - apply extends_refl, Hwf.
Qed.

End PairingRuns.

Ltac exec :=
  cbv beta iota zeta delta
    [AuthRoutes.bind AuthRoutes.ret AuthRoutes.lift AuthRoutes.log AuthRoutes.emit
     AuthRoutes.emit_all AuthRoutes.get_db AuthRoutes.put_db AuthRoutes.send
     AuthRoutes.send_code AuthRoutes.throw AuthRoutes.try_catch];
  cbn [fst snd AuthRoutes.db AuthRoutes.events].

Ltac split_matches :=
  repeat match goal with
         | |- context [match ?x with _ => _ end] =>
             let E := fresh "E" in destruct x eqn:E
         end.

Section ServedCalls.

Import JSString AuthRoutes StoreInvariant.
Context {platform : Platform}.
Hypothesis cuid_inj : forall m n, cuid m = cuid n -> m = n.

(** Every call leaves a well-formed store well formed and every answered
    request as it was. *)
Lemma served_extends (env : Env) (c : Call) (d : Db) :
  db_wf d -> extends d (served env c d).
Proof.
  intros Hwf. unfold served. set (w := {| db := d; events := [] |}).
  assert (Hw : db_wf (db w)) by exact Hwf. change d with (db w) at 1.
  clearbody w. clear Hwf d.
  destruct c; cbn [authRoutes].
  - (* POST /v1/auth/ad *)
    unfold post_auth_ad, ldapAuthenticate, kv_upsert.
    destruct (Ldap.authenticate _ _ _ _) as [res actions].
    exec. destruct (success res); cbn [negb]; exec;
      [| apply extends_refl, Hw].
    match goal with
    | |- context [account_upsert ?k ?t ?w1] =>
        pose proof (account_upsert_extends k t w1 Hw) as Hw1;
        destruct (account_upsert k t w1) as [[user | e] w2]
    end; exec; cbn [snd] in Hw1; [| exact Hw1].
    eapply extends_trans; [exact Hw1 |]. destruct Hw1 as [Hw2 _].
    destruct (encryptNasPassword _ _ _); exec; [| apply extends_refl, Hw2].
    destruct (kv_fault env); exec; [apply extends_refl, Hw2 |].
    apply extends_same_requests; [intros []; reflexivity | cbn; lia | exact Hw2].
  - (* GET /v1/auth/ad/nas-credentials *)
    unfold get_nas_credentials, kv_findUnique. exec.
    destruct (userKVStore (db w) !! (userId, js "nas-credentials")); exec; [| apply extends_refl, Hw].
    destruct (decryptNasPassword _ _); exec; apply extends_refl, Hw.
  - (* POST /v1/auth *)
    unfold post_auth. exec.
    destruct (decodeBase64 publicKey); exec; [| apply extends_refl, Hw].
    destruct (decodeBase64 challenge); exec; [| apply extends_refl, Hw].
    destruct (decodeBase64 signature); exec; [| apply extends_refl, Hw].
    destruct (sign_detached_verify _ _ _); cbn [negb]; exec; [| apply extends_refl, Hw].
    pose proof (account_upsert_extends (encodeHex a) (now env) w Hw) as Hw1.
    destruct (account_upsert _ _ w) as [[user | e] w2]; cbn [snd] in *; exact Hw1.
  - (* POST /v1/auth/request *)
    unfold post_auth_request. exec.
    destruct (decodeBase64 publicKey); exec; [| apply extends_refl, Hw].
    destruct (Nat.eqb _ _); cbn [negb]; exec; [| apply extends_refl, Hw].
    match goal with
    | |- context [request_upsert ?ns ?k ?v ?t ?w1] =>
        pose proof (request_upsert_extends cuid_inj ns k v t w1 Hw) as Hw1;
        destruct (request_upsert ns k v t w1) as [[r | e] w2]
    end; cbn [snd] in *; [| exact Hw1].
    destruct (answered r); exact Hw1.
  - (* GET /v1/auth/request/status *)
    unfold get_auth_request_status, request_findUnique. exec.
    destruct (decodeBase64 publicKey); exec; [| apply extends_refl, Hw].
    destruct (Nat.eqb _ _); cbn [negb]; exec; [| apply extends_refl, Hw].
    destruct (requests Terminal (db w) !! _) as [r |]; [| apply extends_refl, Hw].
    destruct (answered r); apply extends_refl, Hw.
  - (* POST /v1/auth/response *)
    unfold post_auth_response, request_findUnique, request_findMany. exec.
    destruct (decodeBase64 publicKey); exec; [| apply extends_refl, Hw].
    destruct (Nat.eqb _ _); cbn [negb]; exec; [| apply extends_refl, Hw].
    destruct (requests Terminal (db w) !! encodeHex a) as [r |] eqn:Er;
      [| apply extends_refl, Hw].
    destruct (truthy (req_response r)) eqn:Et; cbn [negb]; exec; [apply extends_refl, Hw |].
    match goal with
    | |- context [request_update ?ns ?i ?rs ?u ?w1] =>
        pose proof (request_update_extends ns (encodeHex a) rs u r w1 Hw Er Et) as Hw1;
        destruct (request_update ns i rs u w1) as [[u' | e] w2]
    end; cbn [snd] in *; exact Hw1.
  - (* POST /v1/auth/account/request *)
    unfold post_auth_account_request. exec.
    destruct (decodeBase64 publicKey); exec; [| apply extends_refl, Hw].
    destruct (Nat.eqb _ _); cbn [negb]; exec; [| apply extends_refl, Hw].
    pose proof (request_upsert_extends cuid_inj AccountLevel (encodeHex a) false (now env)
                  w Hw) as Hw1.
    destruct (request_upsert _ _ _ _ w) as [[r | e] w2]; cbn [snd] in *; [| exact Hw1].
    destruct (answered r); exact Hw1.
  - (* POST /v1/auth/account/response *)
    unfold post_auth_account_response, request_findUnique. exec.
    destruct (decodeBase64 publicKey); exec; [| apply extends_refl, Hw].
    destruct (Nat.eqb _ _); cbn [negb]; exec; [| apply extends_refl, Hw].
    destruct (requests AccountLevel (db w) !! encodeHex a) as [r |] eqn:Er;
      [| apply extends_refl, Hw].
    destruct (truthy (req_response r)) eqn:Et; cbn [negb]; exec; [apply extends_refl, Hw |].
    match goal with
    | |- context [request_update ?ns ?i ?rs ?u ?w1] =>
        pose proof (request_update_extends ns (encodeHex a) rs u r w1 Hw Er Et) as Hw1;
        destruct (request_update ns i rs u w1) as [[u' | e] w2]
    end; cbn [snd] in *; exact Hw1.
Qed.

Lemma served_all_extends (calls : list (Env * Call)) (d : Db) :
  db_wf d -> extends d (served_all calls d).
Proof.
  revert d. induction calls as [| [env c] calls IH]; intros d Hwf.
  - apply extends_refl, Hwf.
  - unfold served_all. cbn [fold_left].
    pose proof (served_extends env c d Hwf) as H1.
    eapply extends_trans; [exact H1 |]. apply IH, H1.
Qed.

End ServedCalls.

(** ** Pairing: what the handlers do to a request *)

Section PairingLifeCycle.

Import JSString AuthRoutes StoreInvariant.
Context {platform : Platform}.

(** X1: a pairing request that carries a non-empty response is final: in a
    well-formed store, whatever sequence of calls to the routes follows (in
    either namespace, with any arguments and surroundings), the record under
    its key stays exactly as it is. *)
Theorem answered_request_is_final
        (cuid_inj : forall m n, cuid m = cuid n -> m = n)
        (ns : Namespace) (d : Db) (key : list Z) (r : AuthRequest)
        (calls : list (Env * Call)) :
  db_wf d ->
  requests ns d !! key = Some r ->
  truthy (req_response r) = true ->
  requests ns (served_all calls d) !! key = Some r.
Proof.
  intros Hwf Hr Ht.
  destruct (served_all_extends cuid_inj calls d Hwf) as [_ Hkeep].
  exact (Hkeep ns key r Hr Ht).
Qed.

(** X2: an approval sent for a request that already carries a non-empty
    response answers 200 success, reads the record once and writes nothing:
    the first response and its account stay. *)
Theorem approval_of_answered_request_changes_nothing
        (ns : Namespace) (env : Env) (userId response publicKey : list Z)
        (bytes : list byte) (r : AuthRequest) (w : World) :
  decodeBase64 publicKey = Ok bytes ->
  length bytes = box_publicKeyLength ->
  requests ns (db w) !! encodeHex bytes = Some r ->
  truthy (req_response r) = true ->
  exists w',
    authRoutes env (approve ns userId response publicKey) w
    = (Ok {| code := 200; body := BSuccess |}, w') /\
    db w' = db w /\
    db_calls (events w') = db_calls (events w) ++ [RequestFindUnique ns (encodeHex bytes)].
Proof.
  intros Hd Hl Hr Ht.
  destruct ns; cbn [approve authRoutes];
    unfold post_auth_response, post_auth_account_response, request_findUnique; exec;
    rewrite Hd; exec; rewrite Hl, Nat.eqb_refl; cbn [negb]; exec;
    rewrite Hr; exec; rewrite Ht; cbn [negb]; exec;
    eexists; (split; [reflexivity |]); cbn [db events]; (split; [reflexivity |]);
    rewrite !db_calls_app; cbn; rewrite ?app_nil_r; reflexivity.
Qed.

(** X3: an approval sent for a request without response stores the response
    and the approving account in that record and answers 200 success; in a
    well-formed store no other record of the table changes. *)
Theorem first_approval_is_recorded
        (ns : Namespace) (env : Env) (userId response publicKey : list Z)
        (bytes : list byte) (r : AuthRequest) (w : World) :
  db_wf (db w) ->
  decodeBase64 publicKey = Ok bytes ->
  length bytes = box_publicKeyLength ->
  requests ns (db w) !! encodeHex bytes = Some r ->
  truthy (req_response r) = false ->
  exists w',
    authRoutes env (approve ns userId response publicKey) w
    = (Ok {| code := 200; body := BSuccess |}, w') /\
    requests ns (db w') !! encodeHex bytes
    = Some {| req_id := req_id r; req_publicKey := req_publicKey r;
              req_supportsV2 := req_supportsV2 r; req_response := Some response;
              req_responseAccountId := Some userId; req_createdAt := req_createdAt r |} /\
    forall key, key <> encodeHex bytes ->
      requests ns (db w') !! key = requests ns (db w) !! key.
Proof.
  intros Hwf Hd Hl Hr Ht.
  assert (Hex : map_Exists (fun _ r' => req_id r' = req_id r) (requests ns (db w))).
  { exists (encodeHex bytes), r. split; [exact Hr | reflexivity]. }
  assert (Hrow : forall key r', requests ns (db w) !! key = Some r' ->
            answer response userId (req_id r) r'
            = if bool_decide (key = encodeHex bytes)
              then {| req_id := req_id r; req_publicKey := req_publicKey r;
                      req_supportsV2 := req_supportsV2 r; req_response := Some response;
                      req_responseAccountId := Some userId;
                      req_createdAt := req_createdAt r |}
              else r').
  { intros key r' Hr'. unfold answer. destruct (Hwf ns) as [_ Hu].
    case_bool_decide as Eid; case_bool_decide as Ek; try reflexivity.
    - subst key. congruence.
    - exfalso. apply Ek. exact (Hu _ _ _ _ Hr' Hr Eid).
    - subst key. assert (r' = r) by congruence. subst r'. contradiction. }
  destruct ns; cbn [approve authRoutes];
    unfold post_auth_response, post_auth_account_response, request_findUnique,
      request_update; exec;
    rewrite Hd; exec; rewrite Hl, Nat.eqb_refl; cbn [negb]; exec;
    rewrite Hr; exec; rewrite Ht; cbn [negb]; exec;
    rewrite (bool_decide_eq_true_2 _ Hex); exec;
    eexists; (split; [reflexivity |]); cbn [db requests set_requests terminalAuthRequest
                                              accountAuthRequest];
    cbn [requests] in Hr, Hrow.
  - split.
    + rewrite lookup_fmap, Hr. cbn. rewrite (Hrow _ _ Hr).
      rewrite bool_decide_eq_true_2 by reflexivity. reflexivity.
    + intros key Hne. rewrite lookup_fmap.
      destruct (terminalAuthRequest (db w) !! key) as [r' |] eqn:Er'; [| reflexivity].
      cbn. rewrite (Hrow _ _ Er'). rewrite bool_decide_eq_false_2 by exact Hne. reflexivity.
  - split.
    + rewrite lookup_fmap, Hr. cbn. rewrite (Hrow _ _ Hr).
      rewrite bool_decide_eq_true_2 by reflexivity. reflexivity.
    + intros key Hne. rewrite lookup_fmap.
      destruct (accountAuthRequest (db w) !! key) as [r' |] eqn:Er'; [| reflexivity].
      cbn. rewrite (Hrow _ _ Er'). rewrite bool_decide_eq_false_2 by exact Hne. reflexivity.
Qed.

End PairingLifeCycle.


Section PairingRequests.

Import JSString AuthRoutes StoreInvariant PairingCalls.
Context {platform : Platform}.

(** What the request endpoint does on a key of the right length: it creates
    the record when the key is new, and replies from the record it finds or
    creates. *)
Lemma request_call_run (ns : Namespace) (env : Env) (publicKey : list Z) (v2 : option bool)
      (bytes : list byte) (w : World) :
  decodeBase64 publicKey = Ok bytes ->
  length bytes = box_publicKeyLength ->
  exists w',
    authRoutes env (request_call ns publicKey v2) w
    = (Ok (request_reply ns
             (default {| req_id := cuid (created (db w)); req_publicKey := encodeHex bytes;
                         req_supportsV2 := match ns with
                                           | Terminal => default false v2
                                           | AccountLevel => false
                                           end;
                         req_response := None; req_responseAccountId := None;
                         req_createdAt := now env |}
                      (requests ns (db w) !! encodeHex bytes))), w') /\
    db w' = match requests ns (db w) !! encodeHex bytes with
            | Some _ => db w
            | None =>
                bump (set_requests ns
                        (<[encodeHex bytes :=
                             {| req_id := cuid (created (db w));
                                req_publicKey := encodeHex bytes;
                                req_supportsV2 := match ns with
                                                  | Terminal => default false v2
                                                  | AccountLevel => false
                                                  end;
                                req_response := None; req_responseAccountId := None;
                                req_createdAt := now env |}]> (requests ns (db w))) (db w))
            end.
Proof.
  intros Hd Hl.
  destruct ns; cbn [request_call authRoutes];
    unfold post_auth_request, post_auth_account_request, request_upsert, request_reply; exec;
    rewrite Hd; exec; rewrite Hl, Nat.eqb_refl; cbn [negb]; exec.
  - destruct (requests Terminal (db w) !! encodeHex bytes) as [r |]; exec; cbn [default from_option id].
    + destruct (answered r); eexists; split; reflexivity.
    + eexists; split; reflexivity.
  - destruct (requests AccountLevel (db w) !! encodeHex bytes) as [r |]; exec; cbn [default from_option id].
    + destruct (answered r); eexists; split; reflexivity.
    + eexists; split; reflexivity.
Qed.

Lemma requests_after_create (ns : Namespace) (key : list Z) (r : AuthRequest) (d : Db) :
  requests ns (bump (set_requests ns (<[key := r]> (requests ns d)) d)) !! key = Some r.
Proof. destruct ns; cbn; apply lookup_insert_eq. Qed.

(** X4: the request endpoint is idempotent.  For every store and every key
    of the right length, calling it again (at another time, announcing
    another [supportsV2]) gives the reply of the first call and leaves the
    store as the first call left it: a poll never creates a second record
    and never changes the one it finds. *)
Theorem request_is_idempotent
        (ns : Namespace) (env1 env2 : Env) (publicKey : list Z) (v1 v2 : option bool)
        (bytes : list byte) (d : Db) :
  decodeBase64 publicKey = Ok bytes ->
  length bytes = box_publicKeyLength ->
  let first := authRoutes env1 (request_call ns publicKey v1) {| db := d; events := [] |} in
  let second := authRoutes env2 (request_call ns publicKey v2)
                  {| db := db (snd first); events := [] |} in
  fst second = fst first /\ db (snd second) = db (snd first).
Proof.
  intros Hd Hl. cbv zeta.
  destruct (request_call_run ns env1 publicKey v1 bytes {| db := d; events := [] |} Hd Hl)
    as (w1 & E1 & Hdb1).
  rewrite E1. cbn [fst snd db] in *.
  destruct (request_call_run ns env2 publicKey v2 bytes {| db := db w1; events := [] |}
              Hd Hl) as (w2 & E2 & Hdb2).
  rewrite E2. cbn [fst snd db] in *. rewrite Hdb2. clear E1 E2 Hdb2.
  destruct (requests ns d !! encodeHex bytes) as [r |] eqn:Er.
  - rewrite Hdb1, Er. split; reflexivity.
  - rewrite Hdb1, requests_after_create. split; reflexivity.
Qed.

(** X5: the pairing flow.  On a key of the right length that has no record,
    a request creates one; once an account has approved with a non-empty
    response, the next request answers [authorized] with that response and a
    token minted for the approving account (scoped to the request record in
    the terminal flow), and the terminal status endpoint reports
    [authorized]. *)
Theorem approved_request_is_served_to_the_requester
        (ns : Namespace) (env1 env2 env3 : Env)
        (publicKey userId response : list Z) (v1 v3 : option bool)
        (bytes : list byte) (d : Db) :
  decodeBase64 publicKey = Ok bytes ->
  length bytes = box_publicKeyLength ->
  requests ns d !! encodeHex bytes = None ->
  response <> [] -> userId <> [] ->
  let d1 := served env1 (request_call ns publicKey v1) d in
  let d2 := served env2 (approve ns userId response publicKey) d1 in
  fst (authRoutes env3 (request_call ns publicKey v3) {| db := d2; events := [] |})
  = Ok {| code := 200;
          body := BAuthorized
                    (createToken userId
                       match ns with
                       | Terminal => Some (cuid (created d))
                       | AccountLevel => None
                       end) response |}
  /\ (ns = Terminal ->
      fst (authRoutes env3 (GetAuthRequestStatus publicKey) {| db := d2; events := [] |})
      = Ok {| code := 200; body := BStatus authorized false |}).
Proof.
  intros Hd Hl Hfree Hresp Huser d1 d2.
  destruct (request_call_run ns env1 publicKey v1 bytes {| db := d; events := [] |} Hd Hl)
    as (w1 & E1 & Hdb1).
  cbn [db] in Hdb1, E1. rewrite Hfree in Hdb1.
  assert (Hd1 : d1 = db w1) by (unfold d1, served; rewrite E1; reflexivity).
  set (r0 := {| req_id := cuid (created d); req_publicKey := encodeHex bytes;
                req_supportsV2 := match ns with
                                  | Terminal => default false v1
                                  | AccountLevel => false
                                  end;
                req_response := None; req_responseAccountId := None;
                req_createdAt := now env1 |}) in *.
  assert (Hr0 : requests ns d1 !! encodeHex bytes = Some r0).
  { rewrite Hd1, Hdb1. apply requests_after_create. }
  assert (Hex : map_Exists (fun _ r' => req_id r' = req_id r0) (requests ns d1)).
  { exists (encodeHex bytes), r0. split; [exact Hr0 | reflexivity]. }
  set (r1 := {| req_id := cuid (created d); req_publicKey := encodeHex bytes;
                req_supportsV2 := req_supportsV2 r0;
                req_response := Some response; req_responseAccountId := Some userId;
                req_createdAt := now env1 |}).
  assert (Hr1 : requests ns d2 !! encodeHex bytes = Some r1).
  { unfold d2, served.
    destruct ns; cbn [approve authRoutes];
      unfold post_auth_response, post_auth_account_response, request_findUnique,
        request_update; exec;
      rewrite Hd; exec; rewrite Hl, Nat.eqb_refl; cbn [negb]; exec;
      rewrite Hr0; exec; cbn [truthy req_response r0 negb]; exec;
      rewrite (bool_decide_eq_true_2 _ Hex); exec;
      cbn [requests set_requests terminalAuthRequest accountAuthRequest] in *;
      rewrite lookup_fmap, Hr0; cbn; unfold answer;
      rewrite bool_decide_eq_true_2 by reflexivity; reflexivity. }
  assert (Hans : answered r1 = true).
  { unfold answered, r1. cbn [req_response req_responseAccountId].
    destruct response; [contradiction |]. destruct userId; [contradiction |]. reflexivity. }
  split.
  - destruct (request_call_run ns env3 publicKey v3 bytes {| db := d2; events := [] |} Hd Hl)
      as (w3 & E3 & _).
    rewrite E3. cbn [fst db]. rewrite Hr1. cbn [default from_option id]. unfold request_reply.
    rewrite Hans. destruct ns; reflexivity.
  - intros ->. cbn [authRoutes].
    unfold get_auth_request_status, request_findUnique; exec.
    rewrite Hd; exec. rewrite Hl, Nat.eqb_refl; cbn [negb]; exec.
    rewrite Hr1. exec. rewrite Hans. reflexivity.
Qed.

(** X6: an approval for a key that has no record answers 404 "Request not
    found" and leaves the store as it is. *)
Theorem approval_of_unknown_request_is_404
        (ns : Namespace) (env : Env) (userId response publicKey : list Z)
        (bytes : list byte) (w : World) :
  decodeBase64 publicKey = Ok bytes ->
  length bytes = box_publicKeyLength ->
  requests ns (db w) !! encodeHex bytes = None ->
  exists w',
    authRoutes env (approve ns userId response publicKey) w
    = (Ok {| code := 404; body := BError (js "Request not found") |}, w') /\
    db w' = db w.
Proof.
  intros Hd Hl Hr.
  destruct ns; cbn [approve authRoutes];
    unfold post_auth_response, post_auth_account_response, request_findUnique,
      request_findMany; exec;
    rewrite Hd; exec; rewrite Hl, Nat.eqb_refl; cbn [negb]; exec;
    rewrite Hr; exec; eexists; split; reflexivity.
Qed.

(** X7: the two GET routes only read: whatever they are asked and whatever
    they answer, the store after the call is the store before it. *)
Theorem get_routes_never_write :
  (forall (env : Env) (publicKey : list Z) (w : World),
      db (snd (authRoutes env (GetAuthRequestStatus publicKey) w)) = db w)
  /\ (forall (env : Env) (userId username : list Z) (w : World),
      db (snd (authRoutes env (GetNasCredentials userId username) w)) = db w).
Proof.
  assert (Hs : forall (env : Env) (publicKey : list Z) (w : World),
             db (snd (authRoutes env (GetAuthRequestStatus publicKey) w)) = db w).
  { intros env publicKey w. cbn [authRoutes].
    unfold get_auth_request_status, request_findUnique. exec.
    destruct (decodeBase64 publicKey); exec; [| reflexivity].
    destruct (Nat.eqb _ _); cbn [negb]; exec; [| reflexivity].
    destruct (requests Terminal (db w) !! encodeHex a) as [r |]; exec; [| reflexivity].
    destruct (answered r); reflexivity. }
  split; [exact Hs |].
  intros env userId username w. cbn [authRoutes].
  unfold get_nas_credentials, kv_findUnique. exec.
  destruct (userKVStore (db w) !! (userId, js "nas-credentials")); exec; [| reflexivity].
  destruct (decryptNasPassword _ _); reflexivity.
Qed.

End PairingRequests.

(** ** The concrete platform satisfies the assumptions used above *)

Lemma test_cuid_inj (m n : nat) :
  AuthRoutes.cuid (Platform := TestPlatform.platform) m
  = AuthRoutes.cuid (Platform := TestPlatform.platform) n -> m = n.
Proof.
  cbn. intros H. apply (f_equal (@length Z)) in H. cbn in H.
  rewrite !repeat_length in H. lia.
Qed.

Lemma db_wf_empty_db {platform : AuthRoutes.Platform} :
  StoreInvariant.db_wf TestPlatform.empty_db.
Proof.
  intros ns. split.
  - intros key r H. destruct ns; cbn in H; rewrite lookup_empty in H; discriminate.
  - intros k1 k2 r1 r2 H. destruct ns; cbn in H; rewrite lookup_empty in H; discriminate.
Qed.

Lemma db_wf_pending_db :
  StoreInvariant.db_wf (platform := TestPlatform.platform) TestPlatform.pending_db.
Proof.
  apply (served_extends (platform := TestPlatform.platform) test_cuid_inj).
  apply db_wf_empty_db.
Qed.

Lemma db_wf_authorized_db :
  StoreInvariant.db_wf (platform := TestPlatform.platform) TestPlatform.authorized_db.
Proof.
  apply (served_extends (platform := TestPlatform.platform) test_cuid_inj).
  apply db_wf_pending_db.
Qed.

Lemma test_key32_decodes :
  AuthRoutes.decodeBase64 (Platform := TestPlatform.platform) TestPlatform.key32
  = AuthRoutes.Ok (repeat x00 32).
Proof. vm_compute. reflexivity. Qed.

Lemma test_other_key32_decodes :
  AuthRoutes.decodeBase64 (Platform := TestPlatform.platform) TestData.other_key32
  = AuthRoutes.Ok (repeat x01 32).
Proof. vm_compute. reflexivity. Qed.

Lemma test_pending_lookup :
  AuthRoutes.requests AuthRoutes.Terminal TestPlatform.pending_db
    !! AuthRoutes.encodeHex (Platform := TestPlatform.platform) (repeat x00 32)
  = Some TestData.pending_row.
Proof. vm_compute. reflexivity. Qed.

Lemma test_authorized_lookup :
  AuthRoutes.requests AuthRoutes.Terminal TestPlatform.authorized_db
    !! AuthRoutes.encodeHex (Platform := TestPlatform.platform) (repeat x00 32)
  = Some TestData.answered_row.
Proof. vm_compute. reflexivity. Qed.

(** ** Concrete runs *)

(** X1, on the answered record of [key32]: a second approval by another
    account and a new poll leave it as it is. *)
Lemma answered_request_is_final_witness :
  AuthRoutes.requests AuthRoutes.Terminal
    (AuthRoutes.served_all (platform := TestPlatform.platform)
       [ (TestData.test_env,
          AuthRoutes.PostAuthResponse (js "acct2") (js "RESP2") TestPlatform.key32);
         (TestData.test_env, AuthRoutes.PostAuthRequest TestPlatform.key32 None) ]
       TestPlatform.authorized_db)
    !! AuthRoutes.encodeHex (Platform := TestPlatform.platform) (repeat x00 32)
  = Some TestData.answered_row.
Proof.
  apply (answered_request_is_final (platform := TestPlatform.platform) test_cuid_inj).
  - exact db_wf_authorized_db.
  - exact test_authorized_lookup.
  - reflexivity.
Defined.

(** X2, on the answered record of [key32]. *)
Lemma approval_of_answered_request_changes_nothing_witness :
  exists w',
    AuthRoutes.authRoutes (platform := TestPlatform.platform) TestData.test_env
      (AuthRoutes.approve AuthRoutes.Terminal (js "acct2") (js "RESP2") TestPlatform.key32)
      (TestPlatform.start TestPlatform.authorized_db)
    = (AuthRoutes.Ok {| AuthRoutes.code := 200; AuthRoutes.body := AuthRoutes.BSuccess |}, w')
    /\ AuthRoutes.db w' = TestPlatform.authorized_db
    /\ AuthRoutes.db_calls (AuthRoutes.events w')
       = [AuthRoutes.RequestFindUnique AuthRoutes.Terminal TestPlatform.hex32].
Proof.
  exact (approval_of_answered_request_changes_nothing (platform := TestPlatform.platform)
           AuthRoutes.Terminal TestData.test_env (js "acct2") (js "RESP2")
           TestPlatform.key32 (repeat x00 32) TestData.answered_row
           (TestPlatform.start TestPlatform.authorized_db)
           test_key32_decodes eq_refl test_authorized_lookup eq_refl).
Defined.

(** X3, on the pending record of [key32]. *)
Lemma first_approval_is_recorded_witness :
  exists w',
    AuthRoutes.authRoutes (platform := TestPlatform.platform) TestData.test_env
      (AuthRoutes.approve AuthRoutes.Terminal (js "acct1") (js "RESP") TestPlatform.key32)
      (TestPlatform.start TestPlatform.pending_db)
    = (AuthRoutes.Ok {| AuthRoutes.code := 200; AuthRoutes.body := AuthRoutes.BSuccess |}, w')
    /\ AuthRoutes.requests AuthRoutes.Terminal (AuthRoutes.db w') !! TestPlatform.hex32
       = Some TestData.answered_row
    /\ forall key, key <> TestPlatform.hex32 ->
         AuthRoutes.requests AuthRoutes.Terminal (AuthRoutes.db w') !! key
         = AuthRoutes.requests AuthRoutes.Terminal TestPlatform.pending_db !! key.
Proof.
  exact (first_approval_is_recorded (platform := TestPlatform.platform)
           AuthRoutes.Terminal TestData.test_env (js "acct1") (js "RESP")
           TestPlatform.key32 (repeat x00 32) TestData.pending_row
           (TestPlatform.start TestPlatform.pending_db)
           db_wf_pending_db test_key32_decodes eq_refl test_pending_lookup eq_refl).
Defined.

(** X4, polling twice with [key32] on the empty store. *)
Lemma request_is_idempotent_witness :
  let first := AuthRoutes.authRoutes (platform := TestPlatform.platform) TestData.test_env
                 (PairingCalls.request_call AuthRoutes.Terminal TestPlatform.key32 (Some true))
                 (TestPlatform.start TestPlatform.empty_db) in
  let second := AuthRoutes.authRoutes (platform := TestPlatform.platform) TestData.test_env
                  (PairingCalls.request_call AuthRoutes.Terminal TestPlatform.key32 (Some false))
                  {| AuthRoutes.db := AuthRoutes.db (snd first); AuthRoutes.events := [] |} in
  fst second = fst first /\ AuthRoutes.db (snd second) = AuthRoutes.db (snd first).
Proof.
  exact (request_is_idempotent (platform := TestPlatform.platform)
           AuthRoutes.Terminal TestData.test_env TestData.test_env TestPlatform.key32
           (Some true) (Some false) (repeat x00 32) TestPlatform.empty_db
           test_key32_decodes eq_refl).
Defined.

(** X5, the terminal flow of [key32] from the empty store. *)
Lemma approved_request_is_served_to_the_requester_witness :
  let d1 := AuthRoutes.served (platform := TestPlatform.platform) TestData.test_env
              (PairingCalls.request_call AuthRoutes.Terminal TestPlatform.key32 (Some true))
              TestPlatform.empty_db in
  let d2 := AuthRoutes.served (platform := TestPlatform.platform) TestData.test_env
              (AuthRoutes.approve AuthRoutes.Terminal (js "acct1") (js "RESP")
                 TestPlatform.key32) d1 in
  fst (AuthRoutes.authRoutes (platform := TestPlatform.platform) TestData.test_env
         (PairingCalls.request_call AuthRoutes.Terminal TestPlatform.key32 None)
         {| AuthRoutes.db := d2; AuthRoutes.events := [] |})
  = AuthRoutes.Ok
      {| AuthRoutes.code := 200;
         AuthRoutes.body := AuthRoutes.BAuthorized (js "token:acct1/c") (js "RESP") |}
  /\ (AuthRoutes.Terminal = AuthRoutes.Terminal ->
      fst (AuthRoutes.authRoutes (platform := TestPlatform.platform) TestData.test_env
             (AuthRoutes.GetAuthRequestStatus TestPlatform.key32)
             {| AuthRoutes.db := d2; AuthRoutes.events := [] |})
      = AuthRoutes.Ok
          {| AuthRoutes.code := 200;
             AuthRoutes.body := AuthRoutes.BStatus AuthRoutes.authorized false |}).
Proof.
  exact (approved_request_is_served_to_the_requester (platform := TestPlatform.platform)
           AuthRoutes.Terminal TestData.test_env TestData.test_env TestData.test_env
           TestPlatform.key32 (js "acct1") (js "RESP") (Some true) None (repeat x00 32)
           TestPlatform.empty_db test_key32_decodes eq_refl eq_refl
           ltac:(discriminate) ltac:(discriminate)).
Defined.

(** X6, approving a well-formed key that nobody has requested. *)
Lemma approval_of_unknown_request_is_404_witness :
  exists w',
    AuthRoutes.authRoutes (platform := TestPlatform.platform) TestData.test_env
      (AuthRoutes.approve AuthRoutes.AccountLevel (js "acct1") (js "RESP")
         TestData.other_key32)
      (TestPlatform.start TestPlatform.authorized_db)
    = (AuthRoutes.Ok {| AuthRoutes.code := 404;
                        AuthRoutes.body := AuthRoutes.BError (js "Request not found") |}, w')
    /\ AuthRoutes.db w' = TestPlatform.authorized_db.
Proof.
  exact (approval_of_unknown_request_is_404 (platform := TestPlatform.platform)
           AuthRoutes.AccountLevel TestData.test_env (js "acct1") (js "RESP")
           TestData.other_key32 (repeat x01 32)
           (TestPlatform.start TestPlatform.authorized_db)
           test_other_key32_decodes eq_refl eq_refl).
Defined.

(** ** Digests and their text forms *)

Section DigestLengths.

Import Sha2Spec.

Lemma Z_to_be_length (n : nat) (z : Z) : length (Z_to_be n z) = n.
Proof. unfold Z_to_be. rewrite length_map, length_seq. reflexivity. Qed.

Lemma step_length (P : params) (W v : list Z) (t : nat) :
  length v = 8%nat -> length (step P W v t) = 8%nat.
Proof.
  intros H. do 9 (destruct v as [| ? v]; try discriminate H). reflexivity.
Qed.

Lemma compress_length (P : params) (H : list Z) (blk : list byte) :
  length H = 8%nat -> length (compress P H blk) = 8%nat.
Proof.
  intros HH. unfold compress. rewrite length_map, length_combine.
  assert (Hv : forall ts v, length v = 8%nat ->
                 length (fold_left (step P (schedule P (words_of_block P blk))) ts v) = 8%nat).
  { induction ts as [| t ts IH]; intros v Hv; [exact Hv |].
    cbn [fold_left]. apply IH, step_length, Hv. }
  rewrite (Hv _ _ HH), HH. reflexivity.
Qed.

Lemma digest_length (P : params) (msg : list byte) :
  length (p_H0 P) = 8%nat -> length (digest P msg) = (8 * wbytes P)%nat.
Proof.
  intros H0. unfold digest.
  assert (HH : forall bs H, length H = 8%nat -> length (fold_left (compress P) bs H) = 8%nat).
  { induction bs as [| b bs IH]; intros H HH; [exact HH |].
    cbn [fold_left]. apply IH, compress_length, HH. }
  specialize (HH (blocks P (padding P msg)) (p_H0 P) H0).
  revert HH. generalize (fold_left (compress P) (blocks P (padding P msg)) (p_H0 P)).
  intros H HH. do 9 (destruct H as [| ? H]; try discriminate HH).
  cbn [flat_map]. rewrite !length_app, !Z_to_be_length. cbn [length]. lia.
Qed.

Lemma sha256_spec_length (msg : list byte) : length (sha256_spec msg) = 32%nat.
Proof. unfold sha256_spec. rewrite digest_length; reflexivity. Qed.

Lemma sha512_spec_length (msg : list byte) : length (sha512_spec msg) = 64%nat.
Proof. unfold sha512_spec. rewrite digest_length; reflexivity. Qed.



End DigestLengths.


(** ** The directory login *)

Section DirectoryLogin.

Import JSString Encoding AuthRoutes AdLogin.
Context {platform : Platform}.

(** The account row a login leaves under a key, and the store after the
    account upsert. *)
Lemma account_upsert_run (key : list Z) (t : Z) (w : World) :
  exists user,
    account_upsert key t w
    = (Ok user,
       {| db := match account (db w) !! key with
                | Some _ => fun d => d
                | None => bump
                end (set_account (<[key := user]> (account (db w))) (db w));
          events := events w ++ [DbCall (AccountUpsert key)] |}) /\
    acc_id user = match account (db w) !! key with
                  | Some a => acc_id a
                  | None => cuid (created (db w))
                  end /\
    acc_updatedAt user = t.
Proof.
  unfold account_upsert. exec.
  destruct (account (db w) !! key) as [a |]; exec; eexists; repeat apply conj; reflexivity.
Qed.








End DirectoryLogin.






(** ** UTF-8: writing a string and reading it back *)

Section Utf8.

Import Encoding.

Lemma byte_to_Z_range (b : byte) : 0 <= byte_to_Z b < 256.
Proof.
  unfold byte_to_Z. pose proof (Byte.to_N_bounded b) as H. lia.
Qed.

Lemma byte_to_of_Z (z : Z) : 0 <= z < 256 -> byte_to_Z (byte_of_Z z) = z.
Proof.
  intros Hz. unfold byte_to_Z, byte_of_Z. rewrite Z.mod_small by lia.
  destruct (Byte.of_N (Z.to_N z)) as [b |] eqn:E.
  - apply Byte.to_of_N in E. rewrite E. lia.
  - apply Byte.of_N_None_iff in E. lia.
Qed.

Lemma byte_of_to_Z (b : byte) : byte_of_Z (byte_to_Z b) = b.
Proof.
  unfold byte_to_Z, byte_of_Z. pose proof (Byte.to_N_bounded b) as H.
  rewrite Z.mod_small by lia. rewrite N2Z.id, Byte.of_to_N. reflexivity.
Qed.

(** Bits set apart add up. *)
Lemma lor_shiftl_low (a b n : Z) :
  0 <= a -> 0 <= n -> 0 <= b < 2 ^ n -> Z.lor (Z.shiftl a n) b = a * 2 ^ n + b.
Proof.
  intros Ha Hn Hb.
  assert (Hland : Z.land (Z.shiftl a n) b = 0).
  { apply Z.bits_inj'. intros i Hi. rewrite Z.land_spec, Z.bits_0.
    destruct (Z_lt_dec i n) as [Hlt | Hge].
    - rewrite Z.shiftl_spec_low by lia. reflexivity.
    - destruct (Z.eq_dec b 0) as [-> | Hb0]; [rewrite Z.bits_0; apply andb_false_r |].
      rewrite (Z.bits_above_log2 b i); [apply andb_false_r | lia |].
      apply Z.log2_lt_pow2; [lia |]. apply Z.lt_le_trans with (2 ^ n); [lia |].
      apply Z.pow_le_mono_r; lia. }
  rewrite <- Z.lxor_lor by exact Hland.
  rewrite <- Z.add_nocarry_lxor by exact Hland.
  rewrite Z.shiftl_mul_pow2 by lia. reflexivity.
Qed.

Lemma land_low (x n : Z) : 0 <= n -> Z.land x (2 ^ n - 1) = x mod 2 ^ n.
Proof.
  intros Hn. replace (2 ^ n - 1) with (Z.ones n).
  - apply Z.land_ones, Hn.
  - rewrite Z.ones_equiv. lia.
Qed.


Ltac zbool :=
  repeat match goal with
         | |- context [?x <? ?y] =>
             first [ rewrite (proj2 (Z.ltb_lt x y)) by lia
                   | rewrite (proj2 (Z.ltb_ge x y)) by lia ]
         | |- context [?x <=? ?y] =>
             first [ rewrite (proj2 (Z.leb_le x y)) by lia
                   | rewrite (proj2 (Z.leb_gt x y)) by lia ]
         | |- context [?x =? ?y] =>
             first [ rewrite (proj2 (Z.eqb_eq x y)) by lia
                   | rewrite (proj2 (Z.eqb_neq x y)) by lia ]
         end.

Lemma decode_from_cons (st : dstate) (b : byte) (rest : list byte) :
  decode_from st (b :: rest)
  = fst (decode_byte st (byte_to_Z b)) ++ decode_from (snd (decode_byte st (byte_to_Z b))) rest.
Proof. cbn [decode_from]. destruct (decode_byte st (byte_to_Z b)). reflexivity. Qed.

(** A continuation byte 10xxxxxx within the bounds of the state. *)
Lemma decode_continuation (cp needed seen lower upper x : Z) :
  needed <> 0 -> 0 <= cp -> 0 <= x < 64 ->
  lower <= 0x80 + x <= upper ->
  decode_byte (DState cp needed seen lower upper) (0x80 + x)
  = if seen + 1 =? needed then (utf16_of_code_point (cp * 64 + x), d_init)
    else ([], DState (cp * 64 + x) needed (seen + 1) 0x80 0xBF).
Proof.
  intros Hn Hcp Hx Hb. unfold decode_byte. cbn [d_needed d_lower d_upper d_cp d_seen].
  rewrite (proj2 (Z.eqb_neq needed 0)) by exact Hn.
  rewrite (proj2 (Z.ltb_ge (0x80 + x) lower)) by lia.
  rewrite (proj2 (Z.ltb_ge upper (0x80 + x))) by lia.
  cbn [orb].
  change 0x3F with (2 ^ 6 - 1). rewrite land_low by lia.
  replace ((0x80 + x) mod 2 ^ 6) with x.
  2:{ apply Z.mod_unique with 2; lia. }
  rewrite lor_shiftl_low by lia. reflexivity.
Qed.

Lemma decode_lead_2 (a : Z) :
  2 <= a < 32 -> decode_lead (0xC0 + a) = ([], DState a 1 0 0x80 0xBF).
Proof.
  intros Ha. unfold decode_lead. zbool. cbn [andb].
  change 0x1F with (2 ^ 5 - 1). rewrite land_low by lia.
  replace ((0xC0 + a) mod 2 ^ 5) with a; [reflexivity |].
  apply Z.mod_unique with 6; lia.
Qed.

Lemma decode_lead_3 (a : Z) :
  0 <= a < 16 ->
  decode_lead (0xE0 + a)
  = ([], DState a 2 0 (if a =? 0 then 0xA0 else 0x80) (if a =? 13 then 0x9F else 0xBF)).
Proof.
  intros Ha. unfold decode_lead. zbool. cbn [andb].
  change 0xF with (2 ^ 4 - 1). rewrite land_low by lia.
  replace ((0xE0 + a) mod 2 ^ 4) with a.
  2:{ apply Z.mod_unique with 14; lia. }
  destruct (Z.eqb_spec a 0), (Z.eqb_spec a 13); zbool; reflexivity.
Qed.

Lemma decode_lead_4 (a : Z) :
  0 <= a < 5 ->
  decode_lead (0xF0 + a)
  = ([], DState a 3 0 (if a =? 0 then 0x90 else 0x80) (if a =? 4 then 0x8F else 0xBF)).
Proof.
  intros Ha. unfold decode_lead. zbool. cbn [andb].
  change 0x7 with (2 ^ 3 - 1). rewrite land_low by lia.
  replace ((0xF0 + a) mod 2 ^ 3) with a.
  2:{ apply Z.mod_unique with 30; lia. }
  destruct (Z.eqb_spec a 0), (Z.eqb_spec a 4); zbool; reflexivity.
Qed.

Lemma decode_byte_init (b : Z) : decode_byte d_init b = decode_lead b.
Proof. reflexivity. Qed.

Ltac next_byte :=
  rewrite decode_from_cons, byte_to_of_Z by lia.

(** Reading back the bytes of one scalar value gives its code units. *)
Lemma decode_code_point (c : Z) (rest : list byte) :
  0 <= c < 0xD800 \/ 0xE000 <= c < 0x110000 ->
  decode_from d_init (utf8_of_code_point c ++ rest)
  = utf16_of_code_point c ++ decode_from d_init rest.
Proof.
  intros Hc. unfold utf8_of_code_point.
  destruct (Z.ltb_spec c 0x80) as [H1 | H1].
  - cbn [app]. next_byte. rewrite decode_byte_init.
    unfold decode_lead. zbool. cbn [fst snd].
    unfold utf16_of_code_point. zbool. reflexivity.
  - destruct (Z.ltb_spec c 0x800) as [H2 | H2].
    + pose proof (Z.div_mod c 64 ltac:(lia)) as E.
      pose proof (Z.mod_pos_bound c 64 ltac:(lia)) as Hr.
      set (a := c / 64) in *. set (x := c mod 64) in *.
      cbn [app]. next_byte. rewrite decode_byte_init, decode_lead_2 by lia. cbn [fst snd].
      next_byte. rewrite decode_continuation by lia. cbn [Z.add]. zbool. cbn [fst snd app].
      replace (a * 64 + x) with c by lia. reflexivity.
    + destruct (Z.ltb_spec c 0x10000) as [H3 | H3].
      * pose proof (Z.div_mod c 64 ltac:(lia)) as E.
        pose proof (Z.mod_pos_bound c 64 ltac:(lia)) as Hr.
        pose proof (Z.div_mod (c / 64) 64 ltac:(lia)) as E'.
        pose proof (Z.mod_pos_bound (c / 64) 64 ltac:(lia)) as Hr'.
        assert (Ea : c / 4096 = c / 64 / 64) by (rewrite Z.div_div by lia; reflexivity).
        rewrite Ea.
        set (q := c / 64) in *. set (x := c mod 64) in *.
        set (a := q / 64) in *. set (m := q mod 64) in *.
        cbn [app]. next_byte. rewrite decode_byte_init, decode_lead_3 by lia. cbn [fst snd].
        next_byte.
        rewrite decode_continuation
          by (try lia; destruct (Z.eqb_spec a 0), (Z.eqb_spec a 13); lia).
        cbn [Z.add]. zbool. cbn [fst snd app].
        next_byte. rewrite decode_continuation by lia. cbn [Z.add]. zbool. cbn [fst snd app].
        replace ((a * 64 + m) * 64 + x) with c by lia. reflexivity.
      * pose proof (Z.div_mod c 64 ltac:(lia)) as E.
        pose proof (Z.mod_pos_bound c 64 ltac:(lia)) as Hr.
        pose proof (Z.div_mod (c / 64) 64 ltac:(lia)) as E'.
        pose proof (Z.mod_pos_bound (c / 64) 64 ltac:(lia)) as Hr'.
        pose proof (Z.div_mod (c / 64 / 64) 64 ltac:(lia)) as E''.
        pose proof (Z.mod_pos_bound (c / 64 / 64) 64 ltac:(lia)) as Hr''.
        assert (Ea : c / 4096 = c / 64 / 64) by (rewrite Z.div_div by lia; reflexivity).
        assert (Eb : c / 262144 = c / 64 / 64 / 64)
          by (rewrite !Z.div_div by lia; reflexivity).
        rewrite Ea, Eb.
        set (q := c / 64) in *. set (x := c mod 64) in *.
        set (p := q / 64) in *. set (m := q mod 64) in *.
        set (a := p / 64) in *. set (n := p mod 64) in *.
        cbn [app]. next_byte. rewrite decode_byte_init, decode_lead_4 by lia. cbn [fst snd].
        next_byte.
        rewrite decode_continuation
          by (try lia; destruct (Z.eqb_spec a 0), (Z.eqb_spec a 4); lia).
        cbn [Z.add]. zbool. cbn [fst snd app].
        next_byte. rewrite decode_continuation by lia. cbn [Z.add]. zbool. cbn [fst snd app].
        next_byte. rewrite decode_continuation by lia. cbn [Z.add]. zbool. cbn [fst snd app].
        replace (((a * 64 + n) * 64 + m) * 64 + x) with c by lia. reflexivity.
Qed.

Lemma utf16_of_pair (u v : Z) :
  0xD800 <= u <= 0xDBFF -> 0xDC00 <= v <= 0xDFFF ->
  utf16_of_code_point (0x10000 + (u - 0xD800) * 1024 + (v - 0xDC00)) = [u; v].
Proof.
  intros Hu Hv. unfold utf16_of_code_point. zbool.
  replace (0x10000 + (u - 0xD800) * 1024 + (v - 0xDC00) - 0x10000)
    with ((u - 0xD800) * 1024 + (v - 0xDC00)) by lia.
  replace (((u - 0xD800) * 1024 + (v - 0xDC00)) / 1024) with (u - 0xD800)
    by (apply Z.div_unique with (v - 0xDC00); lia).
  replace (((u - 0xD800) * 1024 + (v - 0xDC00)) mod 1024) with (v - 0xDC00)
    by (apply Z.mod_unique with (u - 0xD800); lia).
  f_equal; [lia | f_equal; lia].
Qed.

Lemma utf8_round_trip_bounded (n : nat) (s : list Z) :
  (length s <= n)%nat -> well_formed s = true ->
  decode_from d_init (utf8_encode s) = s.
Proof.
  revert s. induction n as [| n IH]; intros s Hlen Hwf.
  - destruct s; [reflexivity | cbn in Hlen; lia].
  - destruct s as [| u rest]; [reflexivity |].
    cbn [well_formed utf8_encode] in *. cbn [length] in Hlen.
    apply andb_prop in Hwf as [Hrange Hwf]. apply andb_prop in Hrange as [Hlo Hhi].
    apply Z.leb_le in Hlo. apply Z.ltb_lt in Hhi.
    unfold is_high_surrogate, is_low_surrogate in *.
    destruct ((0xD800 <=? u) && (u <=? 0xDBFF)) eqn:Eh.
    + apply andb_prop in Eh as [E1 E2]. apply Z.leb_le in E1, E2.
      destruct rest as [| v rest']; [discriminate |].
      apply andb_prop in Hwf as [Hv Hwf]. rewrite Hv.
      apply andb_prop in Hv as [E3 E4]. apply Z.leb_le in E3, E4.
      rewrite decode_code_point by lia. rewrite utf16_of_pair by lia.
      cbn [app length] in *. rewrite IH; [reflexivity | lia | exact Hwf].
    + apply andb_prop in Hwf as [Hnl Hwf]. apply negb_true_iff in Hnl. rewrite Hnl.
      apply andb_false_iff in Eh. apply andb_false_iff in Hnl.
      rewrite decode_code_point.
      * unfold utf16_of_code_point. zbool. cbn [app].
        rewrite IH; [reflexivity | lia | exact Hwf].
      * rewrite !Z.leb_gt in Eh, Hnl. lia.
Qed.

(** A string without unpaired surrogate is read back as it was written. *)
Lemma utf8_round_trip (s : list Z) :
  well_formed s = true -> utf8_decode (utf8_encode s) = s.
Proof. apply (utf8_round_trip_bounded (length s)). lia. Qed.

(** An unpaired surrogate is written as U+FFFD and comes back as U+FFFD. *)
Lemma utf8_lone_surrogate :
  utf8_decode (utf8_encode [0xD800]) = [0xFFFD].
Proof. vm_compute. reflexivity. Qed.

End Utf8.

(** ** The credential vault *)

Section Vault.

Import JSString Encoding AuthRoutes Aead.
Context {platform : Platform}.

Lemma randomBytes_length (entropy : nat -> byte) (n : nat) :
  length (randomBytes entropy n) = n.
Proof. unfold randomBytes. rewrite length_map, length_seq. reflexivity. Qed.

(** The three fields of a blob, as [decryptNasPassword] cuts them. *)
Lemma blob_fields (iv tag ct : list byte) :
  length iv = 12%nat -> length tag = 16%nat ->
  firstn 12 (iv ++ tag ++ ct) = iv /\
  firstn 16 (skipn 12 (iv ++ tag ++ ct)) = tag /\
  skipn 28 (iv ++ tag ++ ct) = ct.
Proof.
  intros Hiv Htag.
  pose proof (take_app_length iv (tag ++ ct)) as H1. rewrite Hiv in H1.
  pose proof (drop_app_length iv (tag ++ ct)) as H2. rewrite Hiv in H2.
  pose proof (take_app_length tag ct) as H3. rewrite Htag in H3.
  pose proof (drop_app_length (iv ++ tag) ct) as H4.
  rewrite length_app, Hiv, Htag, <- app_assoc in H4. cbn [Nat.add] in H4.
  rewrite H1, H2, H3, H4. auto.
Qed.

Lemma decryptNasPassword_fields (iv tag ct key : list byte) :
  length iv = 12%nat -> length tag = 16%nat ->
  decryptNasPassword (iv ++ tag ++ ct) key
  = match gcm_decrypt key iv tag ct with
    | Ok plain => Ok (utf8_decode plain)
    | Throw e => Throw e
    end.
Proof.
  intros Hiv Htag. unfold decryptNasPassword.
  destruct (blob_fields iv tag ct Hiv Htag) as (-> & -> & ->). reflexivity.
Qed.

Lemma deriveNasCredKey_length (masterSecret username : list Z) :
  length (deriveNasCredKey masterSecret username) = 32%nat.
Proof. apply sha256_spec_length. Qed.

Section WithLaws.
Context {laws : Laws platform}.

Lemma encryptNasPassword_run (entropy : nat -> byte) (password : list Z) (key : list byte) :
  length key = 32%nat ->
  exists ct tag,
    gcm_encrypt key (randomBytes entropy 12) (utf8_encode password) = Ok (ct, tag) /\
    length tag = 16%nat /\
    encryptNasPassword entropy password key = Ok (randomBytes entropy 12 ++ tag ++ ct).
Proof.
  intros Hkey.
  destruct (encrypt_ok key (randomBytes entropy 12) (utf8_encode password) Hkey
              (randomBytes_length entropy 12)) as (ct & tag & E).
  exists ct, tag. split; [exact E |]. split; [exact (tag_length _ _ _ _ _ E) |].
  unfold encryptNasPassword. rewrite E. reflexivity.
Qed.

(** X13: sealing and unsealing.  Under a 32-byte key, [encryptNasPassword]
    returns the 12 random bytes of the nonce, then the 16 bytes of the tag,
    then the ciphertext, and [decryptNasPassword] under the same key returns
    the password as UTF-8 reads it back: the password itself when it has no
    unpaired surrogate. *)
Theorem sealed_password_is_read_back
        (entropy : nat -> byte) (password : list Z) (key : list byte) :
  length key = 32%nat ->
  exists ct tag,
    encryptNasPassword entropy password key = Ok (randomBytes entropy 12 ++ tag ++ ct) /\
    length (randomBytes entropy 12) = 12%nat /\ length tag = 16%nat /\
    gcm_encrypt key (randomBytes entropy 12) (utf8_encode password) = Ok (ct, tag) /\
    decryptNasPassword (randomBytes entropy 12 ++ tag ++ ct) key
    = Ok (utf8_decode (utf8_encode password)) /\
    (well_formed password = true ->
     decryptNasPassword (randomBytes entropy 12 ++ tag ++ ct) key = Ok password).
Proof.
  intros Hkey.
  destruct (encryptNasPassword_run entropy password key Hkey) as (ct & tag & E & Htag & Eb).
  exists ct, tag. split; [exact Eb |]. split; [apply randomBytes_length |].
  split; [exact Htag |]. split; [exact E |].
  assert (Hd : decryptNasPassword (randomBytes entropy 12 ++ tag ++ ct) key
               = Ok (utf8_decode (utf8_encode password))).
  { rewrite decryptNasPassword_fields by (apply randomBytes_length || exact Htag).
    rewrite (decrypt_encrypt _ _ _ _ _ E). reflexivity. }
  split; [exact Hd |]. intros Hwf. rewrite Hd, utf8_round_trip by exact Hwf. reflexivity.
Qed.


Section WithDetection.
Context {detection : Detects platform}.

Lemma flip_bit_length (i : nat) (bs : list byte) : length (flip_bit i bs) = length bs.
Proof. unfold flip_bit. apply length_alter. Qed.

Lemma flip_bit_shift (i k : nat) (l1 l2 : list byte) :
  length l1 = k -> (8 * k <= i)%nat ->
  flip_bit i (l1 ++ l2) = l1 ++ flip_bit (i - 8 * k) l2.
Proof.
  intros Hk Hi. unfold flip_bit.
  assert (E : exists j, i = (8 * k + j)%nat) by (exists (i - 8 * k)%nat; lia).
  destruct E as [j ->].
  replace (8 * k + j - 8 * k)%nat with j by lia.
  replace ((8 * k + j) mod 8)%nat with (j mod 8)%nat.
  2:{ rewrite (Nat.mul_comm 8 k), (Nat.add_comm (k * 8) j), Nat.Div0.mod_add. reflexivity. }
  replace ((8 * k + j) / 8)%nat with (length l1 + j / 8)%nat.
  2:{ rewrite Hk, (Nat.mul_comm 8 k), (Nat.add_comm (k * 8) j), Nat.div_add by lia. lia. }
  apply alter_app_r.
Qed.

Lemma flip_bit_within (i : nat) (l1 l2 : list byte) :
  (i < 8 * length l1)%nat -> flip_bit i (l1 ++ l2) = flip_bit i l1 ++ l2.
Proof.
  intros Hi. unfold flip_bit. apply alter_app_l.
  apply Nat.Div0.div_lt_upper_bound. lia.
Qed.

(** X15: a blob with one bit inverted is not unsealed.  When the cipher
    rejects a nonce, tag or ciphertext with one bit changed, inverting any
    single bit of a blob sealed by [encryptNasPassword] makes
    [decryptNasPassword] throw under the same key, and the credentials route
    answers 500 "Failed to decrypt credentials" for such a stored blob: no
    password is returned. *)
Theorem tampered_blob_is_rejected
        (env : Env) (entropy : nat -> byte) (password : list Z) (userId username : list Z)
        (blob : list byte) (i : nat) (w : World) :
  let key := deriveNasCredKey (master_secret env) (cleanUsername username) in
  encryptNasPassword entropy password key = Ok blob ->
  (i < 8 * length blob)%nat ->
  (exists e, decryptNasPassword (flip_bit i blob) key = Throw e) /\
  (userKVStore (db w) !! (userId, js "nas-credentials") = Some (flip_bit i blob) ->
   fst (get_nas_credentials env userId username w)
   = Ok {| code := 500; body := BError (js "Failed to decrypt credentials") |}).
Proof.
  intros key Eb Hi.
  destruct (encryptNasPassword_run entropy password key (deriveNasCredKey_length _ _))
    as (ct & tag & E & Htag & Eb').
  rewrite Eb in Eb'.
  pose proof (f_equal (fun r => match r with Ok b => b | Throw _ => blob end) Eb') as Hb.
  cbv beta iota in Hb. subst blob. clear Eb'.
  pose proof (randomBytes_length entropy 12) as Hiv.
  set (iv := randomBytes entropy 12) in *.
  assert (Hthrow : exists e, decryptNasPassword (flip_bit i (iv ++ tag ++ ct)) key = Throw e).
  { rewrite !length_app, Hiv, Htag in Hi.
    destruct (Nat.lt_ge_cases i (8 * 12)) as [H1 | H1].
    - rewrite flip_bit_within by lia.
      rewrite decryptNasPassword_fields by (rewrite ?flip_bit_length; assumption).
      destruct (detects key iv (utf8_encode password) ct tag (flip_bit i iv) tag ct E)
        as [e He].
      + left. split; [exists i; split; [lia | reflexivity] | auto].
      + exists e. rewrite He. reflexivity.
    - rewrite (flip_bit_shift i 12) by (assumption || lia).
      destruct (Nat.lt_ge_cases (i - 8 * 12) (8 * 16)) as [H2 | H2].
      + rewrite flip_bit_within by lia.
        rewrite decryptNasPassword_fields by (rewrite ?flip_bit_length; assumption).
        destruct (detects key iv (utf8_encode password) ct tag iv
                    (flip_bit (i - 8 * 12) tag) ct E) as [e He].
        * right. left. split; [reflexivity |].
          split; [exists (i - 8 * 12)%nat; split; [lia | reflexivity] | reflexivity].
        * exists e. rewrite He. reflexivity.
      + rewrite (flip_bit_shift (i - 8 * 12) 16) by (assumption || lia).
        rewrite decryptNasPassword_fields by assumption.
        destruct (detects key iv (utf8_encode password) ct tag iv tag
                    (flip_bit (i - 8 * 12 - 8 * 16) ct) E) as [e He].
        * right. right. split; [reflexivity |]. split; [reflexivity |].
          exists (i - 8 * 12 - 8 * 16)%nat. split; [lia | reflexivity].
        * exists e. rewrite He. reflexivity. }
  split; [exact Hthrow |].
  intros Hkv. destruct Hthrow as [e He].
  unfold get_nas_credentials, kv_findUnique. exec. rewrite Hkv. exec.
  fold key. rewrite He. reflexivity.
Qed.

End WithDetection.
End WithLaws.
End Vault.

(** ** The concrete cipher meets the contract *)

Section TestCipher.

Import AuthRoutes TestPlatform Aead.

Lemma lxor_byte_range (a b : Z) :
  0 <= a < 256 -> 0 <= b < 256 -> 0 <= Z.lxor a b < 256.
Proof.
  intros Ha Hb. split; [apply Z.lxor_nonneg; lia |].
  destruct (Z.eq_dec (Z.lxor a b) 0) as [-> | Hne]; [lia |].
  assert (Hpos : 0 < Z.lxor a b) by (pose proof (proj2 (Z.lxor_nonneg a b)); lia).
  change 256 with (2 ^ 8). apply Z.log2_lt_pow2; [exact Hpos |].
  pose proof (Z.log2_lxor a b ltac:(lia) ltac:(lia)) as Hl.
  assert (Hla : Z.log2 a < 8).
  { destruct (Z.eq_dec a 0) as [-> | ?]; [cbn; lia |]. apply Z.log2_lt_pow2; lia. }
  assert (Hlb : Z.log2 b < 8).
  { destruct (Z.eq_dec b 0) as [-> | ?]; [cbn; lia |]. apply Z.log2_lt_pow2; lia. }
  lia.
Qed.

Lemma xor_bytes_to_Z (a b : byte) :
  byte_to_Z (xor_bytes a b) = Z.lxor (byte_to_Z a) (byte_to_Z b).
Proof.
  unfold xor_bytes. apply byte_to_of_Z, lxor_byte_range; apply byte_to_Z_range.
Qed.

Lemma byte_to_Z_inj (a b : byte) : byte_to_Z a = byte_to_Z b -> a = b.
Proof. intros H. rewrite <- (byte_of_to_Z a), <- (byte_of_to_Z b), H. reflexivity. Qed.

Lemma xor_bytes_involutive (k b : byte) : xor_bytes k (xor_bytes k b) = b.
Proof.
  apply byte_to_Z_inj. rewrite !xor_bytes_to_Z.
  rewrite <- Z.lxor_assoc, Z.lxor_nilpotent, Z.lxor_0_l. reflexivity.
Qed.

Lemma xor_bytes_cancel_l (k a b : byte) : xor_bytes k a = xor_bytes k b -> a = b.
Proof.
  intros H. rewrite <- (xor_bytes_involutive k a), <- (xor_bytes_involutive k b), H.
  reflexivity.
Qed.

Lemma lxor_twice (x k : Z) : Z.lxor (Z.lxor x k) k = x.
Proof. rewrite Z.lxor_assoc, Z.lxor_nilpotent, Z.lxor_0_r. reflexivity. Qed.

Lemma xor_bytes_cancel_r (k a b : byte) : xor_bytes a k = xor_bytes b k -> a = b.
Proof.
  intros H. apply (f_equal byte_to_Z) in H. rewrite !xor_bytes_to_Z in H.
  apply byte_to_Z_inj.
  rewrite <- (lxor_twice (byte_to_Z a) (byte_to_Z k)), H. apply lxor_twice.
Qed.

Lemma flip_bit_in_byte_ne (k : nat) (b : byte) : (k < 8)%nat -> flip_bit_in_byte k b <> b.
Proof.
  intros Hk H. apply (f_equal byte_to_Z) in H. unfold flip_bit_in_byte in H.
  assert (Hp : 0 <= 2 ^ Z.of_nat k < 256).
  { split; [apply Z.pow_nonneg; lia |]. change 256 with (2 ^ 8).
    apply Z.pow_lt_mono_r; lia. }
  rewrite byte_to_of_Z in H by (apply lxor_byte_range; [apply byte_to_Z_range | exact Hp]).
  assert (E : 2 ^ Z.of_nat k = 0).
  { rewrite <- (Z.lxor_nilpotent (byte_to_Z b)). rewrite <- H at 1.
    rewrite (Z.lxor_comm (byte_to_Z b) (2 ^ Z.of_nat k)). symmetry. apply lxor_twice. }
  pose proof (Z.pow_pos_nonneg 2 (Z.of_nat k) ltac:(lia) ltac:(lia)). lia.
Qed.

Lemma checksum_app (l m : list byte) :
  checksum (l ++ m) = xor_bytes (checksum l) (checksum m).
Proof.
  unfold checksum. induction l as [| b l IH]; cbn [app fold_right].
  - apply byte_to_Z_inj. rewrite xor_bytes_to_Z. reflexivity.
  - rewrite IH. apply byte_to_Z_inj. rewrite !xor_bytes_to_Z, Z.lxor_assoc. reflexivity.
Qed.

Lemma checksum_alter_ne (k j : nat) (l : list byte) :
  (k < 8)%nat -> (j < length l)%nat ->
  checksum (alter (flip_bit_in_byte k) j l) <> checksum l.
Proof.
  intros Hk. revert j. induction l as [| b l IH]; intros j Hj; [cbn in Hj; lia |].
  destruct j as [| j]; cbn [alter list_alter checksum fold_right].
  - intros H. apply xor_bytes_cancel_r in H. exact (flip_bit_in_byte_ne k b Hk H).
  - intros H. apply xor_bytes_cancel_l in H. apply (IH j); [cbn in Hj; lia | exact H].
Qed.

Lemma checksum_flip_ne (i : nat) (l : list byte) :
  (i < 8 * length l)%nat -> checksum (flip_bit i l) <> checksum l.
Proof.
  intros Hi. unfold flip_bit. apply checksum_alter_ne.
  - apply Nat.mod_upper_bound. lia.
  - apply Nat.Div0.div_lt_upper_bound. lia.
Qed.

Lemma flip_bit_ne (i : nat) (l : list byte) :
  (i < 8 * length l)%nat -> flip_bit i l <> l.
Proof. intros Hi H. apply (checksum_flip_ne i l Hi). rewrite H. reflexivity. Qed.

Lemma byte_list_eqb_eq (a b : list byte) : byte_list_eqb a b = true <-> a = b.
Proof.
  unfold byte_list_eqb. split.
  - intros H. apply andb_prop in H as [Hl Hf]. apply Nat.eqb_eq in Hl.
    revert b Hl Hf. induction a as [| x a IH]; intros [| y b] Hl Hf;
      try discriminate Hl; [reflexivity |].
    cbn in Hf. apply andb_prop in Hf as [Hxy Hf].
    apply Byte.byte_dec_bl in Hxy. subst y. f_equal. apply IH; [cbn in Hl; lia | exact Hf].
  - intros <-. rewrite Nat.eqb_refl. cbn [andb].
    induction a as [| x a IH]; [reflexivity |].
    cbn. rewrite IH, andb_true_r. apply Byte.byte_dec_lb. reflexivity.
Qed.

Lemma map_xor_involutive (k : byte) (l : list byte) :
  map (xor_bytes k) (map (xor_bytes k) l) = l.
Proof.
  induction l as [| b l IH]; [reflexivity |].
  cbn [map]. rewrite xor_bytes_involutive, IH. reflexivity.
Qed.

Lemma test_cipher_laws : Laws TestPlatform.platform.
Proof.
  split; cbn [gcm_encrypt gcm_decrypt platform]; unfold seal, open.
  - intros key iv pt Hk _. rewrite Hk. cbn. eauto.
  - intros key iv pt ct tag. destruct (length key =? 32)%nat; [| discriminate].
    intros [= <- <-]. reflexivity.
  - intros key iv pt ct tag. destruct (length key =? 32)%nat; [| discriminate].
    intros [= <- <-].
    rewrite (proj2 (byte_list_eqb_eq _ _) eq_refl), map_xor_involutive. reflexivity.
Qed.

Lemma test_cipher_detects : Detects TestPlatform.platform.
Proof.
  split; cbn [gcm_encrypt gcm_decrypt platform]; unfold seal, open.
  intros key iv pt ct tag iv' tag' ct'.
  destruct (length key =? 32)%nat; [| discriminate].
  intros [= <- <-].
  set (ct := map (xor_bytes (checksum key)) pt).
  assert (Hno : forall t i' c', t <> tag_of key i' c' ->
            exists e, (if byte_list_eqb t (tag_of key i' c')
                       then Ok (map (xor_bytes (checksum key)) c') else Throw bad_tag)
                      = Throw e).
  { intros t i' c' Hne. destruct (byte_list_eqb t (tag_of key i' c')) eqn:E.
    - apply byte_list_eqb_eq in E. contradiction.
    - eauto. }
  intros [((i & Hi & ->) & -> & ->) | [(-> & (i & Hi & ->) & ->) | (-> & -> & (i & Hi & ->))]];
    apply Hno.
  - unfold tag_of. intros [= H].
    rewrite <- flip_bit_within in H by exact Hi.
    symmetry in H. revert H. apply checksum_flip_ne. rewrite length_app. lia.
  - apply flip_bit_ne. exact Hi.
  - unfold tag_of. intros [= H].
    assert (Hflip : iv ++ flip_bit i ct = flip_bit (i + 8 * length iv) (iv ++ ct)).
    { rewrite (flip_bit_shift (i + 8 * length iv) (length iv)) by (reflexivity || lia).
      do 2 f_equal. lia. }
    rewrite Hflip in H. symmetry in H. revert H.
    apply checksum_flip_ne. rewrite length_app. lia.
Qed.

End TestCipher.

(** X13, sealing "pw" under alice's key. *)
Lemma sealed_password_is_read_back_witness :
  exists ct tag,
    AuthRoutes.encryptNasPassword (platform := TestPlatform.platform)
      (fun _ => x07) (js "pw") TestVault.test_key
    = AuthRoutes.Ok (AuthRoutes.randomBytes (fun _ => x07) 12 ++ tag ++ ct)
    /\ length tag = 16%nat
    /\ AuthRoutes.decryptNasPassword (platform := TestPlatform.platform)
         (AuthRoutes.randomBytes (fun _ => x07) 12 ++ tag ++ ct) TestVault.test_key
       = AuthRoutes.Ok (js "pw").
Proof.
  destruct (sealed_password_is_read_back (platform := TestPlatform.platform)
              (laws := test_cipher_laws) (fun _ => x07) (js "pw") TestVault.test_key
              (deriveNasCredKey_length (js "master") (js "alice")))
    as (ct & tag & E & _ & Htag & _ & _ & Hd).
  exists ct, tag. split; [exact E |]. split; [exact Htag |].
  apply Hd. reflexivity.
Defined.


Lemma test_blob_sealed :
  AuthRoutes.encryptNasPassword (platform := TestPlatform.platform) (fun _ => x07) (js "pw")
    (AuthRoutes.deriveNasCredKey (AuthRoutes.master_secret TestData.test_env)
       (Ldap.cleanUsername (js "alice")))
  = AuthRoutes.Ok TestVault.test_blob.
Proof. vm_compute. reflexivity. Qed.

(** X15, bit 100 of alice's blob (a bit of the tag) inverted. *)
Lemma tampered_blob_is_rejected_witness :
  (exists e,
      AuthRoutes.decryptNasPassword (platform := TestPlatform.platform)
        (Aead.flip_bit 100 TestVault.test_blob)
        (AuthRoutes.deriveNasCredKey (AuthRoutes.master_secret TestData.test_env)
           (Ldap.cleanUsername (js "alice")))
      = AuthRoutes.Throw e)
  /\ fst (AuthRoutes.get_nas_credentials (platform := TestPlatform.platform)
            TestData.test_env [99] (js "alice") (TestPlatform.start TestVault.tampered_db))
     = AuthRoutes.Ok
         {| AuthRoutes.code := 500;
            AuthRoutes.body := AuthRoutes.BError (js "Failed to decrypt credentials") |}.
Proof.
  destruct (tampered_blob_is_rejected (platform := TestPlatform.platform)
              (laws := test_cipher_laws) (detection := test_cipher_detects)
              TestData.test_env (fun _ => x07) (js "pw") [99] (js "alice")
              TestVault.test_blob 100 (TestPlatform.start TestVault.tampered_db)
              test_blob_sealed
              ltac:(apply Nat.ltb_lt; vm_compute; reflexivity))
    as [Hthrow Hroute].
  split; [exact Hthrow |]. apply Hroute. vm_compute. reflexivity.
Defined.

(** ** The LDAP module: user names, configuration, failover *)

Section LdapModule.

Import JSString Ldap LdapTrace LdapClients.

Lemma last_separator (sep : Z) (s : list Z) :
  existsb (Z.eqb sep) s = true ->
  exists p n, s = p ++ sep :: n /\ existsb (Z.eqb sep) n = false.
Proof.
  induction s as [| c s IH]; [discriminate |].
  cbn [existsb]. destruct (existsb (Z.eqb sep) s) eqn:Es.
  - intros _. destruct (IH eq_refl) as (p & n & -> & Hn).
    exists (c :: p), n. split; [reflexivity | exact Hn].
  - rewrite orb_false_r. intros Hc. apply Z.eqb_eq in Hc. subst c.
    exists [], s. split; [reflexivity | exact Es].
Qed.

(** X16: [cleanUsername] returns what follows the last backslash of its
    argument, and the argument itself when it has none: the result is a
    suffix of the argument, contains no backslash, and cleaning it again
    changes nothing.  A name that ends with a backslash is cleaned to the
    empty string. *)
Theorem cleanUsername_keeps_what_follows_the_last_backslash (username : list Z) :
  (exists prefix, username = prefix ++ cleanUsername username) /\
  includes (cleanUsername username) [backslash] = false /\
  cleanUsername (cleanUsername username) = cleanUsername username /\
  (forall prefix name,
      includes name [backslash] = false ->
      cleanUsername (prefix ++ [backslash] ++ name) = name) /\
  (forall prefix, cleanUsername (prefix ++ [backslash]) = []).
Proof.
  split; [| split; [apply cleanUsername_no_backslash |
            split; [apply cleanUsername_idempotent |
            split; [exact cleanUsername_strips |]]]].
  - destruct (includes username [backslash]) eqn:E.
    + rewrite includes_unit in E.
      destruct (last_separator backslash username E) as (p & n & -> & Hn).
      exists (p ++ [backslash]).
      rewrite <- includes_unit in Hn.
      change (p ++ backslash :: n) with (p ++ [backslash] ++ n).
      rewrite (cleanUsername_strips p n Hn), <- app_assoc. reflexivity.
    + exists []. rewrite (cleanUsername_bare username E). reflexivity.
  - intros prefix. exact (cleanUsername_strips prefix [] eq_refl).
Qed.


(** X18: [authenticate] reports success exactly when, for some configured
    server, the bind of the client created for it and the release that
    follows both resolve.  A bind that resolves is not enough. *)
Theorem authenticate_succeeds_iff_an_endpoint_accepts
        (env : LdapEnv) (dir : Directory) (username password : list Z) :
  success (fst (authenticate env dir username password)) = true <->
  exists i server,
    servers (getConfig env) !! i = Some server /\
    accepts dir (bind_identity env username) password i server = true.
Proof.
  unfold authenticate, bind_identity.
  exact (try_servers_success dir (cleanUsername username)
           (netbios (getConfig env) ++ [backslash] ++ cleanUsername username)
           password 0 (servers (getConfig env))).
Qed.

(** X19: failover.  When the first configured server cannot be reached (its
    bind throws an error whose message mentions "connect", "timeout" or
    "ECONNREFUSED") and the second accepts, [authenticate] succeeds: it
    warns "Server ... unavailable: ..." for the first, releases its client,
    binds on the second and stops there. *)
Theorem authenticate_fails_over
        (env : LdapEnv) (dir : Directory) (username password : list Z)
        (s1 s2 : list Z) (rest : list (list Z)) (err : JsError) :
  servers (getConfig env) = s1 :: s2 :: rest ->
  ep_bind (dir 0%nat (js "ldap://" ++ s1)) (bind_identity env username) password = Some err ->
  is_connection_error err = true ->
  accepts dir (bind_identity env username) password 1 s2 = true ->
  authenticate env dir username password
  = ({| success := true; error := None |},
     [ Connect (js "ldap://" ++ s1);
       Bind (js "ldap://" ++ s1) (bind_identity env username) password;
       Emit {| level := Warn; module_ := js "ldap";
               text := js "Server " ++ s1 ++ js " unavailable: " ++ error_text err |};
       Unbind (js "ldap://" ++ s1);
       Connect (js "ldap://" ++ s2);
       Bind (js "ldap://" ++ s2) (bind_identity env username) password;
       Unbind (js "ldap://" ++ s2);
       Emit {| level := Log; module_ := js "ldap";
               text := js "Auth success: " ++ cleanUsername username ++ js " via " ++ s2 |} ]).
Proof.
  unfold authenticate, bind_identity, accepts, is_connection_error.
  intros -> Hb Hc Ha. cbn [try_servers]. rewrite Hb.
  destruct (ep_bind (dir 1%nat (js "ldap://" ++ s2)) _ password); [discriminate |].
  destruct (ep_unbind (dir 1%nat (js "ldap://" ++ s2))); [discriminate |].
  unfold on_error. rewrite Hc. reflexivity.
Qed.

Lemma incl_app_app {A} (a b c d : list A) : incl a c -> incl b d -> incl (a ++ b) (c ++ d).
Proof.
  intros H1 H2 x Hx. apply in_app_iff in Hx. apply in_app_iff.
  destruct Hx; [left; apply H1 | right; apply H2]; assumption.
Qed.



End LdapModule.

(** X16, for GS-AD\alice. *)
Lemma cleanUsername_keeps_what_follows_the_last_backslash_witness :
  JSString.includes (js "alice") [backslash] = false /\
  Ldap.cleanUsername (js "GS-AD" ++ [backslash] ++ js "alice") = js "alice".
Proof.
  split; [reflexivity |].
  destruct (cleanUsername_keeps_what_follows_the_last_backslash (js "GS-AD\alice"))
    as (_ & _ & _ & Hstrip & _).
  exact (Hstrip (js "GS-AD") (js "alice") eq_refl).
Defined.


(** X19, with the default servers, the first one refusing the connection. *)
Lemma authenticate_fails_over_witness :
  fst (Ldap.authenticate LdapTrace.no_env LdapClients.first_down (js "alice") (js "pw"))
  = {| Ldap.success := true; Ldap.error := None |}
  /\ LdapClients.logged Ldap.Warn
       (snd (Ldap.authenticate LdapTrace.no_env LdapClients.first_down (js "alice") (js "pw")))
     = [js "Server 192.168.1.230 unavailable: connect ECONNREFUSED 192.168.1.230:389"].
Proof.
  rewrite (authenticate_fails_over LdapTrace.no_env LdapClients.first_down
             (js "alice") (js "pw") (js "192.168.1.230") (js "192.168.1.231") []
             {| Ldap.err_name := js "Error";
                Ldap.err_message := js "connect ECONNREFUSED 192.168.1.230:389" |}
             ltac:(vm_compute; reflexivity) eq_refl
             ltac:(vm_compute; reflexivity) eq_refl).
  split; [reflexivity | vm_compute; reflexivity].
Defined.

(** ** The configuration *)

Section LdapConfiguration.

Import JSString Ldap LdapClients.

Lemma trim_start_head (s : list Z) (c : Z) :
  head (trim_start s) = Some c -> is_space c = false.
Proof.
  induction s as [| x s IH]; cbn [trim_start]; [discriminate |].
  destruct (is_space x) eqn:E; [exact IH |].
  cbn. intros [= <-]. exact E.
Qed.

Lemma trim_start_suffix (s : list Z) : exists sp, s = sp ++ trim_start s.
Proof.
  induction s as [| x s [sp IH]]; [exists []; reflexivity |].
  cbn [trim_start]. destruct (is_space x).
  - exists (x :: sp). cbn. rewrite <- IH. reflexivity.
  - exists []. reflexivity.
Qed.

Lemma trim_ends (s : list Z) (c : Z) :
  (first_unit (trim s) = Some c -> is_space c = false) /\
  (last_unit (trim s) = Some c -> is_space c = false).
Proof.
  unfold first_unit, last_unit, trim. split.
  - destruct (trim_start_suffix (rev (trim_start s))) as [sp E].
    set (X := trim_start (rev (trim_start s))) in *.
    apply (f_equal (@rev Z)) in E. rewrite rev_involutive, rev_app_distr in E.
    intros H. apply (trim_start_head s c). rewrite E.
    destruct (rev X) as [| y l]; [discriminate |]. exact H.
  - rewrite rev_involutive. apply trim_start_head.
Qed.

Lemma split_length (sep : Z) (s : list Z) :
  length (split sep s) = S (count_occ Z.eq_dec s sep).
Proof.
  induction s as [| c s IH]; [reflexivity |].
  cbn [split count_occ]. destruct (Z.eqb_spec c sep) as [-> | Hne].
  - destruct (Z.eq_dec sep sep); [| contradiction]. cbn. rewrite IH. reflexivity.
  - destruct (Z.eq_dec c sep); [contradiction |].
    destruct (split sep s) as [| seg segs]; [discriminate IH |]. exact IH.
Qed.

(** X21: the server list of [getConfig].  It is read from LDAP_SERVERS, or
    from the built-in default when the variable is unset or empty; it has
    one entry per comma plus one (never none, and empty entries are kept);
    and no entry begins or ends with white space. *)
Theorem getConfig_servers (env : LdapEnv) :
  let value := or_default (LDAP_SERVERS env) (js "192.168.1.230,192.168.1.231") in
  length (servers (getConfig env)) = S (count_occ Z.eq_dec value 44) /\
  (forall server c,
      In server (servers (getConfig env)) ->
      (first_unit server = Some c -> is_space c = false) /\
      (last_unit server = Some c -> is_space c = false)) /\
  (LDAP_SERVERS env = None \/ LDAP_SERVERS env = Some [] ->
   servers (getConfig env) = [js "192.168.1.230"; js "192.168.1.231"]).
Proof.
  cbv zeta. unfold getConfig. cbn [servers]. split; [| split].
  - rewrite length_map. apply split_length.
  - intros server c Hin. apply in_map_iff in Hin as (raw & <- & _). apply trim_ends.
  - intros [-> | ->]; vm_compute; reflexivity.
Qed.

(** X21, for LDAP_SERVERS = " dc1 ,dc2". *)
Lemma getConfig_servers_witness :
  let env := {| LDAP_SERVERS := Some (js " dc1 ,dc2"); LDAP_NETBIOS := None;
                LDAP_DOMAIN := None; LDAP_BASE_DN := None |} in
  servers (getConfig env) = [js "dc1"; js "dc2"] /\
  In (js "dc1") (servers (getConfig env)) /\
  first_unit (js "dc1") = Some 100 /\
  is_space 100 = false.
Proof.
  intros env.
  assert (Hs : servers (getConfig env) = [js "dc1"; js "dc2"]) by (vm_compute; reflexivity).
  assert (Hin : In (js "dc1") (servers (getConfig env))) by (rewrite Hs; left; reflexivity).
  split; [exact Hs |]. split; [exact Hin |]. split; [reflexivity |].
  destruct (getConfig_servers env) as (_ & Hends & _).
  exact (proj1 (Hends (js "dc1") 100 Hin) eq_refl).
Defined.

End LdapConfiguration.

(** ** The 64-bit primitives of the pure-JS SHA-512 *)

Section HalfWords.

Import JS Sha512Web Word64.

Lemma to_uint32_range (x : Z) : 0 <= to_uint32 x < 2 ^ 32.
Proof. unfold to_uint32, two32. apply Z.mod_pos_bound. reflexivity. Qed.

Lemma to_int32_mod (x : Z) : to_int32 x mod 2 ^ 32 = x mod 2 ^ 32.
Proof.
  unfold to_int32, two32. change 4294967296 with (2 ^ 32).
  destruct (x mod 2 ^ 32 <? 2147483648).
  - apply Z.mod_mod. lia.
  - replace (x mod 2 ^ 32 - 2 ^ 32) with (x mod 2 ^ 32 + (-1) * 2 ^ 32) by lia.
    rewrite Z.mod_add by lia. apply Z.mod_mod. lia.
Qed.

Lemma lor_mod_pow2 (a b k : Z) :
  0 <= k -> Z.lor a b mod 2 ^ k = Z.lor (a mod 2 ^ k) (b mod 2 ^ k).
Proof.
  intros Hk. apply Z.bits_inj'. intros i Hi.
  destruct (Z.ltb_spec i k).
  - rewrite Z.mod_pow2_bits_low, !Z.lor_spec, !Z.mod_pow2_bits_low by lia. reflexivity.
  - rewrite Z.mod_pow2_bits_high, Z.lor_spec, !Z.mod_pow2_bits_high by lia. reflexivity.
Qed.

Lemma land_31 (n : Z) : 0 <= n < 32 -> Z.land n 31 = n.
Proof.
  intros Hn. change 31 with (2 ^ 5 - 1). rewrite land_low by lia.
  apply Z.mod_small. lia.
Qed.

(** [x >>> 0] *)
Lemma ushr_0 (x : Z) : ushr x 0 = x mod 2 ^ 32.
Proof. unfold ushr. rewrite Z.shiftr_0_r. reflexivity. Qed.

(** [x >>> n] *)
Lemma ushr_div (x n : Z) : 0 <= n < 32 -> ushr x n = (x mod 2 ^ 32) / 2 ^ n.
Proof.
  intros Hn. unfold ushr, to_uint32, two32. rewrite land_31 by exact Hn.
  apply Z.shiftr_div_pow2. lia.
Qed.

(** [(a | b) >>> 0] *)
Lemma uint32_bor (a b : Z) :
  ushr (bor a b) 0 = Z.lor (a mod 2 ^ 32) (b mod 2 ^ 32).
Proof.
  rewrite ushr_0. unfold bor. rewrite lor_mod_pow2, !to_int32_mod by lia. reflexivity.
Qed.

(** [x << m], up to 2^32 *)
Lemma shl_mod (x m : Z) :
  0 <= m < 32 -> shl x m mod 2 ^ 32 = ((x mod 2 ^ 32) * 2 ^ m) mod 2 ^ 32.
Proof.
  intros Hm. unfold shl. rewrite to_int32_mod, land_31 by exact Hm.
  rewrite Z.shiftl_mul_pow2 by lia.
  rewrite <- Z.mul_mod_idemp_l, to_int32_mod, Z.mul_mod_idemp_l by lia. reflexivity.
Qed.

(** The powers of two on both sides of a cut of a 32-bit half. *)
Lemma pow2_cut (n : Z) :
  0 < n < 32 -> 2 ^ n * 2 ^ (32 - n) = 2 ^ 32 /\ 1 < 2 ^ n /\ 1 < 2 ^ (32 - n).
Proof.
  intros Hn. split; [| split].
  - rewrite <- Z.pow_add_r by lia. f_equal. lia.
  - change 1 with (2 ^ 0). apply Z.pow_lt_mono_r; lia.
  - change 1 with (2 ^ 0). apply Z.pow_lt_mono_r; lia.
Qed.

(** [(a >>> n | b << (32 - n)) >>> 0]: the high bits of [a] below the low
    bits of [b]. *)
Lemma funnel (a b n : Z) :
  0 < n < 32 ->
  ushr (bor (ushr a n) (shl b (32 - n))) 0
  = ((b mod 2 ^ 32) mod 2 ^ n) * 2 ^ (32 - n) + (a mod 2 ^ 32) / 2 ^ n.
Proof.
  intros Hn. destruct (pow2_cut n Hn) as (Hpq & Hp & Hq).
  pose proof (Z.mod_pos_bound a (2 ^ 32) ltac:(lia)) as Ha.
  pose proof (Z.mod_pos_bound b (2 ^ 32) ltac:(lia)) as Hb.
  set (A := a mod 2 ^ 32) in *. set (B := b mod 2 ^ 32) in *.
  rewrite uint32_bor, shl_mod, ushr_div by lia. fold A B.
  assert (HA : 0 <= A / 2 ^ n < 2 ^ (32 - n)).
  { split; [apply Z.div_pos; lia |]. apply Z.div_lt_upper_bound; lia. }
  assert (Hq32 : 2 ^ (32 - n) <= 2 ^ 32) by (apply Z.pow_le_mono_r; lia).
  rewrite (Z.mod_small (A / 2 ^ n)) by lia.
  rewrite <- Hpq at 1. rewrite Z.mul_mod_distr_r by lia.
  rewrite Z.lor_comm.
  rewrite <- (lor_shiftl_low (B mod 2 ^ n) (A / 2 ^ n) (32 - n));
    [rewrite Z.shiftl_mul_pow2 by lia; reflexivity | | lia | exact HA].
  apply Z.mod_pos_bound. lia.
Qed.

Lemma funnel_range (a b n : Z) :
  0 < n < 32 ->
  0 <= ((b mod 2 ^ 32) mod 2 ^ n) * 2 ^ (32 - n) + (a mod 2 ^ 32) / 2 ^ n < 2 ^ 32.
Proof.
  intros Hn. rewrite <- funnel by exact Hn. rewrite ushr_0.
  apply Z.mod_pos_bound. lia.
Qed.

End HalfWords.
Section Words64.

Import JS Sha512Web Word64.

Lemma value_range (h l : Z) : 0 <= value h l < 2 ^ 64.
Proof.
  unfold value. pose proof (to_uint32_range h). pose proof (to_uint32_range l).
  change (2 ^ 64) with (2 ^ 32 * 2 ^ 32). nia.
Qed.

Lemma value_unsigned (h l : Z) :
  0 <= h < 2 ^ 32 -> 0 <= l < 2 ^ 32 -> value h l = h * 2 ^ 32 + l.
Proof.
  intros Hh Hl. unfold value, to_uint32, two32. rewrite !Z.mod_small by lia. reflexivity.
Qed.

(** A rotation to the right moves the low [n] bits to the top. *)
Lemma rotr_closed (v n : Z) :
  0 <= v < 2 ^ 64 -> 0 < n < 64 ->
  rotr v n = (v mod 2 ^ n) * 2 ^ (64 - n) + v / 2 ^ n.
Proof.
  intros Hv Hn. unfold rotr, Sha2Spec.rotr, Sha2Spec.wmod. cbn [Sha2Spec.p_w Sha2Spec.P512].
  assert (Hpq : 2 ^ n * 2 ^ (64 - n) = 2 ^ 64).
  { rewrite <- Z.pow_add_r by lia. f_equal. lia. }
  assert (Hp : 0 < 2 ^ n) by (apply Z.pow_pos_nonneg; lia).
  assert (Hq : 0 < 2 ^ (64 - n)) by (apply Z.pow_pos_nonneg; lia).
  rewrite lor_mod_pow2 by lia.
  rewrite Z.shiftr_div_pow2, Z.shiftl_mul_pow2 by lia.
  assert (Hd : 0 <= v / 2 ^ n < 2 ^ (64 - n)).
  { split; [apply Z.div_pos; lia |]. apply Z.div_lt_upper_bound; lia. }
  assert (Hq64 : 2 ^ (64 - n) <= 2 ^ 64) by (apply Z.pow_le_mono_r; lia).
  rewrite (Z.mod_small (v / 2 ^ n)) by lia.
  rewrite <- Hpq at 1. rewrite Z.mul_mod_distr_r by lia.
  rewrite Z.lor_comm.
  rewrite <- (lor_shiftl_low (v mod 2 ^ n) (v / 2 ^ n) (64 - n));
    [rewrite Z.shiftl_mul_pow2 by lia; reflexivity | | lia | exact Hd].
  apply Z.mod_pos_bound. lia.
Qed.

(** A half cut at bit [n], scaled back into place. *)
Lemma half_cut (x n : Z) :
  0 < n < 32 -> x * 2 ^ (32 - n) = (x / 2 ^ n) * 2 ^ 32 + (x mod 2 ^ n) * 2 ^ (32 - n).
Proof.
  intros Hn. destruct (pow2_cut n Hn) as (Hpq & Hp & Hq).
  rewrite <- Hpq. rewrite (Z.div_mod x (2 ^ n)) at 1 by lia. ring.
Qed.

(** X22 (the two branches of [rotr64]).  For a rotation count between 1 and
    63 other than 32, the pair returned by [rotr64] holds two unsigned
    32-bit halves, and the 64-bit word they form is the word formed by the
    arguments rotated right by that count.  The halves given may be signed
    or unsigned. *)
Theorem rotr64_is_the_rotation (h l n : Z) :
  0 < n < 64 -> n <> 32 ->
  halves (rotr64 h l n) /\
  of_pair (rotr64 h l n) = rotr (value h l) n.
Proof.
  intros Hn Hne. unfold rotr64, of_pair, halves.
  pose proof (value_range h l) as Hv.
  rewrite rotr_closed by assumption.
  unfold value in *. unfold to_uint32, two32 in *. change 4294967296 with (2 ^ 32) in *.
  pose proof (Z.mod_pos_bound h (2 ^ 32) ltac:(lia)) as HH.
  pose proof (Z.mod_pos_bound l (2 ^ 32) ltac:(lia)) as HL.
  destruct (Z.ltb_spec n 32) as [Hlt | Hge]; cbn [fst snd].
  - assert (Hn' : 0 < n < 32) by lia. destruct (pow2_cut n Hn') as (Hpq & Hp & Hq).
    rewrite !funnel by exact Hn'.
    pose proof (funnel_range h l n Hn') as R1. pose proof (funnel_range l h n Hn') as R2.
    split; [split; assumption |].
    rewrite (Z.mod_small _ _ R1), (Z.mod_small _ _ R2).
    set (H := h mod 2 ^ 32) in *. set (L := l mod 2 ^ 32) in *.
    replace (H * 2 ^ 32 + L) with (L + (H * 2 ^ (32 - n)) * 2 ^ n)
      by (rewrite <- Hpq; ring).
    rewrite Z.mod_add, Z.div_add by lia.
    replace (2 ^ (64 - n)) with (2 ^ 32 * 2 ^ (32 - n))
      by (rewrite <- Z.pow_add_r by lia; f_equal; lia).
    rewrite (half_cut H n Hn'). ring.
  - assert (Hn' : 0 < n - 32 < 32) by lia.
    destruct (pow2_cut (n - 32) Hn') as (Hpq & Hp & Hq).
    rewrite !funnel by exact Hn'.
    pose proof (funnel_range h l (n - 32) Hn') as R1.
    pose proof (funnel_range l h (n - 32) Hn') as R2.
    split; [split; assumption |].
    rewrite (Z.mod_small _ _ R1), (Z.mod_small _ _ R2).
    set (H := h mod 2 ^ 32) in *. set (L := l mod 2 ^ 32) in *.
    replace (32 - (n - 32)) with (64 - n) in * by lia.
    replace (2 ^ n) with (2 ^ 32 * 2 ^ (n - 32))
      by (rewrite <- Z.pow_add_r by lia; f_equal; lia).
    rewrite Z.rem_mul_r by lia.
    rewrite <- (Z.div_div _ (2 ^ 32) (2 ^ (n - 32))) by lia.
    replace (H * 2 ^ 32 + L) with (L + H * 2 ^ 32) by ring.
    rewrite Z.mod_add, Z.div_add by lia.
    rewrite (Z.mod_small L (2 ^ 32)), (Z.div_small L (2 ^ 32)) by lia.
    pose proof (half_cut L (n - 32) Hn') as Hc.
    replace (32 - (n - 32)) with (64 - n) in Hc by lia.
    rewrite Z.add_0_l. change (2 ^ 32) with 4294967296 in *. lia.
Qed.

(** [x << 32] is [x << 0]: the count of a shift is taken modulo 32. *)
Lemma shl_32 (x : Z) : shl x 32 mod 2 ^ 32 = x mod 2 ^ 32.
Proof.
  unfold shl. change (Z.land 32 31) with 0. rewrite Z.shiftl_0_r.
  rewrite !to_int32_mod. reflexivity.
Qed.

(** X23 (the rotation count 32).  At the count 32 [rotr64] does not swap
    the halves: both halves returned are the bitwise or of the two given
    halves, so the result is the rotated word only when the two halves are
    the same number. *)
Theorem rotr64_by_32_merges_the_halves (h l : Z) :
  rotr64 h l 32 = (Z.lor (to_uint32 h) (to_uint32 l), Z.lor (to_uint32 h) (to_uint32 l)) /\
  (of_pair (rotr64 h l 32) = rotr (value h l) 32 <-> to_uint32 h = to_uint32 l).
Proof.
  assert (E : rotr64 h l 32
              = (Z.lor (to_uint32 h) (to_uint32 l), Z.lor (to_uint32 h) (to_uint32 l))).
  { unfold rotr64. change (32 <? 32) with false. cbv iota zeta.
    change (32 - 32) with 0. change (32 - 0) with 32.
    rewrite !uint32_bor, !shl_32, !ushr_0, !Z.mod_mod by lia.
    unfold to_uint32, two32. change 4294967296 with (2 ^ 32).
    rewrite (Z.lor_comm (l mod 2 ^ 32)). reflexivity. }
  split; [exact E |].
  rewrite E. unfold of_pair. cbn [fst snd].
  pose proof (value_range h l) as Hv.
  rewrite rotr_closed by lia.
  pose proof (to_uint32_range h) as HH. pose proof (to_uint32_range l) as HL.
  unfold value in *.
  set (H := to_uint32 h) in *. set (L := to_uint32 l) in *.
  assert (HO : 0 <= Z.lor H L < 2 ^ 32).
  { split; [apply Z.lor_nonneg; lia |].
    destruct (Z.eq_dec (Z.lor H L) 0) as [-> | Hnz]; [lia |].
    apply Z.log2_lt_pow2; [pose proof (Z.lor_nonneg H L); lia |].
    rewrite Z.log2_lor by lia.
    destruct (Z.eq_dec H 0) as [-> | HHnz]; destruct (Z.eq_dec L 0) as [-> | HLnz];
      try (rewrite Z.lor_0_l in Hnz); try (rewrite Z.lor_0_r in Hnz);
      change (Z.log2 0) with 0.
    - lia.
    - rewrite Z.max_r by apply Z.log2_nonneg. apply Z.log2_lt_pow2; lia.
    - rewrite Z.max_l by apply Z.log2_nonneg. apply Z.log2_lt_pow2; lia.
    - apply Z.max_lub_lt; apply Z.log2_lt_pow2; lia. }
  unfold to_uint32 at 1 2, two32. change 4294967296 with (2 ^ 32).
  rewrite (Z.mod_small (Z.lor H L)) by exact HO.
  replace (H * 2 ^ 32 + L) with (L + H * 2 ^ 32) by ring.
  change (64 - 32) with 32.
  rewrite Z.mod_add, Z.div_add, (Z.mod_small L), (Z.div_small L) by lia.
  rewrite Z.add_0_l.
  split.
  - intros Heq.
    assert (HLo : Z.lor H L = L) by (change (2 ^ 32) with 4294967296 in *; lia).
    assert (HHo : Z.lor H L = H) by (change (2 ^ 32) with 4294967296 in *; lia).
    congruence.
  - intros ->. rewrite Z.lor_diag. reflexivity.
Qed.

(** X24 ([shr64]).  For a count between 1 and 63 the pair returned by
    [shr64] holds two unsigned halves, and the word they form is the word
    formed by the arguments shifted right by that count. *)
Theorem shr64_is_the_shift (h l n : Z) :
  0 < n < 64 ->
  halves (shr64 h l n) /\
  of_pair (shr64 h l n) = shr (value h l) n.
Proof.
  intros Hn. unfold shr64, of_pair, halves, shr, Sha2Spec.shr.
  rewrite Z.shiftr_div_pow2 by lia.
  unfold value. unfold to_uint32, two32. change 4294967296 with (2 ^ 32).
  pose proof (Z.mod_pos_bound h (2 ^ 32) ltac:(lia)) as HH.
  pose proof (Z.mod_pos_bound l (2 ^ 32) ltac:(lia)) as HL.
  destruct (Z.ltb_spec n 32) as [Hlt | Hge]; cbn [fst snd].
  - assert (Hn' : 0 < n < 32) by lia. destruct (pow2_cut n Hn') as (Hpq & Hp & Hq).
    rewrite funnel by exact Hn'.
    pose proof (funnel_range l h n Hn') as R2.
    rewrite ushr_0, ushr_div by lia.
    set (H := h mod 2 ^ 32) in *. set (L := l mod 2 ^ 32) in *.
    assert (R1 : 0 <= H / 2 ^ n < 2 ^ 32).
    { split; [apply Z.div_pos; lia |]. apply Z.div_lt_upper_bound; nia. }
    rewrite !(Z.mod_small _ _ R1), (Z.mod_small _ _ R2).
    split; [split; assumption |].
    replace (H * 2 ^ 32 + L) with (L + (H * 2 ^ (32 - n)) * 2 ^ n)
      by (rewrite <- Hpq; ring).
    rewrite Z.div_add by lia.
    rewrite (half_cut H n Hn'). ring.
  - assert (Hn' : 0 <= n - 32 < 32) by lia.
    rewrite ushr_0, ushr_div by lia.
    set (H := h mod 2 ^ 32) in *. set (L := l mod 2 ^ 32) in *.
    assert (Hp : 0 < 2 ^ (n - 32)) by (apply Z.pow_pos_nonneg; lia).
    assert (R1 : 0 <= H / 2 ^ (n - 32) < 2 ^ 32).
    { split; [apply Z.div_pos; lia |]. apply Z.div_lt_upper_bound; nia. }
    rewrite !(Z.mod_small _ _ R1).
    split; [split; [lia | assumption] |].
    replace (2 ^ n) with (2 ^ 32 * 2 ^ (n - 32))
      by (rewrite <- Z.pow_add_r by lia; f_equal; lia).
    rewrite <- (Z.div_div _ (2 ^ 32) (2 ^ (n - 32))) by lia.
    replace (H * 2 ^ 32 + L) with (L + H * 2 ^ 32) by ring.
    rewrite Z.div_add, (Z.div_small L (2 ^ 32)) by lia.
    change (0 mod 2 ^ 32) with 0. rewrite (Z.add_0_l H). lia.
Qed.

(** X25 ([add64] on unsigned halves).  When the low half of the first
    operand is an unsigned 32-bit number, [add64] returns the sum of the
    two words modulo 2^64, as two unsigned halves. *)
Theorem add64_is_the_sum (ah al bh bl : Z) :
  0 <= al < 2 ^ 32 ->
  halves (add64 ah al bh bl) /\
  of_pair (add64 ah al bh bl) = (value ah al + value bh bl) mod 2 ^ 64.
Proof.
  intros Hal. pose proof (add64_unsigned ah al bh bl Hal) as E.
  unfold of_pair, halves. destruct (add64 ah al bh bl) as [hi lo] eqn:Ea.
  cbn [fst snd].
  assert (R : 0 <= hi < 2 ^ 32 /\ 0 <= lo < 2 ^ 32).
  { unfold add64 in Ea. injection Ea as <- <-. rewrite !ushr_0.
    split; apply Z.mod_pos_bound; lia. }
  split; [exact R |].
  rewrite value_unsigned by tauto. rewrite E. f_equal.
  unfold value, to_uint32, two32. change 4294967296 with (2 ^ 32).
  rewrite (Z.mod_small al) by lia. ring.
Qed.

(** X26 ([add64] on a negative low half).  When the low half of the first
    operand is a negative 32-bit number, as every element read back from an
    [Int32Array] with its top bit set is, the comparison [lo < al] is never
    true: the halves are added separately, and the result is the sum of
    the two words only when the low halves produce no carry. *)
Theorem add64_negative_low_half_never_carries (ah al bh bl : Z) :
  - 2 ^ 31 <= al < 0 ->
  add64 ah al bh bl = (to_uint32 (ah + bh), to_uint32 (al + bl)) /\
  (of_pair (add64 ah al bh bl) = (value ah al + value bh bl) mod 2 ^ 64
   <-> to_uint32 al + to_uint32 bl < 2 ^ 32).
Proof.
  intros Hal.
  assert (E : add64 ah al bh bl = (to_uint32 (ah + bh), to_uint32 (al + bl))).
  { unfold add64. rewrite !ushr_0.
    pose proof (Z.mod_pos_bound (al + bl) (2 ^ 32) ltac:(lia)) as Hlo.
    destruct (Z.ltb_spec ((al + bl) mod 2 ^ 32) al) as [Hlt | _]; [lia |].
    rewrite Z.add_0_r. reflexivity. }
  split; [exact E |]. rewrite E. unfold of_pair, value. cbn [fst snd].
  unfold to_uint32, two32. change 4294967296 with (2 ^ 32).
  rewrite !Z.mod_mod by lia.
  pose proof (Z.mod_pos_bound ah (2 ^ 32) ltac:(lia)) as HA.
  pose proof (Z.mod_pos_bound bh (2 ^ 32) ltac:(lia)) as HB.
  pose proof (Z.mod_pos_bound al (2 ^ 32) ltac:(lia)) as Ha.
  pose proof (Z.mod_pos_bound bl (2 ^ 32) ltac:(lia)) as Hb.
  rewrite (Z.add_mod ah bh), (Z.add_mod al bl) by lia.
  set (A := ah mod 2 ^ 32) in *. set (B := bh mod 2 ^ 32) in *.
  set (a := al mod 2 ^ 32) in *. set (b := bl mod 2 ^ 32) in *.
  change (2 ^ 64) with (2 ^ 32 * 2 ^ 32).
  replace (A * 2 ^ 32 + a + (B * 2 ^ 32 + b)) with (a + b + (A + B) * 2 ^ 32) by ring.
  rewrite Z.rem_mul_r by lia. rewrite Z.mod_add, Z.div_add by lia.
  destruct (Z_lt_dec (a + b) (2 ^ 32)) as [Hlt | Hge].
  - rewrite (Z.mod_small (a + b)), (Z.div_small (a + b)) by lia.
    rewrite Z.add_0_l. split; [intros _; exact Hlt | intros _; ring].
  - assert (Hq : (a + b) / 2 ^ 32 = 1).
    { symmetry. apply (Z.div_unique _ _ 1 (a + b - 2 ^ 32)); lia. }
    rewrite Hq. split; [| intros; lia].
    intros Heq. exfalso.
    pose proof (Z.mod_pos_bound (A + B) (2 ^ 32) ltac:(lia)) as H1.
    pose proof (Z.mod_pos_bound (1 + (A + B)) (2 ^ 32) ltac:(lia)) as H2.
    assert (Hm : (A + B) mod 2 ^ 32 = (1 + (A + B)) mod 2 ^ 32)
      by (change (2 ^ 32) with 4294967296 in *; lia).
    assert (Hd : (1 + (A + B) - (A + B)) mod 2 ^ 32 = 0).
    { rewrite Zminus_mod, <- Hm, Z.sub_diag. reflexivity. }
    replace (1 + (A + B) - (A + B)) with 1 in Hd by ring.
    discriminate Hd.
Qed.

(** X22, for the first initial hash word, its high half read as a signed
    number, rotated by 28. *)
Lemma rotr64_is_the_rotation_witness :
  (0 < 28 < 64) /\ 28 <> 32 /\
  halves (rotr64 (-1779033703) 4089235720 28) /\
  of_pair (rotr64 (-1779033703) 4089235720 28) = rotr (value (-1779033703) 4089235720) 28.
Proof.
  split; [lia |]. split; [lia |].
  apply (rotr64_is_the_rotation (-1779033703) 4089235720 28); lia.
Defined.

(** X24, for the same word shifted by 7. *)
Lemma shr64_is_the_shift_witness :
  (0 < 7 < 64) /\
  halves (shr64 (-1779033703) 4089235720 7) /\
  of_pair (shr64 (-1779033703) 4089235720 7) = shr (value (-1779033703) 4089235720) 7.
Proof.
  split; [lia |]. apply (shr64_is_the_shift (-1779033703) 4089235720 7); lia.
Defined.

(** X25, a sum whose low halves carry. *)
Lemma add64_is_the_sum_witness :
  (0 <= 4294967295 < 2 ^ 32) /\
  halves (add64 1 4294967295 2 1) /\
  of_pair (add64 1 4294967295 2 1) = (value 1 4294967295 + value 2 1) mod 2 ^ 64.
Proof.
  split; [lia |]. apply (add64_is_the_sum 1 4294967295 2 1); lia.
Defined.

(** X26, the same sum with the low half read as a signed number. *)
Lemma add64_negative_low_half_never_carries_witness :
  (- 2 ^ 31 <= -1 < 0) /\
  add64 1 (-1) 2 1 = (to_uint32 (1 + 2), to_uint32 (-1 + 1)) /\
  (of_pair (add64 1 (-1) 2 1) = (value 1 (-1) + value 2 1) mod 2 ^ 64
   <-> to_uint32 (-1) + to_uint32 1 < 2 ^ 32).
Proof.
  split; [lia |]. apply (add64_negative_low_half_never_carries 1 (-1) 2 1); lia.
Defined.

End Words64.

(** ** Padding and HMAC of the pure-JS SHA-512 *)

Section Padding.

Import JS Sha512Web.

Lemma byte_of_Z_mod (a b : Z) : a mod 256 = b mod 256 -> byte_of_Z a = byte_of_Z b.
Proof. intros H. unfold byte_of_Z. rewrite H. reflexivity. Qed.

Lemma repeat_add {A : Type} (x : A) (n m : nat) :
  repeat x (n + m) = repeat x n ++ repeat x m.
Proof. apply repeat_app. Qed.

(** The number of zero bytes of the code is that of the standard plus the
    sixteen bytes of the length field. *)
Lemma pad_zeros (l : nat) :
  Z.to_nat ((128 - ((Z.of_nat l + 17) mod 128)) mod 128 + 17 - 1)
  = ((128 - (l + 1 + 2 * 8) mod 128) mod 128 + 16)%nat.
Proof.
  assert (E : Z.of_nat ((128 - (l + 1 + 2 * 8) mod 128) mod 128)
              = (128 - ((Z.of_nat l + 17) mod 128)) mod 128).
  { rewrite Nat2Z.inj_mod, Nat2Z.inj_sub by (apply Nat.lt_le_incl, Nat.mod_upper_bound; lia).
    rewrite Nat2Z.inj_mod. f_equal. f_equal. f_equal. lia. }
  rewrite <- E. lia.
Qed.

(** The sixteen bytes of a length below 2^64: eight zero bytes and the two
    big-endian halves. *)
Lemma length_field (z : Z) :
  0 <= z < 2 ^ 64 ->
  Sha2Spec.Z_to_be 16 z
  = repeat x00 8 ++ be32 (ushr (z / 4294967296) 0) ++ be32 (ushr z 0).
Proof.
  intros Hz. unfold Sha2Spec.Z_to_be, be32. rewrite !ushr_0.
  unfold to_uint32, two32. change 4294967296 with (2 ^ 32).
  rewrite !Z.mod_mod by lia.
  cbn [seq map repeat app Nat.sub].
  repeat match goal with
         | |- context [256 ^ Z.of_nat ?k] =>
             let v := eval vm_compute in (256 ^ Z.of_nat k) in
             change (256 ^ Z.of_nat k) with v
         end.
  change (2 ^ 32) with 4294967296. change (2 ^ 64) with 18446744073709551616 in Hz.
  change x00 with (byte_of_Z 0).
  repeat (apply (f_equal2 cons);
          [apply byte_of_Z_mod; Z.to_euclidean_division_equations; lia |]).
  reflexivity.
Qed.

Lemma setUint32_tail (pre old : list byte) (v : Z) :
  length old = 4%nat ->
  setUint32 (pre ++ old) (Z.of_nat (length (pre ++ old)) - 4) v = pre ++ be32 v.
Proof.
  intros Hold. unfold setUint32. rewrite length_app, Hold.
  replace (Z.to_nat (Z.of_nat (length pre + 4) - 4)) with (length pre) by lia.
  rewrite take_app_length, drop_ge, app_nil_r; [reflexivity |].
  rewrite length_app. lia.
Qed.

Lemma setUint32_before_tail (pre old last : list byte) (v : Z) :
  length old = 4%nat -> length last = 4%nat ->
  setUint32 (pre ++ old ++ last) (Z.of_nat (length (pre ++ old ++ last)) - 8) v
  = pre ++ be32 v ++ last.
Proof.
  intros Hold Hlast. unfold setUint32. rewrite !length_app, Hold, Hlast.
  replace (Z.to_nat (Z.of_nat (length pre + (4 + 4)) - 8)) with (length pre) by lia.
  rewrite take_app_length. f_equal. f_equal.
  rewrite (app_assoc pre old last).
  rewrite drop_app_length'; [reflexivity |]. rewrite length_app. lia.
Qed.

(** X27 (the padding of [sha512]).  For a message whose length in bits is
    below 2^53, so that the number [bitLen] of the code is exact, the padded
    message built by the code is the padding of FIPS 180-4 for SHA-512: the
    message, the byte 0x80, zero bytes up to 16 bytes short of a multiple
    of 128, and the length in bits over 16 big-endian bytes. *)
Theorem pad_is_the_standard_padding (data : list byte) :
  Z.of_nat (length data) * 8 < 2 ^ 53 ->
  pad data = Sha2Spec.padding Sha2Spec.P512 data.
Proof.
  intros Hlen. unfold pad, Sha2Spec.padding.
  change (Sha2Spec.block_bytes Sha2Spec.P512) with 128%nat.
  change (Sha2Spec.wbytes Sha2Spec.P512) with 8%nat.
  rewrite pad_zeros. set (zeros := ((128 - (length data + 1 + 2 * 8) mod 128) mod 128)%nat).
  change (2 * 8)%nat with 16%nat.
  rewrite length_field by (change (2 ^ 53) with 9007199254740992 in Hlen;
                           change (2 ^ 64) with 18446744073709551616; lia).
  set (v1 := ushr (Z.of_nat (length data) * 8) 0).
  set (v2 := ushr (Z.of_nat (length data) * 8 / 4294967296) 0).
  rewrite repeat_add. change (repeat x00 16) with (repeat x00 8 ++ repeat x00 4 ++ repeat x00 4).
  set (pre := data ++ [x80] ++ repeat x00 zeros ++ repeat x00 8).
  replace (data ++ [x80] ++ repeat x00 zeros ++ repeat x00 8 ++ repeat x00 4 ++ repeat x00 4)
    with ((pre ++ repeat x00 4) ++ repeat x00 4)
    by (unfold pre; rewrite <- !app_assoc; reflexivity).
  rewrite setUint32_tail by reflexivity.
  replace (Z.of_nat (length ((pre ++ repeat x00 4) ++ repeat x00 4)))
    with (Z.of_nat (length (pre ++ repeat x00 4 ++ be32 v1)))
    by (rewrite !length_app; cbn [length repeat be32]; f_equal; lia).
  rewrite <- (app_assoc pre).
  rewrite setUint32_before_tail by reflexivity.
  unfold pre. rewrite <- !app_assoc. reflexivity.
Qed.

(** X27, for the message "abc". *)
Lemma pad_is_the_standard_padding_witness :
  Z.of_nat (length [x61; x62; x63]) * 8 < 2 ^ 53 /\
  pad [x61; x62; x63] = Sha2Spec.padding Sha2Spec.P512 [x61; x62; x63].
Proof.
  split; [cbn; lia |]. apply (pad_is_the_standard_padding [x61; x62; x63]). cbn. lia.
Defined.

End Padding.

Section Hmac.

Import JS Sha512Web.

Lemma to_int32_small (x : Z) : 0 <= x < 2 ^ 31 -> to_int32 x = x.
Proof.
  intros Hx. unfold to_int32, two32. change (2 ^ 31) with 2147483648 in Hx.
  rewrite Z.mod_small by lia.
  destruct (Z.ltb_spec x 2147483648); [reflexivity | lia].
Qed.

(** [b ^ c] on a byte and a small constant. *)
Lemma bxor_byte (b : byte) (c : Z) :
  0 <= c < 256 -> byte_of_Z (bxor (byte_to_Z b) c) = Sha2Spec.xor_byte c b.
Proof.
  intros Hc. unfold bxor, Sha2Spec.xor_byte. pose proof (byte_to_Z_range b) as Hb.
  rewrite !to_int32_small by (change (2 ^ 31) with 2147483648; lia). reflexivity.
Qed.

(** The key block of [hmac_sha512]: the key, or its hash when it is longer
    than a block, followed by zero bytes up to 128 bytes. *)
Lemma hmac_sha512_unfold (key data : list byte) :
  hmac_sha512 key data = Sha2Spec.hmac_spec sha512 128 key data.
Proof.
  unfold hmac_sha512, Sha2Spec.hmac_spec. cbv zeta.
  set (k := (if (128 <? length key)%nat then sha512 key else key)
            ++ repeat x00 (128 - length (if (128 <? length key)%nat then sha512 key else key))).
  rewrite (map_ext (fun b => byte_of_Z (bxor (byte_to_Z b) 54)) (Sha2Spec.xor_byte 54))
    by (intros b; apply bxor_byte; lia).
  rewrite (map_ext (fun b => byte_of_Z (bxor (byte_to_Z b) 92)) (Sha2Spec.xor_byte 92))
    by (intros b; apply bxor_byte; lia).
  reflexivity.
Qed.

(** X28 ([hmac_sha512]).  The function is the HMAC construction of RFC
    2104 with a block of 128 bytes over the [sha512] of the same file;
    a key longer than 128 bytes gives the same code as its 64-byte hash;
    and a key gives the same code as the key followed by zero bytes up to
    128 bytes. *)
Theorem hmac_sha512_is_hmac_over_sha512 (key data : list byte) :
  hmac_sha512 key data = Sha2Spec.hmac_spec sha512 128 key data /\
  hmac_sha512 key data
  = hmac_sha512 (if (128 <? length key)%nat then sha512 key else key) data /\
  hmac_sha512 (key ++ repeat x00 (128 - length key)) data = hmac_sha512 key data.
Proof.
  split; [apply hmac_sha512_unfold |]. split.
  - destruct (Nat.ltb_spec 128 (length key)) as [Hlong | Hshort]; [| reflexivity].
    unfold hmac_sha512. cbv zeta.
    rewrite sha512_length. change (128 <? 64)%nat with false. cbv iota.
    destruct (Nat.ltb_spec 128 (length key)) as [_ | Hno]; [| lia].
    rewrite sha512_length. reflexivity.
  - destruct (Nat.ltb_spec 128 (length key)) as [Hlong | Hshort].
    + replace (128 - length key)%nat with 0%nat by lia. cbn [repeat].
      rewrite app_nil_r. reflexivity.
    + unfold hmac_sha512. cbv zeta. rewrite length_app, repeat_length.
      replace (length key + (128 - length key))%nat with 128%nat by lia.
      change (128 <? 128)%nat with false. cbv iota.
      destruct (Nat.ltb_spec 128 (length key)) as [Hno | _]; [lia |].
      rewrite length_app, repeat_length.
      replace (length key + (128 - length key))%nat with 128%nat by lia.
      change (128 - 128)%nat with 0%nat. cbn [repeat]. rewrite app_nil_r. reflexivity.
Qed.

End Hmac.

(** ** The routes and the tables they write *)

Section RouteTables.

Import JSString AuthRoutes.
Context {platform : Platform}.

Ltac split_inner :=
  match goal with
  | |- context [match ?x with _ => _ end] =>
      lazymatch x with
      | context [match _ with _ => _ end] => fail
      | _ => destruct x eqn:?
      end
  end.

Ltac run_all :=
  unfold post_auth_ad, ldapAuthenticate, get_nas_credentials, post_auth, post_auth_request,
    get_auth_request_status, post_auth_response, post_auth_account_request,
    post_auth_account_response, account_upsert, request_upsert, request_findUnique,
    request_findMany, request_update, kv_upsert, kv_findUnique;
  exec; repeat (split_inner; exec; cbn [negb]).

(** X29 (the tables each route writes).  Whatever it is asked, the
    directory login writes neither pairing table; the signature login
    writes only the accounts; the terminal pairing routes write only the
    terminal pairing table and the account pairing routes only the account
    pairing table; the two GET routes write nothing. *)
Theorem routes_write_only_their_tables (env : Env) (c : Call) (d : Db) :
  match c with
  | PostAuthAd _ _ =>
      terminalAuthRequest (served env c d) = terminalAuthRequest d /\
      accountAuthRequest (served env c d) = accountAuthRequest d
  | PostAuth _ _ _ =>
      terminalAuthRequest (served env c d) = terminalAuthRequest d /\
      accountAuthRequest (served env c d) = accountAuthRequest d /\
      userKVStore (served env c d) = userKVStore d
  | PostAuthRequest _ _ | PostAuthResponse _ _ _ =>
      account (served env c d) = account d /\
      accountAuthRequest (served env c d) = accountAuthRequest d /\
      userKVStore (served env c d) = userKVStore d
  | PostAuthAccountRequest _ | PostAuthAccountResponse _ _ _ =>
      account (served env c d) = account d /\
      terminalAuthRequest (served env c d) = terminalAuthRequest d /\
      userKVStore (served env c d) = userKVStore d
  | GetNasCredentials _ _ | GetAuthRequestStatus _ =>
      served env c d = d
  end.
Proof.
  unfold served. destruct c; cbn [authRoutes].
  - unfold post_auth_ad, ldapAuthenticate.
    destruct (Ldap.authenticate _ _ _ _) as [res actions].
    run_all. all: repeat apply conj; reflexivity.
  - run_all. all: repeat apply conj; reflexivity.
  - run_all. all: repeat apply conj; reflexivity.
  - run_all. all: repeat apply conj; reflexivity.
  - run_all. all: repeat apply conj; reflexivity.
  - run_all. all: repeat apply conj; reflexivity.
  - run_all. all: repeat apply conj; reflexivity.
  - run_all. all: repeat apply conj; reflexivity.
Qed.

End RouteTables.

(** ** POST /v1/auth *)

Section SignatureLogin.

Import JSString AuthRoutes.
Context {platform : Platform}.

(** X30 (POST /v1/auth).  For a request whose three fields decode, with a
    key of 32 and a signature of 64 bytes (the sizes the verifier takes
    without throwing): a signature the verifier rejects is answered 401
    {error:'Invalid signature'} and nothing is read, written or logged; a
    signature it accepts is answered with a token for the account stored
    under the hex of the key, which is created if the key is new, and a
    later login with the same fields is answered with the token of the same
    account, and creates no row. *)
Theorem signature_login (env env' : Env) (publicKey challenge signature : list Z)
        (pk ch sg : list byte) (w : World) :
  decodeBase64 publicKey = Ok pk ->
  decodeBase64 challenge = Ok ch ->
  decodeBase64 signature = Ok sg ->
  length pk = 32%nat -> length sg = 64%nat ->
  if sign_detached_verify ch sg pk then
    exists user w1 w2,
      post_auth env publicKey challenge signature w
      = (Ok {| code := 200; body := BToken (createToken (acc_id user) None) |}, w1) /\
      account (db w1) !! encodeHex pk = Some user /\
      acc_id user = match account (db w) !! encodeHex pk with
                    | Some a => acc_id a
                    | None => cuid (created (db w))
                    end /\
      db_calls (events w1) = db_calls (events w) ++ [AccountUpsert (encodeHex pk)] /\
      post_auth env' publicKey challenge signature w1
      = (Ok {| code := 200; body := BToken (createToken (acc_id user) None) |}, w2) /\
      created (db w2) = created (db w1) /\
      dom (account (db w2)) = dom (account (db w1))
  else
    post_auth env publicKey challenge signature w
    = (Ok {| code := 401; body := BError (js "Invalid signature") |}, w).
Proof.
  intros Hpk Hch Hsg _ _.
  assert (Hrun : forall e w0,
             post_auth e publicKey challenge signature w0
             = if sign_detached_verify ch sg pk
               then match account_upsert (encodeHex pk) (now e) w0 with
                    | (Ok user, w') =>
                        (Ok {| code := 200; body := BToken (createToken (acc_id user) None) |}, w')
                    | (Throw err, w') => (Throw err, w')
                    end
               else (Ok {| code := 401; body := BError (js "Invalid signature") |}, w0)).
  { intros e w0. unfold post_auth. exec. rewrite Hpk. exec. rewrite Hch. exec.
    rewrite Hsg. exec. destruct (sign_detached_verify ch sg pk); cbn [negb]; exec.
    - destruct (account_upsert (encodeHex pk) (now e) w0) as [[user | err] w']; reflexivity.
    - destruct w0; reflexivity. }
  destruct (sign_detached_verify ch sg pk) eqn:Hv.
  - destruct (account_upsert_run (encodeHex pk) (now env) w) as (user & Hw1 & Hid & _).
    set (w1 := {| db := match account (db w) !! encodeHex pk with
                        | Some _ => fun d => d
                        | None => bump
                        end (set_account (<[encodeHex pk := user]> (account (db w))) (db w));
                  events := events w ++ [DbCall (AccountUpsert (encodeHex pk))] |}) in *.
    assert (Hlook : account (db w1) !! encodeHex pk = Some user).
    { unfold w1. cbn [db]. destruct (account (db w) !! encodeHex pk);
        cbn [account set_account bump]; apply lookup_insert_eq. }
    destruct (account_upsert_run (encodeHex pk) (now env') w1) as (user2 & Hw2 & Hid2 & _).
    rewrite Hlook in Hw2, Hid2.
    eexists user, w1, _. rewrite !Hrun, Hw1, Hw2, Hid2.
    repeat apply conj; try reflexivity.
    + exact Hlook.
    + exact Hid.
    + unfold w1. cbn [events]. rewrite db_calls_app. reflexivity.
    + cbn [db account set_account]. apply dom_insert_lookup_L. rewrite Hlook. eauto.
  - rewrite Hrun. reflexivity.
Qed.

End SignatureLogin.

(** X30, the key [key32] signing the challenge [key32] on the empty store. *)
Lemma signature_login_witness :
  let pf := TestPlatform.platform in
  let env := TestData.test_env in
  let w := TestPlatform.start TestPlatform.empty_db in
  AuthRoutes.decodeBase64 TestPlatform.key32 = AuthRoutes.Ok (repeat x00 32) /\
  AuthRoutes.decodeBase64 TestSignature.sig64 = AuthRoutes.Ok (repeat x00 64) /\
  length (repeat x00 32) = 32%nat /\ length (repeat x00 64) = 64%nat /\
  if AuthRoutes.sign_detached_verify (repeat x00 32) (repeat x00 64) (repeat x00 32) then
    exists user w1 w2,
      AuthRoutes.post_auth env TestPlatform.key32 TestPlatform.key32 TestSignature.sig64 w
      = (AuthRoutes.Ok {| AuthRoutes.code := 200;
                          AuthRoutes.body :=
                            AuthRoutes.BToken
                              (AuthRoutes.createToken (AuthRoutes.acc_id user) None) |}, w1) /\
      AuthRoutes.account (AuthRoutes.db w1) !! AuthRoutes.encodeHex (repeat x00 32) = Some user /\
      AuthRoutes.acc_id user
      = match AuthRoutes.account (AuthRoutes.db w) !! AuthRoutes.encodeHex (repeat x00 32) with
        | Some a => AuthRoutes.acc_id a
        | None => AuthRoutes.cuid (AuthRoutes.created (AuthRoutes.db w))
        end /\
      AuthRoutes.db_calls (AuthRoutes.events w1)
      = AuthRoutes.db_calls (AuthRoutes.events w)
        ++ [AuthRoutes.AccountUpsert (AuthRoutes.encodeHex (repeat x00 32))] /\
      AuthRoutes.post_auth env TestPlatform.key32 TestPlatform.key32 TestSignature.sig64 w1
      = (AuthRoutes.Ok {| AuthRoutes.code := 200;
                          AuthRoutes.body :=
                            AuthRoutes.BToken
                              (AuthRoutes.createToken (AuthRoutes.acc_id user) None) |}, w2) /\
      AuthRoutes.created (AuthRoutes.db w2) = AuthRoutes.created (AuthRoutes.db w1) /\
      dom (AuthRoutes.account (AuthRoutes.db w2)) = dom (AuthRoutes.account (AuthRoutes.db w1))
  else
    AuthRoutes.post_auth env TestPlatform.key32 TestPlatform.key32 TestSignature.sig64 w
    = (AuthRoutes.Ok {| AuthRoutes.code := 401;
                        AuthRoutes.body := AuthRoutes.BError (js "Invalid signature") |}, w).
Proof.
  intros pf env w.
  assert (H64 : AuthRoutes.decodeBase64 TestSignature.sig64 = AuthRoutes.Ok (repeat x00 64))
    by (vm_compute; reflexivity).
  repeat apply conj; [exact test_key32_decodes | exact H64 | reflexivity | reflexivity |].
  apply (signature_login env env TestPlatform.key32 TestPlatform.key32 TestSignature.sig64
           (repeat x00 32) (repeat x00 32) (repeat x00 64) w);
    [exact test_key32_decodes | exact test_key32_decodes | exact H64 | reflexivity | reflexivity].
Defined.
